(** * PolarProject: tabular aggregation, raster text grids and the
      habitat-suitability grid builder

    A shallow embedding of the computational parts of the analysis scripts
    (BaseAnalysis/*.py, CMEMS/CMEMStrans.py, CMEMS/CMEMS_ascRead&visualization.py
    and CMEMS/CMEMS_Maxent.py), followed by the properties proved about them.

    Conventions of the embedding.
    - A pandas column is a list of cells; a missing cell (NaN / NaT) is [None].
    - Python floats are idealised: rationals ([Q]) where the scripts only add,
      divide and round, reals ([R]) where they call [exp], [log] or [sqrt].
      The special values NaN and +-Inf are explicit constructors wherever the
      code creates or tests them; in the real-valued grids a cell that can be
      NaN is an [option R], [None] being NaN.
    - Text is ASCII: a character is a code point below 128.
    - Library routines that are not part of the repository (date parsing,
      pandas' quantile, scipy's Gaussian filter) are Section variables. *)

From Stdlib Require Import Floats.
From Stdlib Require Import ZArith QArith Qround Qminmax Qabs Reals List String Ascii Bool.
From Stdlib Require Import Lia Lra Psatz Permutation Sorted.
From stdpp Require Import base gmap sets list strings.

Local Open Scope string_scope.

(** ** Shared helpers: pandas-style ordering and grouping *)

Module Frame.

(** Insertion of [x] into a list already ordered by [leb]. *)
Fixpoint insert_by {A} (leb : A -> A -> bool) (x : A) (l : list A) : list A :=
  match l with
  | [] => [x]
  | y :: l' => if leb x y then x :: y :: l' else y :: insert_by leb x l'
  end.

(** [sort_values]: a stable sort of the rows by [leb]. *)
Definition sort_by {A} (leb : A -> A -> bool) (l : list A) : list A :=
  foldr (insert_by leb) [] l.

(** The distinct keys of a column, in ascending order (what [groupby]
    iterates over: one group per distinct non-missing key, sorted). *)
Definition group_keys {K} `{EqDecision K} (leb : K -> K -> bool)
    (keys : list K) : list K :=
  sort_by leb (remove_dups keys).

(** [df.groupby(key)]: the sorted distinct keys, each with its rows in
    their original order.  Rows whose key is missing are dropped. *)
Definition groupby {A K} `{EqDecision K} (leb : K -> K -> bool)
    (key : A -> option K) (rows : list A) : list (K * list A) :=
  map (fun k => (k, filter (fun r => key r = Some k) rows))
      (group_keys leb (omap key rows)).

(** Sum of a numeric column, skipping missing cells (pandas' [sum]). *)
Definition qsum (l : list Q) : Q := foldr Qplus 0%Q l.

End Frame.

(** ** BaseAnalysis/物种丰富度_子区域.py *)

Module RegionRichness.

(** One row of the observation table S39_BM_pre.csv. *)
Record obs : Type := mk_obs {
  Date : option string;
  Species : option string;
  Region : option string;
  Count : option Q
}.

(** [data['Count'] > 0]: a missing count compares false. *)
Definition count_positive (r : obs) : bool :=
  match Count r with
  | Some c => if Qlt_le_dec 0 c then true else false
  | None => false
  end.

(** [str.isdigit] on the ASCII range. *)
Definition isdigit (c : ascii) : bool :=
  let n := nat_of_ascii c in (48 <=? n)%nat && (n <=? 57)%nat.

Definition digit_value (c : ascii) : Z := Z.of_nat (nat_of_ascii c) - 48.

(** Python's [int(s)] for a string made of ASCII digits. *)
Definition int_of_digits (s : string) : Z :=
  fold_left (fun acc c => 10 * acc + digit_value c)%Z (list_ascii_of_string s) 0%Z.

(** The body of the [for char in region] loop on the pair
    [(number, letter)]. *)
Definition key_step (st : string * string) (char : ascii) : string * string :=
  if isdigit char then (fst st ++ String char "", snd st)
  else (fst st, String char "").

Definition region_sort_key (region : string) : Z * string :=
  let st := fold_left key_step (list_ascii_of_string region) ("", "") in
  (if String.eqb (fst st) "" then 0%Z else int_of_digits (fst st), snd st).

(** Python's ordering of the [(int, str)] tuples the key returns. *)
Definition key_ltb (a b : Z * string) : bool :=
  (fst a <? fst b)%Z || ((fst a =? fst b)%Z && String.ltb (snd a) (snd b)).

Definition key_leb (a b : Z * string) : bool := negb (key_ltb b a).

(** [filtered_data.groupby('Region')['Species'].nunique()] *)
Definition nunique (rows : list obs) : nat :=
  size (list_to_set (omap Species rows) : gset string).

Definition species_richness_by_region (data : list obs) : list (string * nat) :=
  let filtered_data := filter (fun r => count_positive r = true) data in
  let grouped := Frame.groupby String.leb Region filtered_data in
  let richness := map (fun g => (fst g, nunique (snd g))) grouped in
  Frame.sort_by (fun a b => key_leb (region_sort_key (fst a)) (region_sort_key (fst b)))
                richness.

End RegionRichness.

(** ** Dates: the day-month text of the observation table *)

Module Dates.

(** A parsed date of the assumed year 2023. *)
Record timestamp : Type := mk_ts { ts_month : nat; ts_day : nat }.

#[export] Instance timestamp_eq_dec : EqDecision timestamp.
Proof. solve_decision. Defined.

Definition ts_leb (a b : timestamp) : bool :=
  (ts_month a <? ts_month b)%nat
  || ((ts_month a =? ts_month b)%nat && (ts_day a <=? ts_day b)%nat).

(** [Date.dt.to_period('M')] *)
Definition to_period_M (t : timestamp) : nat := ts_month t.

End Dates.

(** ** BaseAnalysis/物种丰富度_月度.py and BaseAnalysis/香农指数-月度.py *)

Module Monthly.
Import RegionRichness Dates.

Section WithParser.
(** [pd.to_datetime('2023-' + s, format='%Y-%d-%b')] on one day-month
    text: [None] when the text does not match the format. *)
Variable strptime : string -> option timestamp.

(** The [Date] column after [pd.to_datetime(...)] without
    [errors='coerce']: a missing cell becomes NaT, a text that does not
    parse raises (the whole result is [None]). *)
Definition to_datetime_strict (r : obs) : option (option timestamp * obs) :=
  match Date r with
  | None => Some (None, r)
  | Some s => match strptime s with
              | Some t => Some (Some t, r)
              | None => None
              end
  end.

Definition dated (data : list obs) : option (list (option timestamp * obs)) :=
  mapM to_datetime_strict data.

Definition month_of (r : option timestamp * obs) : option nat :=
  to_period_M <$> fst r.

(** 物种丰富度_月度.py: richness per month, ascending by month. *)
Definition species_richness_month (data : list obs) : option (list (nat * nat)) :=
  let filtered_data := filter (fun r => count_positive r = true) data in
  rows ← dated filtered_data;
  Some (map (fun g => (fst g, nunique (map snd (snd g))))
            (Frame.groupby Nat.leb month_of rows)).

(** 香农指数-月度.py, [calculate_shannon_diversity(group)]:
    [proportions = group['Count'] / float(group['Count'].sum())],
    [-np.sum(proportions * np.log(proportions))]. *)
Definition proportions (group : list obs) : list R :=
  let counts := omap Count group in
  map (fun c => (Q2R c / Q2R (Frame.qsum counts))%R) counts.

Definition calculate_shannon_diversity (group : list obs) : R :=
  (- foldr Rplus 0 (map (fun p => p * ln p) (proportions group)))%R.

Definition shannon_diversity_month (data : list obs) : option (list (nat * R)) :=
  let filtered_data := filter (fun r => count_positive r = true) data in
  rows ← dated filtered_data;
  Some (map (fun g => (fst g, calculate_shannon_diversity (map snd (snd g))))
            (Frame.groupby Nat.leb month_of rows)).

End WithParser.

End Monthly.

(** ** Floating-point cells with their special values *)

Module Float.

(** A float cell: a finite value, NaN, or an infinity. *)
Inductive fval : Type :=
| Fin (q : Q)
| NaN
| PInf
| NInf.

Definition is_finite (v : fval) : bool :=
  match v with Fin _ => true | _ => false end.

(** The number a finite cell holds. *)
Definition finite_value (v : fval) : option Q :=
  match v with Fin q => Some q | _ => None end.

(** numpy's true division of two finite numbers: [x/0] is an infinity of
    the sign of [x], [0/0] is NaN; nothing is raised. *)
Definition np_div (a b : Q) : fval :=
  if Qeq_bool b 0 then
    (if Qeq_bool a 0 then NaN
     else if Qlt_le_dec 0 a then PInf else NInf)
  else Fin (Qred (a / b)).

(** Multiplication of a cell by a positive finite constant. *)
Definition scale (k : Q) (v : fval) : fval :=
  match v with
  | Fin q => Fin (Qred (q * k))
  | other => other
  end.

End Float.

(** ** BaseAnalysis/月度物种占比.py *)

Module SpeciesShare.
Import RegionRichness Dates Float.

(** A row of the grouped table, then of the written CSV. *)
Record count_row : Type := mk_count_row {
  cr_date : timestamp;
  cr_species : string;
  cr_count : Q
}.

Record share_row : Type := mk_share_row {
  sr_date : timestamp;
  sr_species : string;
  sr_count : Q;
  sr_percentage : fval
}.

Definition pair_leb (a b : timestamp * string) : bool :=
  if decide (fst a = fst b) then String.leb (snd a) (snd b) else ts_leb (fst a) (fst b).

Section WithParser.
(** [pd.to_datetime(f"{x}-2023", format='%d-%b-%Y', errors='coerce')] on
    one day-month text: [None] is NaT. *)
Variable strptime : string -> option timestamp.

(** Date parsing, [dropna(subset=['Date'])], [dropna(subset=['Species'])]:
    the rows that survive, each with its grouping key. *)
Definition clean (r : obs) : option ((timestamp * string) * obs) :=
  s ← Date r; t ← strptime s; sp ← Species r; Some ((t, sp), r).

(** [data.groupby(['Date', 'Species'])['Count'].sum().reset_index()] *)
Definition monthly_species_count (data : list obs) : list count_row :=
  map (fun g => mk_count_row (fst (fst g)) (snd (fst g))
                  (Qred (Frame.qsum (omap (fun kr => Count (snd kr)) (snd g)))))
      (Frame.groupby pair_leb (fun kr => Some (fst kr)) (omap clean data)).

(** [monthly_species_count.groupby('Date')['Count'].transform('sum')],
    read at the row of date [d]. *)
Definition monthly_total_count (grouped : list count_row) (d : timestamp) : Q :=
  Frame.qsum (map cr_count (filter (fun r => cr_date r = d) grouped)).

(** The script from the grouping on: [None] when the grouped table is
    empty (nothing is written), otherwise the rows of the CSV. *)
Definition species_ratio_monthly (data : list obs) : option (list share_row) :=
  let grouped := monthly_species_count data in
  match grouped with
  | [] => None
  | _ =>
    Some (map (fun r =>
                 mk_share_row (cr_date r) (cr_species r) (cr_count r)
                   (scale 100 (np_div (cr_count r)
                                      (monthly_total_count grouped (cr_date r)))))
              grouped)
  end.

End WithParser.

(** The row expression [Count / monthly_total_count * 100] in IEEE
    binary64, the arithmetic pandas performs it in. *)
Definition binary64_share (count total : float) : float :=
  (count / total * 100)%float.

End SpeciesShare.

(** ** BaseAnalysis/物种丰富度_各子区域物种丰富度占比.py *)

Module RegionRate.
Import Float.

(** A row of S39_BM_RegionMonthly.csv. *)
Record richness_row : Type := mk_richness_row {
  Region : option string;
  Date : option string;
  Species_Richness : option Q
}.

(** [data.groupby('Date')['Species_Richness'].transform('sum')] at one
    row: the sum over the rows of the same date, NaN for a missing date. *)
Definition total_species_richness_per_month (data : list richness_row)
    (r : richness_row) : option Q :=
  d ← Date r;
  Some (Frame.qsum (omap Species_Richness (filter (fun r' => Date r' = Some d) data))).

(** [data['Species_Richness'] / total_species_richness_per_month] *)
Definition region_rate (data : list richness_row) (r : richness_row) : fval :=
  match Species_Richness r, total_species_richness_per_month data r with
  | Some x, Some t => np_div x t
  | _, _ => NaN
  end.

(** The rows written to S39_BM_RegionRateMonthly.csv. *)
Definition region_rate_data (data : list richness_row)
    : list (option string * option string * fval) :=
  map (fun r => (Region r, Date r, region_rate data r)) data.

End RegionRate.

(** ** Text: the pieces of Python's [str] and number formatting the raster
       writer and reader use *)

Module Text.
Import Float.

(** ASCII whitespace, as [str.split()] and [str.strip()] see it. *)
Definition is_space (c : ascii) : bool :=
  let n := nat_of_ascii c in
  ((9 <=? n)%nat && (n <=? 13)%nat) || ((28 <=? n)%nat && (n <=? 32)%nat).

(** [s.split()], with [cur] the token being read. *)
Fixpoint split_aux (cur : string) (s : string) : list string :=
  match s with
  | EmptyString => if String.eqb cur "" then [] else [cur]
  | String c s' =>
    if is_space c then
      (if String.eqb cur "" then split_aux "" s' else cur :: split_aux "" s')
    else split_aux (cur ++ String c "") s'
  end.

Definition split (s : string) : list string := split_aux "" s.

(** [" ".join(tokens)] *)
Definition join (tokens : list string) : string := String.concat " " tokens.

(** [s.lower()] on ASCII letters. *)
Definition lower_char (c : ascii) : ascii :=
  let n := nat_of_ascii c in
  if (65 <=? n)%nat && (n <=? 90)%nat then ascii_of_nat (n + 32) else c.

Definition lower (s : string) : string :=
  string_of_list_ascii (map lower_char (list_ascii_of_string s)).

(** ['.' in s] *)
Definition has_dot (s : string) : bool :=
  existsb (Ascii.eqb ".") (list_ascii_of_string s).

Definition is_digit (c : ascii) : bool :=
  let n := nat_of_ascii c in (48 <=? n)%nat && (n <=? 57)%nat.

(** The value of a run of decimal digits; [None] on any other character. *)
Definition digits_value (s : string) : option Z :=
  fold_left (fun acc c =>
               match acc with
               | Some a => if is_digit c
                           then Some (10 * a + (Z.of_nat (nat_of_ascii c) - 48))%Z
                           else None
               | None => None
               end)
            (list_ascii_of_string s) (Some 0%Z).

(** An optional sign in front of a numeral: the sign and the rest. *)
Definition split_sign (s : string) : bool * string :=
  match s with
  | String "-" r => (true, r)
  | String "+" r => (false, r)
  | _ => (false, s)
  end.

(** An optional sign and at least one decimal digit. *)
Definition plain_int (s : string) : option Z :=
  let (neg, body) := split_sign s in
  if String.eqb body "" then None
  else (fun v => if neg then (- v)%Z else v) <$> digits_value body.

(** [s.lstrip()], [s.rstrip()] and [s.strip()]. *)
Fixpoint lstrip (s : string) : string :=
  match s with
  | String c r => if is_space c then lstrip r else s
  | EmptyString => s
  end.

Fixpoint rstrip (s : string) : string :=
  match s with
  | String c r =>
    let r' := rstrip r in
    if is_space c && String.eqb r' "" then "" else String c r'
  | EmptyString => s
  end.

Definition strip (s : string) : string := rstrip (lstrip s).

(** The underscores of a numeric literal, as [int] and [float] treat them:
    each must stand between two digits; they are dropped before the text is
    read.  [prev] is the character before [s]; [None] is a ValueError. *)
Fixpoint remove_underscores_from (prev : ascii) (s : string) : option string :=
  match s with
  | EmptyString => if Ascii.eqb prev "_" then None else Some ""
  | String c r =>
    if Ascii.eqb c "_" then
      (if is_digit prev then remove_underscores_from c r else None)
    else if Ascii.eqb prev "_" && negb (is_digit c) then None
    else String c <$> remove_underscores_from c r
  end.

Definition remove_underscores (s : string) : option string :=
  remove_underscores_from "000" s.

(** [int(s)] in base ten: surrounding whitespace, an optional sign, digits
    with single underscores between them.  [None] is a ValueError.  (The
    bound on the number of digits of recent interpreters is left out.) *)
Definition int_of_string (s : string) : option Z :=
  s ← remove_underscores s;
  plain_int (strip s).

(** The text before and after the first ['.'] of [s]. *)
Fixpoint cut_at_dot (s : string) : string * option string :=
  match s with
  | EmptyString => ("", None)
  | String c s' =>
    if Ascii.eqb c "." then ("", Some s')
    else let (a, b) := cut_at_dot s' in (String c a, b)
  end.

(** The value of an unsigned numeral [digits], [digits.digits], [digits.]
    or [.digits]. *)
Definition unsigned_of_string (body : string) : option Q :=
  let (ip, fp) := cut_at_dot body in
  let fp := default "" fp in
  if String.eqb ip "" && String.eqb fp "" then None
  else
    match digits_value ip, digits_value fp with
    | Some i, Some f =>
      Some ((i * 10 ^ Z.of_nat (String.length fp) + f)
              # Pos.of_nat (10 ^ String.length fp))%Q
    | _, _ => None
    end.

(** The text before and after the first [e] or [E] of [s]. *)
Fixpoint cut_at_exponent (s : string) : string * option string :=
  match s with
  | EmptyString => ("", None)
  | String c s' =>
    if Ascii.eqb c "e" || Ascii.eqb c "E" then ("", Some s')
    else let (a, b) := cut_at_exponent s' in (String c a, b)
  end.

(** [float(s)]: underscores between digits, surrounding whitespace, an
    optional sign, then [inf], [infinity] or [nan] in any case, or a decimal
    numeral with an optional exponent.  [None] is a ValueError.  The float
    read is the exact value of the numeral: as everywhere in this
    development, the rounding to binary64 (with its overflow and underflow)
    is left out. *)
Definition float_of_string (s : string) : option fval :=
  s ← remove_underscores s;
  let (neg, body) := split_sign (strip s) in
  let word := lower body in
  if String.eqb word "inf" || String.eqb word "infinity" then
    Some (if neg then NInf else PInf)
  else if String.eqb word "nan" then Some NaN
  else
    let (mantissa, exponent) := cut_at_exponent body in
    m ← unsigned_of_string mantissa;
    let m := (if neg then - m else m)%Q in
    match exponent with
    | None => Some (Fin (Qred m))
    | Some t => e ← plain_int t; Some (Fin (Qred (m * 10 ^ e)))
    end.

(** Rounding to the nearest integer, ties to even (how [format] rounds
    the exact value of a float). *)
Definition round_half_even (q : Q) : Z :=
  let f := Qfloor q in
  match Qcompare (q - inject_Z f) (1 # 2) with
  | Lt => f
  | Gt => (f + 1)%Z
  | Eq => if Z.even f then f else (f + 1)%Z
  end.

Definition digit_char (d : Z) : ascii := ascii_of_nat (48 + Z.to_nat d).

(** The last [k] decimal digits of [n], zero padded. *)
Fixpoint fixed_digits (k : nat) (n : Z) : string :=
  match k with
  | O => ""
  | S k' => fixed_digits k' (n / 10) ++ String (digit_char (n mod 10)) ""
  end.

Fixpoint strip_zeros (s : string) : string :=
  match s with
  | String c r =>
    if Ascii.eqb c "0" && negb (String.eqb r "") then strip_zeros r else s
  | EmptyString => s
  end.

(** The decimal numeral of a natural number, without leading zeros. *)
Definition decimal (n : Z) : string :=
  strip_zeros (fixed_digits (S (Z.to_nat (Z.log2 n))) n).

(** [f"{q:.<d>f}"] *)
Definition format_fixed (d : nat) (q : Q) : string :=
  let n := Z.abs (round_half_even (q * inject_Z (10 ^ Z.of_nat d))) in
  let p := (10 ^ Z.of_nat d)%Z in
  (if Qlt_le_dec q 0 then "-" else "")
    ++ decimal (n / p) ++ (if Nat.eqb d 0 then "" else "." ++ fixed_digits d (n mod p)).

End Text.

(** ** CMEMS/CMEMStrans.py ([save_monthly_layer]) and
       CMEMS/CMEMS_ascRead&visualization.py ([ASCReader]) *)

Module Raster.
Import Float Text.

(** A 2-D array, row by row.  A file is the list of its lines. *)
Definition array := list (list fval).

Definition NODATA : Q := (-9999)%Q.

(** [np.where(np.isnan(data), -9999, data)] then
    [np.where(np.isinf(data), -9999, data)], cell by cell. *)
Definition mask_cell (v : fval) : Q :=
  match v with
  | Fin q => q
  | NaN | PInf | NInf => NODATA
  end.

(** [f"{val:.4f}" if val != -9999 else "-9999"] *)
Definition format_cell (val : Q) : string :=
  if Qeq_bool val NODATA then "-9999" else format_fixed 4 val.

Definition qmin (l : list Q) : option Q :=
  match l with
  | [] => None
  | x :: l' => Some (foldr Qmin x l')
  end.

(** [lats[0] < lats[-1]] for a vector of more than one latitude. *)
Definition ascending (lats : list Q) : bool :=
  match lats, last lats with
  | y0 :: _ :: _, Some yn => if Qlt_le_dec y0 yn then true else false
  | _, _ => false
  end.

(** [abs(lons[1] - lons[0]) if len(lons) > 1 else 0.083] *)
Definition cellsize_of (lons : list Q) : Q :=
  match lons with
  | x0 :: x1 :: _ => Qabs (x1 - x0)
  | _ => (83 # 1000)%Q
  end.

(** The lines [save_monthly_layer] writes; [None] when [lons.min()] or
    [lats.min()] raises on an empty vector. *)
Definition save_monthly_layer (data : array) (lons lats : list Q)
    : option (list string) :=
  let data := map (map mask_cell) data in
  let flip := ascending lats in
  let lats := if flip then reverse lats else lats in
  let data := if flip then reverse data else data in
  xllcorner ← qmin lons;
  yllcorner ← qmin lats;
  Some (app [ "ncols " ++ decimal (Z.of_nat (length lons));
              "nrows " ++ decimal (Z.of_nat (length lats));
              "xllcorner " ++ format_fixed 6 xllcorner;
              "yllcorner " ++ format_fixed 6 yllcorner;
              "cellsize " ++ format_fixed 6 (cellsize_of lons);
              "NODATA_value -9999" ]
             (map (fun row => join (map format_cell row)) data)).

(** One header line: nothing for a blank line, otherwise the lower-cased
    key and its value; [None] when the line has a single field
    (IndexError) or the value does not parse (ValueError).  A value with a
    point is read by [float]; that is a finite number, [inf] and [nan]
    having no point. *)
Definition header_entry (line : string) : option (option (string * Q)) :=
  match split line with
  | [] => Some None
  | [_] => None
  | key :: value :: _ =>
    v ← (if has_dot value then float_of_string value ≫= finite_value
         else inject_Z <$> int_of_string value);
    Some (Some (lower key, v))
  end.

(** The loop over the six header lines, filling the [header] dict. *)
Fixpoint read_header (n : nat) (lines : list string) (header : gmap string Q)
    : option (gmap string Q) :=
  match n with
  | O => Some header
  | S n' =>
    match lines with
    | [] => None
    | line :: rest =>
      e ← header_entry line;
      read_header n' rest (match e with
                           | Some (k, v) => <[k := v]> header
                           | None => header
                           end)
    end
  end.

(** The loop over the data lines: blank lines are skipped. *)
Definition read_rows (data_lines : list string) : option array :=
  mapM (fun line => mapM float_of_string (split line))
       (filter (fun line => split line <> []) data_lines).

(** [np.array(data)]: the rows must have one length. *)
Definition rectangular {A} (rows : list (list A)) : bool :=
  match rows with
  | [] => true
  | r :: rest => forallb (fun r' => Nat.eqb (length r') (length r)) rest
  end.

(** [self.data[self.data == nodata_value] = np.nan]: NaN and the
    infinities equal no header value. *)
Definition unmask_cell (nodata_value : Q) (v : fval) : fval :=
  match v with
  | Fin x => if Qeq_bool x nodata_value then NaN else Fin x
  | other => other
  end.

(** [ASCReader.read_asc_file]: the header and the array, or [None] where
    the method catches an exception and returns [False]. *)
Definition read_asc_file (lines : list string) : option (gmap string Q * array) :=
  header ← read_header 6 lines ∅;
  rows ← read_rows (drop 6 lines);
  if rectangular rows then
    let nodata_value := default NODATA (header !! "nodata_value") in
    Some (header, map (map (unmask_cell nodata_value)) rows)
  else None.

(** The finite cells of an array: the numbers among the cells that
    [np.nanmin], [np.nanmax] and [np.nanmean] range over in
    [_display_file_info]. *)
Definition valid_cells (data : array) : list Q :=
  omap (fun v => match v with Fin q => Some q | _ => None end) (concat data).

(** [np.fmin] and [np.fmax]: the lesser and the greater of two cells, a
    NaN giving way to the other cell. *)
Definition fmin (a b : fval) : fval :=
  match a, b with
  | NaN, v | v, NaN => v
  | NInf, _ | _, NInf => NInf
  | PInf, v | v, PInf => v
  | Fin x, Fin y => Fin (Qmin x y)
  end.

Definition fmax (a b : fval) : fval :=
  match a, b with
  | NaN, v | v, NaN => v
  | PInf, _ | _, PInf => PInf
  | NInf, v | v, NInf => v
  | Fin x, Fin y => Fin (Qmax x y)
  end.

(** [np.nanmin(data)] and [np.nanmax(data)]: [None] is the ValueError on an
    array without cells; an array of NaNs gives NaN. *)
Definition nanmin (data : array) : option fval :=
  match concat data with
  | [] => None
  | v :: l => Some (foldr fmin v l)
  end.

Definition nanmax (data : array) : option fval :=
  match concat data with
  | [] => None
  | v :: l => Some (foldr fmax v l)
  end.

(** [np.nanmean(data)]: the sum of the cells that are not NaN over their
    number; NaN when there is none, or when infinities of both signs meet. *)
Definition nanmean (data : array) : fval :=
  let cells := concat data in
  let pinf := existsb (fun v => match v with PInf => true | _ => false end) cells in
  let ninf := existsb (fun v => match v with NInf => true | _ => false end) cells in
  if pinf then (if ninf then NaN else PInf)
  else if ninf then NInf
  else
    match valid_cells data with
    | [] => NaN
    | l => Fin (Frame.qsum l / inject_Z (Z.of_nat (length l)))%Q
    end.

End Raster.

(** ** CMEMS/CMEMS_Maxent.py ([CorrectedHabitatAnalyzer]) *)

Module Maxent.
Local Open Scope R_scope.

(** A 2-D float array, row by row ([lat_mesh], [lon_mesh], the
    suitability grids). *)
Definition grid := list (list R).

(** *** Array helpers (numpy) *)

Definition rsum (l : list R) : R := foldr Rplus 0 l.

Definition np_mean (l : list R) : R := rsum l / INR (length l).

(** [np.std]: the population standard deviation. *)
Definition np_std (l : list R) : R :=
  sqrt (np_mean (map (fun x => (x - np_mean l) ^ 2) l)).

(** [Series.std()]: the sample standard deviation (ddof = 1). *)
Definition series_std (l : list R) : R :=
  sqrt (rsum (map (fun x => (x - np_mean l) ^ 2) l) / (INR (length l) - 1)).

(** [.min()] and [.max()]; [None] on an empty array (ValueError). *)
Definition rmin (l : list R) : option R :=
  match l with [] => None | x :: l' => Some (foldr Rmin x l') end.

Definition rmax (l : list R) : option R :=
  match l with [] => None | x :: l' => Some (foldr Rmax x l') end.

(** [a.ravel()], [a.max()] and [flat.reshape(a.shape)] on grids. *)
Definition ravel {A} (a : list (list A)) : list A := concat a.

Definition grid_max (a : grid) : option R := rmax (ravel a).

Definition ncols {A} (a : list (list A)) : nat :=
  match a with [] => O | row :: _ => length row end.

Fixpoint chunks {A} (nrows ncols : nat) (flat : list A) : list (list A) :=
  match nrows with
  | O => []
  | S n => take ncols flat :: chunks n ncols (drop ncols flat)
  end.

Definition reshape_like {A B} (a : list (list A)) (flat : list B) : list (list B) :=
  chunks (length a) (ncols a) flat.

(** *** Arrays that may hold NaN

    The density term divides by a bandwidth that can be zero and the
    combination takes a square root: their cells are numbers or NaN
    ([None]). *)
Definition xgrid := list (list (option R)).

(** A grid of numbers, seen as such an array. *)
Definition finite (a : grid) : xgrid := map (map Some) a.

(** The numbers of a list of cells, when none of them is NaN; and
    [np.sum] of cells: NaN as soon as one of them is NaN. *)
Definition all_numbers (l : list (option R)) : option (list R) :=
  mapM (fun x : option R => x) l.

Definition nan_sum (l : list (option R)) : option R := rsum <$> all_numbers l.

(** [a.max()] and [np.max(a)]: [None] on an array without cells
    (ValueError), NaN as soon as one cell is NaN. *)
Definition xgrid_max (a : xgrid) : option (option R) :=
  match ravel a with
  | [] => None
  | cells => Some (all_numbers cells ≫= rmax)
  end.

(** [np.sqrt]: NaN below zero. *)
Definition np_sqrt (x : R) : option R :=
  if Rlt_dec x 0 then None else Some (sqrt x).

(** Cell-wise operations: [f(a)], [a * b], [np.ones_like(a)]. *)
Definition grid_map (f : R -> R) (a : grid) : grid := map (map f) a.

Definition grid_mul (a b : grid) : grid := zip_with (zip_with Rmult) a b.

Definition ones_like (a : grid) : grid := grid_map (fun _ => 1) a.

(** [np.meshgrid(lon_grid, lat_grid)] *)
Definition meshgrid (lon_grid lat_grid : list R) : grid * grid :=
  (map (fun _ => lon_grid) lat_grid,
   map (fun lat => map (fun _ => lat) lon_grid) lat_grid).

(** [np.ceil] to an integer, and [np.arange(start, stop, step)]. *)
Definition np_ceil (x : R) : Z := (1 - up (- x))%Z.

Definition arange (start stop step : R) : list R :=
  map (fun i => start + INR i * step)
      (seq 0 (Z.to_nat (np_ceil ((stop - start) / step)))).

(** *** The observation table *)

Record raw_observation : Type := mk_raw {
  raw_Species : option string;
  raw_LAT : option R;
  raw_LONG : option R;
  raw_Counts : option R;
  raw_env : string -> option R
}.

(** A row that survived [dropna(subset=['LAT', 'LONG', 'Species'])]. *)
Record observation : Type := mk_observation {
  Species : string;
  LAT : R;
  LONG : R;
  Counts : option R;
  env : string -> option R
}.

Definition dropna (r : raw_observation) : option observation :=
  sp ← raw_Species r; la ← raw_LAT r; lo ← raw_LONG r;
  Some (mk_observation sp la lo (raw_Counts r) (raw_env r)).

(** Per-covariate summary of one species. *)
Record EnvStat : Type := mk_stat {
  stat_mean : R;
  stat_std : R;
  stat_min : R;
  stat_max : R;
  stat_q25 : R;
  stat_q75 : R
}.

Record SpeciesInfo : Type := mk_info {
  info_data : list observation;
  info_count : nat;
  info_env_stats : gmap string EnvStat;
  info_lat_range : R * R;
  info_lon_range : R * R
}.

Record HabitatResult : Type := mk_result {
  res_lat_grid : list R;
  res_lon_grid : list R;
  res_suitability : xgrid;
  res_lat_mesh : grid;
  res_lon_mesh : grid;
  res_observations : list (R * R * option R)
}.

Definition env_vars : list string :=
  ["TempW"; "Salinity"; "Detph"; "pH"; "CHL"; "O2Con"]%string.

Definition min_observations : nat := 15.

Section Analyzer.
(** [Series.quantile(q)] of pandas. *)
Variable quantile : R -> list R -> R.
(** The module flag set by the [try: from scipy ... import] block, and
    [scipy.ndimage.gaussian_filter(_, sigma=1.0)]. *)
Variable SCIPY_AVAILABLE : bool.
Variable gaussian_filter : xgrid -> xgrid.

(** [_calculate_environmental_stats(species_data)], for a table with
    the given columns. *)
Definition _calculate_environmental_stats (columns : list string)
    (species_data : list observation) : gmap string EnvStat :=
  fold_left
    (fun env_stats var =>
       if bool_decide (var ∈ columns) then
         let values := omap (fun r => env r var) species_data in
         if (5 <? length values)%nat then
           <[var := mk_stat (np_mean values) (series_std values)
                            (default 0 (rmin values)) (default 0 (rmax values))
                            (quantile (1/4) values) (quantile (3/4) values)]> env_stats
         else env_stats
       else env_stats)
    env_vars ∅.

(** [data['Species'].value_counts()] read at one species. *)
Definition species_count (data : list observation) (species : string) : nat :=
  length (filter (fun r => Species r = species) data).

(** The species kept by [species_counts >= min_observations], most
    observed first. *)
Definition valid_species (data : list observation) : list string :=
  Frame.sort_by (fun a b => (species_count data b <=? species_count data a)%nat)
    (filter (fun s => (min_observations <= species_count data s)%nat)
            (remove_dups (map Species data))).

(** [_analyze_by_species]: the [species_data] dict, in insertion order. *)
Definition _analyze_by_species (columns : list string) (data : list observation)
    : list (string * SpeciesInfo) :=
  map (fun species =>
         let species_data := filter (fun r => Species r = species) data in
         (species,
          mk_info species_data (length species_data)
            (_calculate_environmental_stats columns species_data)
            (default 0 (rmin (map LAT species_data)),
             default 0 (rmax (map LAT species_data)))
            (default 0 (rmin (map LONG species_data)),
             default 0 (rmax (map LONG species_data)))))
      (valid_species data).

(** [load_and_analyze_data] after the file has been read. *)
Definition load_and_analyze_data (columns : list string)
    (rows : list raw_observation) : list (string * SpeciesInfo) :=
  _analyze_by_species columns (omap dropna rows).

(** [_calculate_density_suitability] *)
Definition distance (lat1 lon1 lat2 lon2 : R) : R :=
  sqrt ((lat2 - lat1) ^ 2 + (lon2 - lon1) ^ 2).

(** [cdist(grid_points, points)]: one row of distances per grid point. *)
Definition cdist (grid_points points : list (R * R)) : list (list R) :=
  map (fun g => map (fun p => sqrt ((fst g - fst p) ^ 2 + (snd g - snd p) ^ 2)) points)
      grid_points.

(** [np.std(distances) * 0.3].  (Without any distance numpy's std is NaN,
    which no weight then uses.) *)
Definition bandwidth (distances : list (list R)) : R :=
  np_std (concat distances) * (3 / 10).

(** [np.exp(-0.5 * (d / bandwidth) ** 2)] for one distance.  numpy does
    not raise on a zero bandwidth: a distance other than zero gives an
    infinite quotient and the weight [exp(-inf) = 0], the distance zero gives
    the quotient NaN and the weight NaN. *)
Definition gaussian_weight (bandwidth d : R) : option R :=
  if Req_EM_T bandwidth 0 then
    (if Req_EM_T d 0 then None else Some 0)
  else Some (exp (- (1 / 2) * (d / bandwidth) ^ 2)).

Definition kernel_density (obs_lats obs_lons obs_counts : list R)
    (lat_mesh lon_mesh : grid) : xgrid :=
  let points := zip obs_lons obs_lats in
  let grid_points := zip (ravel lon_mesh) (ravel lat_mesh) in
  let distances := cdist grid_points points in
  let bw := bandwidth distances in
  let weights := map (map (gaussian_weight bw)) distances in
  let weighted_density :=
    map (fun w => nan_sum (zip_with (fun w c => (fun w => w * c) <$> w) w obs_counts))
        weights in
  reshape_like lat_mesh weighted_density.

Definition inverse_distance_density (obs_lats obs_lons obs_counts : list R)
    (lat_mesh lon_mesh : grid) : grid :=
  zip_with
    (zip_with
       (fun lat lon =>
          let distances :=
            zip_with (fun la lo => sqrt ((la - lat) ^ 2 + (lo - lon) ^ 2))
                     obs_lats obs_lons in
          let weights := map (fun d => 1 / (d + 1 / 100)) distances in
          rsum (zip_with Rmult weights obs_counts)))
    lat_mesh lon_mesh.

Definition _calculate_density_suitability (obs_lats obs_lons obs_counts : list R)
    (lat_mesh lon_mesh : grid) : xgrid :=
  let density_grid :=
    if SCIPY_AVAILABLE
    then kernel_density obs_lats obs_lons obs_counts lat_mesh lon_mesh
    else finite (inverse_distance_density obs_lats obs_lons obs_counts lat_mesh lon_mesh) in
  if SCIPY_AVAILABLE then gaussian_filter density_grid else density_grid.

(** [_calculate_environmental_suitability] *)
Definition _calculate_environmental_suitability (species_data : list observation)
    (env_stats : gmap string EnvStat) (lat_mesh lon_mesh : grid) : grid :=
  if (size env_stats <? 2)%nat then grid_map (fun x => x * (1 / 2)) (ones_like lat_mesh)
  else
    let env_suitability := ones_like lat_mesh in
    let env_suitability :=
      match env_stats !! "TempW"%string with
      | Some st =>
        let temp_optimal := stat_mean st in
        let temp_tolerance := stat_std st in
        let estimated_temp := grid_map (fun lat => -2 + (lat + 80) * (1 / 2)) lat_mesh in
        let temp_suitability :=
          grid_map (fun t => exp (- (1 / 2)
                                  * ((t - temp_optimal) / (temp_tolerance + 1 / 10)) ^ 2))
                   estimated_temp in
        grid_mul env_suitability temp_suitability
      | None => env_suitability
      end in
    let env_suitability :=
      match env_stats !! "Detph"%string with
      | Some st =>
        let depth_optimal := stat_mean st in
        let depth_tolerance := stat_std st in
        let estimated_depth := grid_map (fun lat => 200 + Rabs (lat + 77) * 100) lat_mesh in
        let depth_suitability :=
          grid_map (fun d => exp (- (1 / 2)
                                  * ((d - depth_optimal) / (depth_tolerance + 50)) ^ 2))
                   estimated_depth in
        grid_mul env_suitability depth_suitability
      | None => env_suitability
      end in
    env_suitability.

(** The combined grid before rescaling:
    [np.sqrt(suitability_density * suitability_env)], cell by cell. *)
Definition combined_suitability (species_data : list observation)
    (env_stats : gmap string EnvStat) (lat_mesh lon_mesh : grid) : xgrid :=
  let obs_lats := map LAT species_data in
  let obs_lons := map LONG species_data in
  let obs_counts := map (fun r => default 1 (Counts r)) species_data in
  let suitability_density :=
    _calculate_density_suitability obs_lats obs_lons obs_counts lat_mesh lon_mesh in
  let suitability_env :=
    _calculate_environmental_suitability species_data env_stats lat_mesh lon_mesh in
  zip_with (zip_with (fun d e => d ≫= fun d => np_sqrt (d * e)))
           suitability_density suitability_env.

(** [_calculate_habitat_suitability]; [None] when [.max()] raises on a
    grid without cells.  A NaN maximum fails the test [> 0], and the grid is
    returned as it is. *)
Definition _calculate_habitat_suitability (species_data : list observation)
    (env_stats : gmap string EnvStat) (lat_mesh lon_mesh : grid) : option xgrid :=
  let combined := combined_suitability species_data env_stats lat_mesh lon_mesh in
  m ← xgrid_max combined;
  Some (match m with
        | Some m =>
          if Rlt_dec 0 m then map (map (fmap (fun x => x / m))) combined else combined
        | None => combined
        end).

(** One iteration of the loop of [generate_species_suitability_maps]. *)
Definition species_map (resolution : R) (species_info : SpeciesInfo)
    : option HabitatResult :=
  let '(lat_min, lat_max) := info_lat_range species_info in
  let '(lon_min, lon_max) := info_lon_range species_info in
  let lat_margin := (lat_max - lat_min) * (15 / 100) in
  let lon_margin := (lon_max - lon_min) * (15 / 100) in
  let lat_grid := arange (lat_min - lat_margin) (lat_max + lat_margin) resolution in
  let lon_grid := arange (lon_min - lon_margin) (lon_max + lon_margin) resolution in
  let '(lon_mesh, lat_mesh) := meshgrid lon_grid lat_grid in
  suitability ← _calculate_habitat_suitability (info_data species_info)
                   (info_env_stats species_info) lat_mesh lon_mesh;
  Some (mk_result lat_grid lon_grid suitability lat_mesh lon_mesh
          (map (fun r => (LAT r, LONG r, Counts r)) (info_data species_info))).

(** [generate_species_suitability_maps]: the [habitat_suitability] dict
    after the loop, and whether the loop ran to its end (an exception
    leaves the entries written so far). *)
Definition generate_species_suitability_maps (resolution : R)
    (species_data : list (string * SpeciesInfo))
    : list (string * HabitatResult) * bool :=
  fold_left
    (fun (st : list (string * HabitatResult) * bool) (entry : string * SpeciesInfo) =>
       if snd st then
         match species_map resolution (snd entry) with
         | Some r => (app (fst st) [(fst entry, r)], true)
         | None => (fst st, false)
         end
       else st)
    species_data ([], true).

End Analyzer.

End Maxent.

(** ** BaseAnalysis/物种丰富度_全年.py *)

Module YearRichness.
Import RegionRichness.

(** [filtered_data['Species'].nunique()] over the whole table. *)
Definition species_richness_year_all (data : list obs) : nat :=
  nunique (filter (fun r => count_positive r = true) data).

End YearRichness.

(** ** BaseAnalysis/物种丰富度_子区域月度.py *)

Module RegionMonthly.
Import RegionRichness Dates.

(** The body of the loop of this script's [region_sort_key]: here the
    characters that are not digits are all kept ([letter += char]). *)
Definition key_step (st : string * string) (char : ascii) : string * string :=
  if isdigit char then (fst st ++ String char "", snd st)
  else (fst st, snd st ++ String char "").

Definition region_sort_key (region : string) : Z * string :=
  let st := fold_left key_step (list_ascii_of_string region) ("", "") in
  (if String.eqb (fst st) "" then 0%Z else int_of_digits (fst st), snd st).

(** A row of the result: Region, Date (a month of 2023), Species_Richness. *)
Record richness_row : Type := mk_row {
  Region : string;
  Date : nat;
  Species_Richness : nat
}.

Definition group_leb (a b : string * nat) : bool :=
  if decide (fst a = fst b) then (snd a <=? snd b)%nat else String.leb (fst a) (fst b).

(** Python's ordering of the pairs ([Sort_Region], [Date]). *)
Definition row_leb (a b : richness_row) : bool :=
  if decide (region_sort_key (Region a) = region_sort_key (Region b))
  then (Date a <=? Date b)%nat
  else key_leb (region_sort_key (Region a)) (region_sort_key (Region b)).

Section WithParser.
(** [pd.to_datetime('2023-' + s, format='%Y-%d-%b')] on one day-month
    text: [None] when the text does not match the format. *)
Variable strptime : string -> option timestamp.

(** The grouping key of a dated row: its region and its month; a row
    missing either is left out by [groupby]. *)
Definition region_month (r : option timestamp * obs) : option (string * nat) :=
  g ← RegionRichness.Region (snd r); m ← Monthly.month_of r; Some (g, m).

(** The table written to S39_BM_RegionMonthly.csv; [None] when a date does
    not parse. *)
Definition species_richness_by_region_month (data : list obs)
    : option (list richness_row) :=
  let filtered_data := filter (fun r => count_positive r = true) data in
  rows ← Monthly.dated strptime filtered_data;
  Some (Frame.sort_by row_leb
          (map (fun g => mk_row (fst (fst g)) (snd (fst g)) (nunique (map snd (snd g))))
               (Frame.groupby group_leb region_month rows))).

End WithParser.

(** The text of a month period in the CSV, as in "2023-01". *)
Definition period_text (m : nat) : string :=
  "2023-" ++ Text.fixed_digits 2 (Z.of_nat m).

(** A row of S39_BM_RegionMonthly.csv as the next script reads it back. *)
Definition csv_row (r : richness_row) : RegionRate.richness_row :=
  RegionRate.mk_richness_row (Some (Region r)) (Some (period_text (Date r)))
    (Some (inject_Z (Z.of_nat (Species_Richness r)))).

End RegionMonthly.

(** ** CMEMS/CMEMStrans.py ([MonthlyLayersConverter]) *)

Module MonthlyLayers.
Local Open Scope Z_scope.

(** The [depth_layers] argument: ['surface'], ['all'], a list of indices,
    or anything else. *)
Inductive depth_setting : Type :=
| surface
| all
| layers (l : list Z)
| other.

(** [list(range(n))] *)
Definition range (n : Z) : list Z := map Z.of_nat (seq 0 (Z.to_nat n)).

(** [a[i]] on a sequence: a negative index counts from the end, [None] is
    an IndexError. *)
Definition index {A} (a : list A) (i : Z) : option A :=
  if 0 <=? i then a !! Z.to_nat i
  else if - Z.of_nat (length a) <=? i then a !! Z.to_nat (Z.of_nat (length a) + i)
  else None.

(** The [depth_indices] chosen in [convert_all_monthly_layers] for a
    variable with a recognised depth axis. *)
Definition select_depth_indices (depth_layers : depth_setting) (depth_values : list Q)
    (max_depth_layers : Z) : list Z :=
  match depth_layers with
  | surface => [0]
  | all => range (Z.min (Z.of_nat (length depth_values)) max_depth_layers)
  | layers l => filter (fun i => i < Z.of_nat (length depth_values)) l
  | other => [0]
  end.

(** The selection followed by the loop that prints [depth_values[i]] for
    [depth_indices[:5]], outside any [try]: [None] is its IndexError. *)
Definition depth_indices (depth_layers : depth_setting) (depth_values : list Q)
    (max_depth_layers : Z) : option (list (option Z)) :=
  let depth_indices := select_depth_indices depth_layers depth_values max_depth_layers in
  _ ← mapM (index depth_values) (take 5 depth_indices);
  Some (map Some depth_indices).

Definition depth_names : list string :=
  ["depth"; "lev"; "deptht"; "depthu"; "depthv"; "z"]%string.

Definition recommended : list string :=
  ["thetao"; "so"; "uo"; "vo"; "zos"; "mlotst"; "bottomT"; "sob"]%string.

(** The variables converted: the argument, or the recommended ones the
    file has, or the first eight of the file. *)
Definition choose_variables (variables : option (list string))
    (available_vars : list string) : list string :=
  match variables with
  | Some vs => vs
  | None =>
    match filter (fun v => v ∈ available_vars) recommended with
    | [] => take 8 available_vars
    | vs => vs
    end
  end.

(** *** [get_monthly_data]: the shape of the extracted layer *)

(** An entry of the index tuple: an integer index or [slice(None)]. *)
Inductive slice_item : Type :=
| at_index (i : nat)
| whole.

(** The [slices] built from the dimensions of the variable. *)
Definition build_slices (time_var_name : string) (dims : list string)
    (time_idx : nat) (depth_idx : option nat) : list slice_item :=
  map (fun dim_name =>
         if String.eqb dim_name time_var_name then at_index time_idx
         else if bool_decide (dim_name ∈ depth_names) then
           match depth_idx with
           | Some d => at_index d
           | None => whole
           end
         else whole)
      dims.

(** The shape of [var[tuple(slices)]] for a variable of the given shape: an
    indexed axis disappears, and an index beyond its axis is an IndexError
    ([None]). *)
Fixpoint sliced_shape (shape : list nat) (slices : list slice_item) : option (list nat) :=
  match shape, slices with
  | [], [] => Some []
  | n :: shape', at_index i :: slices' =>
    if (i <? n)%nat then sliced_shape shape' slices' else None
  | n :: shape', whole :: slices' => cons n <$> sliced_shape shape' slices'
  | _, _ => None
  end.

(** [while len(data.shape) > 2: if data.shape[0] == 1: data = data[0]
    else: break] *)
Fixpoint ensure_2d (shape : list nat) : list nat :=
  match shape with
  | [] => []
  | n :: rest =>
    if (2 <? length shape)%nat && (n =? 1)%nat then ensure_2d rest else shape
  end.

(** What a call of [get_monthly_data] on a variable of the file does: an
    exception leaves the method, or it returns [(None, None, None)], or it
    returns the data, of which the shape is kept. *)
Inductive extraction : Type :=
| raised
| no_data
| layer (shape : list nat).

(** [get_monthly_data] for a variable with the given dimensions and shape,
    [n_time_info] being [len(self.time_info)].  The [print] of
    [self.time_info[time_idx]['month_name']] comes before the [try]: its
    IndexError leaves the method.  The indexing of the variable is inside
    the [try]: its IndexError makes the method return [None]s. *)
Definition get_monthly_data (time_var_name : string) (n_time_info : nat)
    (dims : list string) (shape : list nat) (time_idx : nat) (depth_idx : option nat)
    : extraction :=
  if (time_idx <? n_time_info)%nat then
    match sliced_shape shape (build_slices time_var_name dims time_idx depth_idx) with
    | Some data_shape => layer (ensure_2d data_shape)
    | None => no_data
    end
  else raised.

(** *** [save_monthly_layer]: the name of the file *)

(** [f"{i}"] for an integer. *)
Definition int_text (i : Z) : string :=
  if i <? 0 then "-" ++ Text.decimal (- i) else Text.decimal i.

Definition layer_filename (var_name date_str : string) (depth_idx : option Z)
    (depth_value : option Q) : string :=
  match depth_idx with
  | Some i =>
    match depth_value with
    | Some v =>
      var_name ++ "_" ++ date_str ++ "_d" ++ int_text i ++ "_"
        ++ Text.format_fixed 1 v ++ "m.asc"
    | None => var_name ++ "_" ++ date_str ++ "_d" ++ int_text i ++ ".asc"
    end
  | None => var_name ++ "_" ++ date_str ++ ".asc"
  end.

Section Converter.
(** The dataset as the method reads it: the time steps found by
    [analyze_time_dimension], the dimensions of each variable ([None] is the
    KeyError of [self.ds.variables[var_name]]), the depth axes found by
    [analyze_depth_dimension], and one pass through the body of the [try]
    (extraction and writing of one layer): [None] when no data came back or
    an exception was caught. *)
Variables time_step file : Type.
Variable time_info : list time_step.
Variable dimensions : string -> option (list string).
Variable depth_info : gmap string (list Q).
Variable save_layer : string -> time_step -> option Z -> option file.

Definition depth_indices_of (var_dims : list string) (depth_layers : depth_setting)
    (max_depth_layers : Z) : option (list (option Z)) :=
  let has_depth := existsb (fun depth_dim => bool_decide (depth_dim ∈ var_dims)) depth_names in
  if has_depth then
    match find (fun depth_name =>
                  bool_decide (depth_name ∈ var_dims)
                  && bool_decide (is_Some (depth_info !! depth_name))) depth_names with
    | Some depth_dim_name =>
      depth_indices depth_layers (default [] (depth_info !! depth_dim_name)) max_depth_layers
    | None => Some [None]
    end
  else Some [None].

(** The two inner loops for one variable: every time step with every depth
    index, in that order. *)
Definition operations (var_name : string) (depth_indices : list (option Z))
    : list (string * time_step * option Z) :=
  t ← time_info; d ← depth_indices; [(var_name, t, d)].

(** The counters after the loop over the variables:
    [(converted_files, total_operations, successful_operations)]; [None]
    when an exception leaves the loop. *)
Definition convert_loop (variables : list string) (depth_layers : depth_setting)
    (max_depth_layers : Z) : option (list file * nat * nat) :=
  foldl
    (fun st var_name =>
       '(converted_files, total_operations, successful_operations) ← st;
       var_dims ← dimensions var_name;
       depth_indices ← depth_indices_of var_dims depth_layers max_depth_layers;
       let ops := operations var_name depth_indices in
       let written := omap (fun op => save_layer (fst (fst op)) (snd (fst op)) (snd op)) ops in
       Some (app converted_files written,
             (total_operations + length ops)%nat,
             (successful_operations + length written)%nat))
    (Some ([], O, O)) variables.

(** The success rate written by [generate_monthly_report]; [None] is the
    ZeroDivisionError of [successful_ops / total_ops]. *)
Definition success_rate (total_ops successful_ops : nat) : option Q :=
  if (total_ops =? 0)%nat then None
  else Some (inject_Z (Z.of_nat successful_ops) / inject_Z (Z.of_nat total_ops) * 100)%Q.

(** [convert_all_monthly_layers] once the dataset is open: the files
    returned, with the rate the report shows. *)
Definition convert_all_monthly_layers (variables : list string)
    (depth_layers : depth_setting) (max_depth_layers : Z) : option (list file * Q) :=
  '(converted_files, total_operations, successful_operations) ←
     convert_loop variables depth_layers max_depth_layers;
  rate ← success_rate total_operations successful_operations;
  Some (converted_files, rate).

End Converter.

End MonthlyLayers.

(** ** CMEMS/CMEMS_Maxent.py: maps, statistics and export *)

Module MaxentMaps.
Import Maxent.
Local Open Scope R_scope.

(** [a[i, j]]; [None] is an IndexError. *)
Definition cell {A} (a : list (list A)) (i j : nat) : option A := row ← a !! i; row !! j.

(** [export_habitat_data]: the records of one species, in the order of
    the two [for] loops; [None] when an index is out of range. *)
Definition export_records (habitat_data : HabitatResult)
    : option (list (R * R * option R)) :=
  let lat_mesh := res_lat_mesh habitat_data in
  let lon_mesh := res_lon_mesh habitat_data in
  let suitability := res_suitability habitat_data in
  mapM (fun ij : nat * nat =>
          la ← cell lat_mesh (fst ij) (snd ij);
          lo ← cell lon_mesh (fst ij) (snd ij);
          s ← cell suitability (fst ij) (snd ij);
          Some (la, lo, s))
       (i ← seq 0 (length lat_mesh); j ← seq 0 (ncols lat_mesh); [(i, j)]).

(** [np.sum(mask)] for a mask given by a test on the cells; a comparison
    with NaN is false. *)
Definition count_cells (test : R -> bool) (a : xgrid) : nat :=
  length (filter (fun x => from_option test false x = true) (ravel a)).

Definition at_least (t x : R) : bool := if Rle_dec t x then true else false.

Definition below (t x : R) : bool := if Rlt_dec x t then true else false.

(** The numbers [_get_map_statistics] formats; the mean and the maximum
    are NaN ([None]) when a cell is. *)
Record map_statistics : Type := mk_statistics {
  obs_count : nat;
  mean_suit : option R;
  max_suit : option R;
  high_percent : R;
  mod_percent : R
}.

(** [_get_map_statistics]; [None] when [np.max] raises on a grid without
    cells. *)
Definition _get_map_statistics (habitat_data : HabitatResult) : option map_statistics :=
  let suitability := res_suitability habitat_data in
  let obs_count := length (res_observations habitat_data) in
  let high_suit := count_cells (at_least (7 / 10)) suitability in
  let mod_suit :=
    count_cells (fun x => at_least (4 / 10) x && below (7 / 10) x) suitability in
  let total_pixels := length (ravel suitability) in
  let mean_suit := np_mean <$> all_numbers (ravel suitability) in
  max_suit ← xgrid_max suitability;
  Some (mk_statistics obs_count mean_suit max_suit
          (INR high_suit / INR total_pixels * 100)
          (INR mod_suit / INR total_pixels * 100)).

(** [create_oceanographic_maps]: the species that get a map of their own,
    and the list handed to the comparison figure, if any. *)
Definition create_oceanographic_maps (species_list : option (list string))
    (habitat_suitability : list string) : list string * option (list string) :=
  let species_list :=
    match species_list with
    | None => take 6 habitat_suitability
    | Some l => l
    end in
  (filter (fun species_name => species_name ∈ habitat_suitability) species_list,
   if (1 <? length species_list)%nat then Some (take 4 species_list) else None).

(** The panels of [_create_species_comparison_map]: the number of rows,
    the panel (row, column) of each species, and the panels hidden. *)
Definition comparison_panels (species_list : list string)
    : nat * list (string * (nat * nat)) * list (nat * nat) :=
  let ncols := 2%nat in
  let nrows := ((length species_list + ncols - 1) / ncols)%nat in
  (nrows,
   imap (fun i species_name => (species_name, ((i / ncols)%nat, (i mod ncols)%nat)))
        species_list,
   map (fun i => ((i / ncols)%nat, (i mod ncols)%nat))
       (seq (length species_list) (nrows * ncols - length species_list))).

End MaxentMaps.

(** * Vocabulary of the statements

    Named notions the properties below are stated with: what the
    specification calls a token, a rounded value, a reproduced cell, a
    Gaussian score, the shape of a grid, and the concrete inputs used as
    examples. *)

Section TextVocabulary.
Import Float Text.

(** One step of [digits_value]. *)
Definition digits_step (acc : option Z) (c : ascii) : option Z :=
  match acc with
  | Some a => if is_digit c then Some (10 * a + (Z.of_nat (nat_of_ascii c) - 48))%Z else None
  | None => None
  end.

(** The characters of a string, as a predicate on each. *)
Definition all_chars (P : ascii -> bool) (s : string) : bool :=
  forallb P (list_ascii_of_string s).

(** A token: not empty and free of whitespace. *)
Definition token_ok (s : string) : Prop :=
  s <> "" /\ all_chars (fun c => negb (is_space c)) s = true.

(** The characters of an unsigned numeral without exponent. *)
Definition numeral_char (c : ascii) : bool := is_digit c || Ascii.eqb c ".".

(** The sign [format_fixed] writes in front of a numeral. *)
Definition sign_of (q : Q) : string := if Qlt_le_dec q 0 then "-" else "".

(** [q] rounded to [d] decimals, ties to even. *)
Definition round_to (d : nat) (q : Q) : Q :=
  Qred (round_half_even (q * inject_Z (10 ^ Z.of_nat d)) # Pos.of_nat (10 ^ d)).

End TextVocabulary.

Section RasterVocabulary.
Import Float Text Raster.

(** What a cell reads back as after it was written. *)
Definition roundtrip_cell (v : fval) : fval :=
  match v with
  | Fin q => if Qeq_bool (round_to 4 q) NODATA then NaN else Fin (round_to 4 q)
  | NaN | PInf | NInf => NaN
  end.

(** The array as the writer lays it out: north to south. *)
Definition north_to_south (data : array) (lats : list Q) : array :=
  if ascending lats then reverse data else data.

(** The value [float] reads from the token written for a masked cell. *)
Definition read_value (x : Q) : Q :=
  if Qeq_bool x NODATA then NODATA else round_to 4 x.

(** The round trip as the specification words it: a NaN or infinite cell
    reads back as NaN, a finite cell as a number within half a unit of
    the fourth decimal, each at its own position. *)
Definition cell_reproduced (v w : fval) : Prop :=
  match v with
  | Fin q => exists q', w = Fin q' /\ (q' - q <= 1 # 20000)%Q /\ (q - q' <= 1 # 20000)%Q
  | NaN | PInf | NInf => w = NaN
  end.

Definition reproduces (original read : array) : Prop :=
  Forall2 (Forall2 cell_reproduced) original read.

End RasterVocabulary.

Section TabularVocabulary.
Import RegionRichness Dates Float SpeciesShare.

(** The digits of a region code, in order, and its letter part: the last
    character that is not a digit. *)
Definition digits_of (region : string) : string :=
  string_of_list_ascii (List.filter isdigit (list_ascii_of_string region)).

Definition letter_part (region : string) : string :=
  match last (List.filter (fun c => negb (isdigit c)) (list_ascii_of_string region)) with
  | Some c => String c ""
  | None => ""
  end.

(** The parsed date of a row, when its text parses. *)
Definition parsed (strptime : string -> option timestamp) (r : obs)
    : option timestamp * obs :=
  (Date r ≫= strptime, r).

(** A parser that knows the first two days of January. *)
Definition january (s : string) : option timestamp :=
  if String.eqb s "01-Jan" then Some (mk_ts 1 1)
  else if String.eqb s "02-Jan" then Some (mk_ts 1 2)
  else None.

(** The CSV row written for a row of the grouped table. *)
Definition share_of (grouped : list count_row) (r : count_row) : share_row :=
  mk_share_row (cr_date r) (cr_species r) (cr_count r)
    (scale 100 (np_div (cr_count r) (monthly_total_count grouped (cr_date r)))).

(** The guard as the specification words it: no row is written for a date
    whose total is zero, and every written share is a finite number. *)
Definition division_guarded (strptime : string -> option timestamp)
    (data : list obs) : Prop :=
  forall rows, species_ratio_monthly strptime data = Some rows ->
  forall r, r ∈ rows ->
    ~ monthly_total_count (monthly_species_count strptime data) (sr_date r) == 0%Q
    /\ is_finite (sr_percentage r) = true.

End TabularVocabulary.

Section MaxentVocabulary.
Import Maxent.
Local Open Scope R_scope.

(** The Gaussian falloff of a covariate value around the species' mean, the
    tolerance being the species' std plus a floor. *)
Definition gaussian_score (x mean std floor : R) : R :=
  exp (- (1 / 2) * ((x - mean) / (std + floor)) ^ 2).

(** The covariates for which the code has a latitude proxy, each with its
    proxy and the floor added to the std. *)
Definition latitude_proxies : list (string * (R -> R) * R) :=
  [("TempW"%string, fun lat => -2 + (lat + 80) * (1 / 2), 1 / 10);
   ("Detph"%string, fun lat => 200 + Rabs (lat + 77) * 100, 50)].

Definition covariate_score (env_stats : gmap string EnvStat) (lat : R)
    (c : string * (R -> R) * R) : R :=
  match env_stats !! fst (fst c) with
  | Some st => gaussian_score (snd (fst c) lat) (stat_mean st) (stat_std st) (snd c)
  | None => 1
  end.

(** The product of the scores of the given covariates at one latitude. *)
Definition score_product (covariates : list (string * (R -> R) * R))
    (env_stats : gmap string EnvStat) (lat : R) : R :=
  foldr Rmult 1 (map (covariate_score env_stats lat) covariates).

(** The non-missing samples of a covariate, and the entry the code stores
    for them. *)
Definition samples (species_data : list observation) (var : string) : list R :=
  omap (fun r => env r var) species_data.

Definition summary (quantile : R -> list R -> R) (values : list R) : EnvStat :=
  mk_stat (np_mean values) (series_std values)
          (default 0 (rmin values)) (default 0 (rmax values))
          (quantile (1 / 4) values) (quantile (3 / 4) values).

Definition usable (columns : list string) (species_data : list observation)
    (var : string) : Prop :=
  var ∈ columns /\ (6 <= length (samples species_data var))%nat.

(** Every cell of a grid satisfies [P]. *)
Definition grid_all (P : R -> Prop) (a : grid) : Prop := Forall (Forall P) a.

(** A grid of [r] rows of [c] cells. *)
Definition has_shape {A} (r c : nat) (a : list (list A)) : Prop :=
  length a = r /\ Forall (fun row => length row = c) a.

(** The coordinate vectors of the prediction grid of one species, as
    [generate_species_suitability_maps] lays them out: latitudes, then
    longitudes. *)
Definition prediction_grid (resolution : R) (species_info : SpeciesInfo)
    : list R * list R :=
  let '(lat_min, lat_max) := info_lat_range species_info in
  let '(lon_min, lon_max) := info_lon_range species_info in
  let lat_margin := (lat_max - lat_min) * (15 / 100) in
  let lon_margin := (lon_max - lon_min) * (15 / 100) in
  (arange (lat_min - lat_margin) (lat_max + lat_margin) resolution,
   arange (lon_min - lon_margin) (lon_max + lon_margin) resolution).

(** The weight of a distance when it is a number. *)
Definition real_weight (bandwidth d : R) : R :=
  if Req_EM_T bandwidth 0 then 0 else exp (- (1 / 2) * (d / bandwidth) ^ 2).

(** Example inputs. *)
Definition flat_stat : EnvStat := mk_stat 34 1 33 35 (67 / 2) (69 / 2).

Definition salinity_and_pH : gmap string EnvStat :=
  <["Salinity"%string := flat_stat]> (<["pH"%string := flat_stat]> ∅).

Definition temperature_and_salinity : gmap string EnvStat :=
  <["TempW"%string := mk_stat (-1) (1 / 2) (-2) 0 (-3 / 2) (-1 / 2)]>
    (<["Salinity"%string := flat_stat]> ∅).

Definition one_sighting : list observation :=
  [mk_observation "Adelie"%string (-70) 170 (Some 3) (fun _ => None)].

(** Fourteen sightings at one place and one at another: a species that
    is analysed and whose prediction grid has cells. *)
Definition two_places : list observation :=
  app (replicate 14 (mk_observation "Adelie"%string (-70) 170 (Some 3) (fun _ => None)))
      [mk_observation "Adelie"%string (-69) 171 None (fun _ => None)].

Definition sighting (species : string) (temp : option R) : raw_observation :=
  mk_raw (Some species) (Some (-70)) (Some 170) (Some 1)
         (fun var => if String.eqb var "TempW" then temp else None).

(** Fifteen Adelie rows, six of them with a water temperature, and fourteen
    skua rows. *)
Definition survey : list raw_observation :=
  app (replicate 6 (sighting "Adelie" (Some (-1))))
      (app (replicate 9 (sighting "Adelie" None))
           (replicate 14 (sighting "Skua" (Some 0)))).

End MaxentVocabulary.

Section FurtherVocabulary.

(** The rows of a table of region richness that carry the date [d]. *)
Definition rows_of_date (table : list RegionRate.richness_row) (d : string)
    : list RegionRate.richness_row :=
  filter (fun r => RegionRate.Date r = Some d) table.

(** Whether the key of a row is one of [ks]. *)
Definition keyed_in {A K} `{EqDecision K} (key : A -> option K) (ks : list K) (r : A) : bool :=
  match key r with Some k => bool_decide (k ∈ ks) | None => false end.

(** The cell numpy writes for [x / t * k] when nothing guards the
    division: the finite quotient for a total that is not zero; for a zero
    total NaN when [x] is zero too, and the infinity of the sign of [x]
    otherwise. *)
Definition unguarded_quotient (x t k : Q) (v : Float.fval) : Prop :=
  (~ t == 0 -> exists q, v = Float.Fin q /\ q == x / t * k)%Q
  /\ (t == 0 -> x == 0 -> v = Float.NaN)%Q
  /\ (t == 0 -> 0 < x -> v = Float.PInf)%Q
  /\ (t == 0 -> x < 0 -> v = Float.NInf)%Q.

End FurtherVocabulary.

(** * Properties *)

(** ** Text: numerals and tokens *)

Section TextFacts.
Import Text.

Lemma chars_app (s t : string) :
  list_ascii_of_string (s ++ t) = app (list_ascii_of_string s) (list_ascii_of_string t).
Proof. induction s as [|c s IH]; simpl; [reflexivity | now rewrite IH]. Qed.

Lemma digits_value_snoc (s : string) (c : ascii) :
  digits_value (s ++ String c "") = digits_step (digits_value s) c.
Proof.
  unfold digits_value. rewrite chars_app, fold_left_app. reflexivity.
Qed.

Lemma digit_char_spec (d : Z) :
  (0 <= d < 10)%Z ->
  is_digit (digit_char d) = true /\ (Z.of_nat (nat_of_ascii (digit_char d)) - 48 = d)%Z.
Proof.
  intros Hd. unfold is_digit, digit_char.
  rewrite nat_ascii_embedding by lia.
  split; [apply andb_true_intro; split; apply Nat.leb_le; lia | lia].
Qed.

Lemma digits_value_fixed (k : nat) : forall n : Z,
  (0 <= n)%Z -> digits_value (fixed_digits k n) = Some (n mod 10 ^ Z.of_nat k)%Z.
Proof.
  induction k as [|k IH]; intros n Hn.
  - simpl. now rewrite Z.mod_1_r.
  - cbn [fixed_digits]. rewrite digits_value_snoc, IH by (apply Z.div_pos; lia).
    destruct (digit_char_spec (n mod 10)) as [Hd Hv]; [apply Z.mod_pos_bound; lia|].
    cbn [digits_step]. rewrite Hd, Hv. f_equal.
    rewrite Nat2Z.inj_succ, Z.pow_succ_r by lia.
    rewrite Z.rem_mul_r by lia. lia.
Qed.

Lemma length_append (s t : string) :
  String.length (s ++ t) = (String.length s + String.length t)%nat.
Proof. induction s as [|c s IH]; simpl; [reflexivity | now rewrite IH]. Qed.

Lemma length_fixed_digits (k : nat) (n : Z) : String.length (fixed_digits k n) = k.
Proof.
  revert n; induction k as [|k IH]; intros n; [reflexivity|].
  cbn [fixed_digits]. rewrite length_append, IH. simpl. lia.
Qed.

(** Reading a numeral from an accumulator: leading zeros do not count. *)
Lemma digits_value_zero (r : string) :
  digits_value (String "0" r) = digits_value r.
Proof. reflexivity. Qed.

Lemma digits_value_strip (s : string) : digits_value (strip_zeros s) = digits_value s.
Proof.
  induction s as [|c r IH]; [reflexivity|].
  cbn [strip_zeros].
  destruct (Ascii.eqb c "0" && negb (String.eqb r "")) eqn:E; [|reflexivity].
  apply andb_prop in E as [Hc _]. apply Ascii.eqb_eq in Hc. subst c.
  now rewrite IH, digits_value_zero.
Qed.

Lemma pow10_bound (n : Z) : (0 <= n -> n < 10 ^ Z.of_nat (S (Z.to_nat (Z.log2 n))))%Z.
Proof.
  intros Hn. rewrite Nat2Z.inj_succ, Z2Nat.id by apply Z.log2_nonneg.
  destruct (Z.eq_dec n 0%Z) as [->|Hz]; [reflexivity|].
  pose proof (Z.log2_spec n ltac:(lia)) as [_ Hlt].
  eapply Z.lt_le_trans; [exact Hlt|].
  apply Z.pow_le_mono_l. lia.
Qed.

Lemma digits_value_decimal (n : Z) : (0 <= n)%Z -> digits_value (decimal n) = Some n.
Proof.
  intros Hn. unfold decimal.
  rewrite digits_value_strip, digits_value_fixed by assumption.
  f_equal. apply Z.mod_small. split; [assumption | now apply pow10_bound].
Qed.

Lemma all_chars_app P s t : all_chars P (s ++ t) = all_chars P s && all_chars P t.
Proof. unfold all_chars. now rewrite chars_app, forallb_app. Qed.

Lemma all_digits_fixed (k : nat) : forall n, all_chars is_digit (fixed_digits k n) = true.
Proof.
  induction k as [|k IH]; intros n; [reflexivity|].
  cbn [fixed_digits]. rewrite all_chars_app, IH. unfold all_chars.
  cbn [list_ascii_of_string forallb andb].
  destruct (digit_char_spec (n mod 10)) as [Hd _]; [apply Z.mod_pos_bound; lia|].
  now rewrite Hd.
Qed.

Lemma all_chars_strip P s : all_chars P s = true -> all_chars P (strip_zeros s) = true.
Proof.
  induction s as [|c r IH]; [trivial|].
  cbn [strip_zeros]. destruct (Ascii.eqb c "0" && negb (String.eqb r "")); [|trivial].
  unfold all_chars at 1. cbn [list_ascii_of_string forallb].
  intros H. apply andb_prop in H as [_ H]. now apply IH.
Qed.

Lemma strip_zeros_nonempty s : s <> "" -> strip_zeros s <> "".
Proof.
  induction s as [|c r IH]; [congruence|]. intros _.
  cbn [strip_zeros]. destruct (Ascii.eqb c "0" && negb (String.eqb r "")) eqn:E; [|discriminate].
  apply IH. apply andb_prop in E as [_ E]. apply negb_true_iff, String.eqb_neq in E. exact E.
Qed.

Lemma all_digits_decimal (n : Z) : all_chars is_digit (decimal n) = true.
Proof. apply all_chars_strip, all_digits_fixed. Qed.

Lemma decimal_nonempty (n : Z) : decimal n <> "".
Proof.
  apply strip_zeros_nonempty. cbn [fixed_digits].
  destruct (fixed_digits _ _); discriminate.
Qed.

End TextFacts.

(** ** Sorting helpers *)

Section SortFacts.
Context {A : Type} (leb : A -> A -> bool).

Lemma insert_by_perm (x : A) (l : list A) : Permutation (Frame.insert_by leb x l) (x :: l).
Proof.
  induction l as [|y l IH]; simpl; [reflexivity|].
  destruct (leb x y); [reflexivity|].
  rewrite IH. apply perm_swap.
Qed.

Lemma sort_by_perm (l : list A) : Permutation (Frame.sort_by leb l) l.
Proof.
  induction l as [|x l IH]; simpl; [reflexivity|].
  unfold Frame.sort_by in *. simpl. rewrite insert_by_perm. now constructor.
Qed.

Hypothesis leb_total : forall a b, leb a b = true \/ leb b a = true.
Hypothesis leb_trans : forall a b c, leb a b = true -> leb b c = true -> leb a c = true.

Lemma insert_by_sorted (x : A) (l : list A) :
  StronglySorted (fun a b => leb a b = true) l ->
  StronglySorted (fun a b => leb a b = true) (Frame.insert_by leb x l).
Proof.
  induction 1 as [|y l Hs IH Hy]; simpl.
  - repeat constructor.
  - destruct (leb x y) eqn:E.
    + constructor; [now constructor|]. constructor; [exact E|].
      eapply Forall_impl; [exact Hy|]. intros z Hz. now apply leb_trans with y.
    + constructor; [exact IH|].
      rewrite (insert_by_perm x l). constructor; [|exact Hy].
      destruct (leb_total x y); congruence.
Qed.

Lemma sort_by_sorted (l : list A) :
  StronglySorted (fun a b => leb a b = true) (Frame.sort_by leb l).
Proof.
  induction l as [|x l IH]; [constructor|].
  apply insert_by_sorted, IH.
Qed.

End SortFacts.

(** ** Region sort key (物种丰富度_子区域.py) *)

Section RegionFacts.
Import RegionRichness.

Lemma append_nil_r (s : string) : s ++ "" = s.
Proof.
  induction s as [|a s IH]; [reflexivity|].
  change (String a (s ++ "") = String a s). now rewrite IH.
Qed.

Lemma append_assoc (s t u : string) : (s ++ t) ++ u = s ++ (t ++ u).
Proof.
  induction s as [|a s IH]; [reflexivity|].
  change (String a ((s ++ t) ++ u) = String a (s ++ (t ++ u))). now rewrite IH.
Qed.

(** The loop of [region_sort_key]: [number] collects the digits in order,
    [letter] holds the last character that is not a digit. *)
Lemma key_loop (chars : list ascii) : forall number letter : string,
  fold_left key_step chars (number, letter)
  = (number ++ string_of_list_ascii (List.filter isdigit chars),
     match last (List.filter (fun c => negb (isdigit c)) chars) with
     | Some c => String c ""
     | None => letter
     end).
Proof.
  induction chars as [|c chars IH]; intros number letter.
  - simpl. now rewrite append_nil_r.
  - cbn [fold_left List.filter]. unfold key_step at 2. cbn [fst snd].
    destruct (isdigit c) eqn:E; cbn [negb]; rewrite IH.
    + f_equal. cbn [string_of_list_ascii]. now rewrite append_assoc.
    + f_equal.
      destruct (List.filter (fun c => negb (isdigit c)) chars) as [|d l]; [reflexivity|].
      change (last (c :: d :: l)) with (last (d :: l)).
      destruct (last (d :: l)) eqn:L; [reflexivity|].
      apply last_None in L. discriminate.
Qed.

Lemma int_of_digits_value (s : string) (v : Z) :
  Text.digits_value s = Some v -> int_of_digits s = v.
Proof.
  unfold Text.digits_value, int_of_digits.
  assert (G : forall l a, fold_left digits_step l (Some a) = Some v ->
              fold_left (fun acc c => (10 * acc + digit_value c)%Z) l a = v).
  { induction l as [|c l IH]; intros a H; simpl in *; [congruence|].
    destruct (Text.is_digit c).
    - apply IH in H. exact H.
    - exfalso. clear -H. induction l; simpl in *; [discriminate | auto]. }
  apply G.
Qed.

Lemma filter_all (f : ascii -> bool) (l : list ascii) :
  forallb f l = true -> List.filter f l = l.
Proof.
  induction l as [|c l IH]; simpl; [reflexivity|].
  intros H. apply andb_prop in H as [-> H]. now rewrite IH.
Qed.

Lemma filter_none (f : ascii -> bool) (l : list ascii) :
  forallb f l = true -> List.filter (fun c => negb (f c)) l = [].
Proof.
  induction l as [|c l IH]; simpl; [reflexivity|].
  intros H. apply andb_prop in H as [-> H]. simpl. now apply IH.
Qed.

(** A region code written as a decimal number followed by one letter. *)
Lemma region_sort_key_code (n : Z) (c : ascii) :
  (0 <= n)%Z -> isdigit c = false ->
  region_sort_key (Text.decimal n ++ String c "") = (n, String c "").
Proof.
  intros Hn Hc. unfold region_sort_key.
  rewrite chars_app, key_loop. cbn [fst snd].
  rewrite !List.filter_app.
  pose proof (all_digits_decimal n) as Hd. unfold all_chars in Hd.
  change Text.is_digit with isdigit in Hd.
  rewrite (filter_all _ _ Hd), (filter_none _ _ Hd).
  cbn [list_ascii_of_string List.filter]. rewrite Hc. cbn [negb app last].
  rewrite app_nil_r, string_of_list_ascii_of_string.
  change ("" ++ Text.decimal n) with (Text.decimal n).
  destruct (String.eqb (Text.decimal n) "") eqn:E.
  - apply String.eqb_eq in E. now destruct (decimal_nonempty n).
  - f_equal. apply int_of_digits_value, digits_value_decimal, Hn.
Qed.

End RegionFacts.

Section RegionOrder.
Import RegionRichness.

Lemma string_ltb_leb (s t : string) : String.ltb s t = negb (String.leb t s).
Proof.
  unfold String.ltb, String.leb. rewrite (String.compare_antisym s t).
  destruct (String.compare t s); reflexivity.
Qed.

Lemma key_leb_alt (a b : Z * string) :
  key_leb a b = (fst a <? fst b)%Z || ((fst a =? fst b)%Z && String.leb (snd a) (snd b)).
Proof.
  unfold key_leb, key_ltb. rewrite string_ltb_leb.
  destruct (Z.ltb_spec (fst b) (fst a)), (Z.ltb_spec (fst a) (fst b)),
    (Z.eqb_spec (fst b) (fst a)), (Z.eqb_spec (fst a) (fst b));
    try lia; cbn; try reflexivity; now rewrite ?negb_involutive.
Qed.

Lemma string_leb_trans (s t u : string) :
  String.leb s t = true -> String.leb t u = true -> String.leb s u = true.
Proof.
  intros H1 H2. apply Is_true_true. apply Is_true_true in H1, H2.
  exact (transitivity (R := String.le) H1 H2).
Qed.

Lemma key_leb_total (a b : Z * string) : key_leb a b = true \/ key_leb b a = true.
Proof.
  rewrite !key_leb_alt.
  destruct (Z.ltb_spec (fst a) (fst b)); [now left|].
  destruct (Z.ltb_spec (fst b) (fst a)); [now right|].
  assert (E : fst a = fst b) by lia. rewrite E, Z.eqb_refl. cbn.
  apply String.leb_total.
Qed.

Lemma key_leb_trans (a b c : Z * string) :
  key_leb a b = true -> key_leb b c = true -> key_leb a c = true.
Proof.
  rewrite !key_leb_alt. intros H1 H2.
  apply orb_true_iff in H1, H2. apply orb_true_iff.
  rewrite !andb_true_iff, !Z.ltb_lt, !Z.eqb_eq in *.
  destruct H1 as [H1|[H1 L1]], H2 as [H2|[H2 L2]]; try (left; lia).
  right. split; [lia|]. eapply string_leb_trans; eassumption.
Qed.

Lemma richness_sorted (data : list obs) :
  StronglySorted
    (fun a b => key_leb (region_sort_key (fst a)) (region_sort_key (fst b)) = true)
    (species_richness_by_region data).
Proof.
  unfold species_richness_by_region.
  apply (sort_by_sorted
           (fun a b : string * nat => key_leb (region_sort_key (fst a)) (region_sort_key (fst b)))).
  - intros a b. apply key_leb_total.
  - intros a b c. apply key_leb_trans.
Qed.

Lemma int_of_digits_empty (s : string) :
  (if String.eqb s "" then 0%Z else int_of_digits s) = int_of_digits s.
Proof. destruct (String.eqb_spec s ""); [now subst | reflexivity]. Qed.

Lemma region_sort_key_parts (region : string) :
  region_sort_key region = (int_of_digits (digits_of region), letter_part region).
Proof.
  unfold region_sort_key, digits_of, letter_part.
  rewrite key_loop. cbn [fst snd].
  change ("" ++ ?x) with x. now rewrite int_of_digits_empty.
Qed.

Lemma letter_ltb (c d : ascii) :
  String.ltb (String c "") (String d "") = Ascii.ltb c d.
Proof.
  unfold String.ltb, Ascii.ltb. cbn [String.compare].
  destruct (Ascii.compare c d); reflexivity.
Qed.

(** C7. The key of a region code written as a number followed by a letter
    is the pair (number as an integer, letter): one code sorts before
    another exactly when its number is smaller, or the numbers are equal
    and its letter comes first.  For any two texts the comparison is first
    by the integer formed from the digits, then by the letter part.  The
    table of richness per region comes out in that order.  "2A" sorts
    before "10B" and "5A" before "5B", while plain string order puts "10B"
    before "2A". *)
Theorem region_sort_key_order (n m : Z) (c d : ascii) :
  (0 <= n)%Z -> (0 <= m)%Z -> isdigit c = false -> isdigit d = false ->
  (region_sort_key (Text.decimal n ++ String c "") = (n, String c "")
   /\ (key_ltb (region_sort_key (Text.decimal n ++ String c ""))
               (region_sort_key (Text.decimal m ++ String d "")) = true
       <-> (n < m)%Z \/ (n = m /\ Ascii.ltb c d = true)))
  /\ (forall a b : string,
        key_ltb (region_sort_key a) (region_sort_key b) = true
        <-> (int_of_digits (digits_of a) < int_of_digits (digits_of b))%Z
            \/ (int_of_digits (digits_of a) = int_of_digits (digits_of b)
                /\ String.ltb (letter_part a) (letter_part b) = true))
  /\ (forall data : list obs,
        StronglySorted
          (fun a b => key_leb (region_sort_key (fst a)) (region_sort_key (fst b)) = true)
          (species_richness_by_region data))
  /\ key_ltb (region_sort_key "2A") (region_sort_key "10B") = true
  /\ key_ltb (region_sort_key "5A") (region_sort_key "5B") = true
  /\ String.ltb "10B" "2A" = true
  /\ Frame.sort_by (fun a b => key_leb (region_sort_key a) (region_sort_key b))
       ["10B"; "5B"; "2A"; "5A"] = ["2A"; "5A"; "5B"; "10B"].
Proof.
  intros Hn Hm Hc Hd.
  split; [split|].
  - now apply region_sort_key_code.
  - rewrite !region_sort_key_code by assumption.
    unfold key_ltb. cbn [fst snd]. rewrite letter_ltb.
    rewrite orb_true_iff, andb_true_iff, Z.ltb_lt, Z.eqb_eq. reflexivity.
  - split.
    { intros a b. rewrite !region_sort_key_parts. unfold key_ltb. cbn [fst snd].
      rewrite orb_true_iff, andb_true_iff, Z.ltb_lt, Z.eqb_eq. reflexivity. }
    split; [exact richness_sorted|].
    repeat split; vm_compute; reflexivity.
Qed.

Lemma region_sort_key_order_witness :
  region_sort_key (Text.decimal 2 ++ "A") = (2%Z, "A")
  /\ (key_ltb (region_sort_key (Text.decimal 2 ++ "A"))
              (region_sort_key (Text.decimal 10 ++ "B")) = true
      <-> (2 < 10)%Z \/ (2%Z = 10%Z /\ Ascii.ltb "A" "B" = true)).
Proof.
  apply (region_sort_key_order 2 10 "A" "B"); [lia | lia | reflexivity | reflexivity].
Defined.

End RegionOrder.

(** ** Grouping *)

Section GroupFacts.
Context {A K : Type} `{EqDecision K} (leb : K -> K -> bool) (key : A -> option K).

Lemma group_keys_elem (k : K) (keys : list K) :
  k ∈ Frame.group_keys leb keys <-> k ∈ keys.
Proof.
  unfold Frame.group_keys. rewrite (sort_by_perm leb (remove_dups keys)).
  apply elem_of_remove_dups.
Qed.

Lemma group_keys_NoDup (keys : list K) : NoDup (Frame.group_keys leb keys).
Proof.
  unfold Frame.group_keys. rewrite (sort_by_perm leb (remove_dups keys)).
  apply NoDup_remove_dups.
Qed.

Lemma groupby_elem (k : K) (g : list A) (rows : list A) :
  (k, g) ∈ Frame.groupby leb key rows
  <-> k ∈ omap key rows /\ g = filter (fun r => key r = Some k) rows.
Proof.
  unfold Frame.groupby. rewrite list_elem_of_fmap. split.
  - intros (k' & E & Hk). inversion E; subst. split; [|reflexivity].
    exact (proj1 (group_keys_elem _ _) Hk).
  - intros [Hk ->]. exists k. split; [reflexivity|]. exact (proj2 (group_keys_elem _ _) Hk).
Qed.

Lemma groupby_keys (rows : list A) :
  map fst (Frame.groupby leb key rows) = Frame.group_keys leb (omap key rows).
Proof.
  unfold Frame.groupby. rewrite map_map. cbn [fst]. apply map_id.
Qed.

Lemma omap_key_elem (k : K) (rows : list A) :
  k ∈ omap key rows <-> exists r, r ∈ rows /\ key r = Some k.
Proof. apply list_elem_of_omap. Qed.

End GroupFacts.

(** ** Species richness (物种丰富度_子区域.py, 物种丰富度_月度.py) *)

Section RichnessFacts.
Import RegionRichness Dates Monthly.

Lemma nunique_mono (rows rows' : list obs) :
  rows ⊆ rows' -> (nunique rows <= nunique rows')%nat.
Proof.
  intros H. unfold nunique. apply subseteq_size.
  intros s. rewrite !elem_of_list_to_set, !list_elem_of_omap.
  intros (r & Hr & Hs). exists r. split; [now apply H | exact Hs].
Qed.

Lemma filter_subseteq {B} (P : B -> Prop) `{forall x, Decision (P x)} (l l' : list B) :
  l ⊆ l' -> filter P l ⊆ filter P l'.
Proof.
  intros Hl x. rewrite !list_elem_of_filter. intros [HP Hx]. split; [exact HP | now apply Hl].
Qed.

Lemma richness_by_region_elem (data : list obs) (g : string) (n : nat) :
  (g, n) ∈ species_richness_by_region data
  <-> g ∈ omap Region (filter (fun r => count_positive r = true) data)
      /\ n = nunique (filter (fun r => Region r = Some g)
                             (filter (fun r => count_positive r = true) data)).
Proof.
  unfold species_richness_by_region.
  rewrite (sort_by_perm _ _), list_elem_of_fmap. split.
  - intros ([k rows] & E & Hk). inversion E; subst; clear E.
    apply groupby_elem in Hk as [Hk ->]. cbn [fst snd]. now split.
  - intros [Hk ->].
    exists (g, filter (fun r => Region r = Some g)
                      (filter (fun r => count_positive r = true) data)).
    split; [reflexivity|]. apply groupby_elem. now split.
Qed.

Lemma richness_by_region_mono (data data' : list obs) (g : string) (n : nat) :
  data ⊆ data' ->
  (g, n) ∈ species_richness_by_region data ->
  exists n', (g, n') ∈ species_richness_by_region data' /\ (n <= n')%nat.
Proof.
  intros Hsub [Hg ->]%richness_by_region_elem.
  eexists. split.
  - apply richness_by_region_elem. split; [|reflexivity].
    apply list_elem_of_omap in Hg as (r & Hr & Hk). apply list_elem_of_omap.
    exists r. split; [|exact Hk]. revert Hr. now apply filter_subseteq.
  - apply nunique_mono. now do 2 apply filter_subseteq.
Qed.

Lemma richness_by_region_keys (data : list obs) :
  NoDup (map fst (species_richness_by_region data)).
Proof.
  unfold species_richness_by_region.
  rewrite (sort_by_perm _ _), map_map. cbn [fst].
  change (map (fun x : string * list obs => fst x)) with (map (@fst string (list obs))).
  rewrite groupby_keys. apply group_keys_NoDup.
Qed.

Section WithParser.
Variable strptime : string -> option timestamp.

Lemma to_datetime_strict_parsed (r : obs) (y : option timestamp * obs) :
  to_datetime_strict strptime r = Some y -> y = parsed strptime r.
Proof.
  unfold to_datetime_strict, parsed. destruct (Date r) as [s|]; cbn.
  - destruct (strptime s); [|discriminate]. now intros [= <-].
  - now intros [= <-].
Qed.

Lemma dated_Some (data : list obs) (rows : list (option timestamp * obs)) :
  dated strptime data = Some rows -> rows = map (parsed strptime) data.
Proof.
  unfold dated. rewrite mapM_Some. induction 1 as [|r y data rows Hy _ IH]; [reflexivity|].
  cbn [map]. f_equal; [now apply to_datetime_strict_parsed | exact IH].
Qed.

Lemma dated_subseteq (data data' : list obs) :
  data ⊆ data' -> is_Some (dated strptime data') -> is_Some (dated strptime data).
Proof.
  unfold dated. rewrite !mapM_is_Some, !Forall_forall. intros Hsub H r Hr.
  apply H, Hsub, Hr.
Qed.

Lemma richness_month_elem (data : list obs) (res : list (nat * nat)) (m n : nat) :
  species_richness_month strptime data = Some res ->
  ((m, n) ∈ res
   <-> m ∈ omap month_of (map (parsed strptime) (filter (fun r => count_positive r = true) data))
       /\ n = nunique (map snd (filter (fun r => month_of r = Some m)
                     (map (parsed strptime)
                          (filter (fun r => count_positive r = true) data))))).
Proof.
  unfold species_richness_month.
  destruct (dated strptime _) as [rows|] eqn:E; [|discriminate].
  apply dated_Some in E. subst rows. cbn. intros [= <-].
  rewrite list_elem_of_fmap. split.
  - intros ([k rows] & Ek & Hk). inversion Ek; subst; clear Ek.
    apply groupby_elem in Hk as [Hk ->]. cbn [fst snd]. now split.
  - intros [Hk ->]. eexists (m, _). split; [reflexivity|]. apply groupby_elem. now split.
Qed.

Lemma richness_month_mono (data data' : list obs) (res' : list (nat * nat)) :
  data ⊆ data' ->
  species_richness_month strptime data' = Some res' ->
  exists res, species_richness_month strptime data = Some res
    /\ forall m n, (m, n) ∈ res -> exists n', (m, n') ∈ res' /\ (n <= n')%nat.
Proof.
  intros Hsub Hres'.
  assert (Hf : filter (fun r => count_positive r = true) data
               ⊆ filter (fun r => count_positive r = true) data')
    by now apply filter_subseteq.
  assert (Hp : map (parsed strptime) (filter (fun r => count_positive r = true) data)
               ⊆ map (parsed strptime) (filter (fun r => count_positive r = true) data')).
  { intros x. rewrite !list_elem_of_fmap. intros (r & -> & Hr). exists r. split; [reflexivity | now apply Hf]. }
  destruct (species_richness_month strptime data) as [res|] eqn:Hres.
  - exists res. split; [reflexivity|]. intros m n Hmn.
    apply (richness_month_elem _ _ _ _ Hres) in Hmn as [Hm ->].
    eexists. split.
    + apply (richness_month_elem _ _ _ _ Hres'). split; [|reflexivity].
      apply list_elem_of_omap in Hm as (r & Hr & Hk). apply list_elem_of_omap.
      exists r. split; [now apply Hp | exact Hk].
    + apply nunique_mono. intros x. rewrite !list_elem_of_fmap.
      intros (r & -> & Hr). exists r. split; [reflexivity|].
      revert Hr. now apply filter_subseteq.
  - exfalso. unfold species_richness_month in Hres, Hres'.
    destruct (dated strptime (filter _ data')) eqn:E'; [|discriminate].
    destruct (dated_subseteq _ _ Hf) as [rows E]; [now rewrite E'|].
    rewrite E in Hres. discriminate.
Qed.

End WithParser.

(** C8. Adding rows to the observation table never lowers a richness: a
    region of the smaller table is a region of the larger one with at least
    as many distinct species among its positive-count rows, and the same
    holds month by month whenever the dates of the larger table parse. *)
Theorem species_richness_monotone (strptime : string -> option timestamp)
    (data data' : list obs) :
  sublist data data' ->
  (forall g n, (g, n) ∈ species_richness_by_region data ->
     exists n', (g, n') ∈ species_richness_by_region data' /\ (n <= n')%nat)
  /\ NoDup (map fst (species_richness_by_region data'))
  /\ (forall res', species_richness_month strptime data' = Some res' ->
        exists res, species_richness_month strptime data = Some res
          /\ forall m n, (m, n) ∈ res -> exists n', (m, n') ∈ res' /\ (n <= n')%nat).
Proof.
  intros Hsub.
  assert (Hin : data ⊆ data') by now apply sublist_subseteq.
  split; [|split].
  - intros g n. now apply richness_by_region_mono.
  - apply richness_by_region_keys.
  - intros res'. now apply richness_month_mono.
Qed.

Lemma species_richness_monotone_witness :
  let r1 := mk_obs (Some "01-Jan") (Some "A") (Some "2A") (Some 3%Q) in
  let r2 := mk_obs (Some "01-Jan") (Some "B") (Some "2A") (Some 1%Q) in
  (forall g n, (g, n) ∈ species_richness_by_region [r1] ->
     exists n', (g, n') ∈ species_richness_by_region [r1; r2] /\ (n <= n')%nat)
  /\ species_richness_by_region [r1] = [("2A", 1%nat)]
  /\ species_richness_by_region [r1; r2] = [("2A", 2%nat)].
Proof.
  intros r1 r2. split.
  - apply (species_richness_monotone january [r1] [r1; r2]).
    apply sublist_skip, sublist_cons, sublist_nil.
  - split; vm_compute; reflexivity.
Defined.

End RichnessFacts.

(** ** Percentage shares (月度物种占比.py, 物种丰富度_各子区域物种丰富度占比.py) *)

Section ShareFacts.
Import RegionRichness Dates Float SpeciesShare.

Lemma filter_map_comm {A B} (f : A -> B) (P : B -> Prop) `{forall y, Decision (P y)}
    (l : list A) :
  filter P (map f l) = map f (filter (fun x => P (f x)) l).
Proof.
  induction l as [|x l IH]; [reflexivity|].
  cbn [map]. rewrite !filter_cons, IH. now destruct (decide (P (f x))).
Qed.

Lemma qsum_scaled (T : Q) (cs : list Q) :
  ~ T == 0 ->
  Frame.qsum (map (fun c => Qred (Qred (c / T) * 100)) cs) == Frame.qsum cs / T * 100.
Proof.
  intros HT. induction cs as [|c cs IH]; cbn [map Frame.qsum foldr].
  - field. exact HT.
  - fold (Frame.qsum (map (fun c => Qred (Qred (c / T) * 100)) cs)).
    fold (Frame.qsum cs).
    rewrite IH, !Qred_correct. field. exact HT.
Qed.

Lemma np_div_finite (a b : Q) : is_finite (np_div a b) = negb (Qeq_bool b 0).
Proof.
  unfold np_div. destruct (Qeq_bool b 0); [|reflexivity].
  destruct (Qeq_bool a 0); [reflexivity|]. now destruct (Qlt_le_dec 0 a).
Qed.

Lemma scale_finite (k : Q) (v : fval) : is_finite (scale k v) = is_finite v.
Proof. now destruct v. Qed.

Section WithParser.
Variable strptime : string -> option timestamp.

Lemma species_ratio_Some (data : list obs) (rows : list share_row) :
  species_ratio_monthly strptime data = Some rows ->
  rows = map (share_of (monthly_species_count strptime data))
             (monthly_species_count strptime data).
Proof.
  unfold species_ratio_monthly.
  destruct (monthly_species_count strptime data) eqn:E; [discriminate|].
  now intros [= <-].
Qed.

Lemma bucket_shares (data : list obs) (rows : list share_row) (d : timestamp) :
  species_ratio_monthly strptime data = Some rows ->
  ~ monthly_total_count (monthly_species_count strptime data) d == 0 ->
  exists shares : list Q,
    map sr_percentage (filter (fun r => sr_date r = d) rows) = map Fin shares
    /\ Frame.qsum shares == 100%Q.
Proof.
  intros Hrows HT. apply species_ratio_Some in Hrows. subst rows.
  set (grouped := monthly_species_count strptime data) in *.
  set (T := monthly_total_count grouped d) in *.
  exists (map (fun c => Qred (Qred (c / T) * 100))
              (map cr_count (filter (fun r => cr_date r = d) grouped))).
  split.
  - rewrite filter_map_comm. cbn [share_of sr_date].
    rewrite !map_map. apply map_ext_in. intros r Hr.
    apply list_elem_of_In, list_elem_of_filter in Hr as [Hd _].
    cbn [share_of sr_percentage]. rewrite Hd. fold T.
    unfold np_div. destruct (Qeq_bool T 0) eqn:E.
    + apply Qeq_bool_eq in E. contradiction.
    + reflexivity.
  - rewrite qsum_scaled by exact HT. fold (monthly_total_count grouped d). fold T.
    field. exact HT.
Qed.

Lemma share_finite_iff (data : list obs) (rows : list share_row) (r : share_row) :
  species_ratio_monthly strptime data = Some rows -> r ∈ rows ->
  (is_finite (sr_percentage r) = true
   <-> ~ monthly_total_count (monthly_species_count strptime data) (sr_date r) == 0).
Proof.
  intros Hrows Hr. apply species_ratio_Some in Hrows. subst rows.
  apply list_elem_of_fmap in Hr as (c & -> & _).
  cbn [share_of sr_percentage sr_date].
  rewrite scale_finite, np_div_finite, negb_true_iff.
  split.
  - intros E. now apply Qeq_bool_neq.
  - intros E. destruct (Qeq_bool _ 0) eqn:B; [|reflexivity].
    apply Qeq_bool_eq in B. contradiction.
Qed.

End WithParser.

(** C5. In every date bucket whose total is not zero the shares written
    for its species are finite numbers that add up to 100; for A with
    count 3 and B with count 1 on one date the shares are 75 and 25, and
    they are exactly 75.0 and 25.0 in binary64 too. *)
Theorem shares_sum_to_100 (strptime : string -> option timestamp)
    (data : list obs) (rows : list share_row) (d : timestamp) :
  species_ratio_monthly strptime data = Some rows ->
  ~ monthly_total_count (monthly_species_count strptime data) d == 0 ->
  (exists shares : list Q,
      map sr_percentage (filter (fun r => sr_date r = d) rows) = map Fin shares
      /\ Frame.qsum shares == 100%Q)
  /\ species_ratio_monthly january
       [mk_obs (Some "01-Jan") (Some "A") None (Some 3%Q);
        mk_obs (Some "01-Jan") (Some "B") None (Some 1%Q)]
     = Some [mk_share_row (mk_ts 1 1) "A" 3%Q (Fin 75%Q);
             mk_share_row (mk_ts 1 1) "B" 1%Q (Fin 25%Q)]
  /\ binary64_share 3 4 = 75%float
  /\ binary64_share 1 4 = 25%float.
Proof.
  intros Hrows HT. split; [|split; [|split]].
  - apply (bucket_shares strptime data); assumption.
  - vm_compute. reflexivity.
  - reflexivity.
  - reflexivity.
Qed.

Lemma shares_sum_to_100_witness :
  exists shares : list Q,
    map sr_percentage
        (filter (fun r => sr_date r = mk_ts 1 1)
                [mk_share_row (mk_ts 1 1) "A" 3%Q (Fin 75%Q);
                 mk_share_row (mk_ts 1 1) "B" 1%Q (Fin 25%Q)]) = map Fin shares
    /\ Frame.qsum shares == 100%Q.
Proof.
  apply (shares_sum_to_100 january
           [mk_obs (Some "01-Jan") (Some "A") None (Some 3%Q);
            mk_obs (Some "01-Jan") (Some "B") None (Some 1%Q)]
           _ (mk_ts 1 1)).
  - vm_compute. reflexivity.
  - vm_compute. discriminate.
Defined.

End ShareFacts.

Section GuardFacts.
Import RegionRichness Dates Float SpeciesShare.

(** C4, as stated, fails: one observation of count 0 makes a date bucket of
    total 0, and the script still writes the row of that bucket, its share
    being the NaN of 0/0. *)
Lemma zero_total_bucket_counterexample :
  let strptime := january in
  let data := [mk_obs (Some "01-Jan") (Some "A") None (Some 0%Q)] in
  monthly_total_count (monthly_species_count strptime data) (mk_ts 1 1) == 0%Q
  /\ species_ratio_monthly strptime data
     = Some [mk_share_row (mk_ts 1 1) "A" 0%Q NaN]
  /\ ~ division_guarded strptime data
  /\ PrimFloat.is_nan (binary64_share 0 0) = true
  /\ RegionRate.region_rate_data
       [RegionRate.mk_richness_row (Some "2A") (Some "2023-01") (Some 0%Q)]
     = [(Some "2A", Some "2023-01", NaN)].
Proof.
  intros strptime data. split; [vm_compute; reflexivity|].
  assert (E : species_ratio_monthly strptime data
              = Some [mk_share_row (mk_ts 1 1) "A" 0%Q NaN]) by (vm_compute; reflexivity).
  split; [exact E|]. split; [|split; [reflexivity | vm_compute; reflexivity]].
  intros H. destruct (H _ E (mk_share_row (mk_ts 1 1) "A" 0%Q NaN)) as [_ Hfin]; [left|].
  discriminate.
Qed.

Lemma np_div_quotient (x t : Q) : unguarded_quotient x t 1 (np_div x t).
Proof.
  unfold unguarded_quotient, np_div. destruct (Qeq_bool t 0) eqn:Et.
  - apply Qeq_bool_eq in Et. repeat split.
    + intros N. contradiction.
    + intros _ Hx. apply Qeq_bool_iff in Hx. now rewrite Hx.
    + intros _ Hx. destruct (Qeq_bool x 0) eqn:Ex.
      * apply Qeq_bool_eq in Ex. lra.
      * destruct (Qlt_le_dec 0 x); [reflexivity | lra].
    + intros _ Hx. destruct (Qeq_bool x 0) eqn:Ex.
      * apply Qeq_bool_eq in Ex. lra.
      * destruct (Qlt_le_dec 0 x); [lra | reflexivity].
  - apply Qeq_bool_neq in Et. repeat split; try contradiction.
    intros _. eexists. split; [reflexivity|]. rewrite Qred_correct. field. exact Et.
Qed.

Lemma share_quotient (x t : Q) : unguarded_quotient x t 100 (scale 100 (np_div x t)).
Proof.
  destruct (np_div_quotient x t) as (H1 & H2 & H3 & H4). repeat split.
  - intros Ht. destruct (H1 Ht) as (q & -> & Hq). cbn [scale].
    eexists. split; [reflexivity|]. rewrite Qred_correct, Hq. field. exact Ht.
  - intros Ht Hx. now rewrite (H2 Ht Hx).
  - intros Ht Hx. now rewrite (H3 Ht Hx).
  - intros Ht Hx. now rewrite (H4 Ht Hx).
Qed.

Lemma np_div_finite_iff (x t : Q) : is_finite (np_div x t) = true <-> ~ t == 0.
Proof.
  unfold np_div. destruct (Qeq_bool t 0) eqn:Et.
  - apply Qeq_bool_eq in Et. split; [|contradiction].
    destruct (Qeq_bool x 0); [discriminate|]. destruct (Qlt_le_dec 0 x); discriminate.
  - apply Qeq_bool_neq in Et. split; [intros _; exact Et | reflexivity].
Qed.

(** C4, amended. The only guard of the percentage-share script is on an
    empty grouped table, for which nothing is written.  Otherwise every
    (date, species) group gives one row, zero total or not; the share of a
    row is a finite number exactly when the total of its date is not zero,
    and for a zero total it is NaN when the count is zero and the infinity
    of the sign of the count otherwise.  The region-rate script writes one
    row per input row, in order, with the same unguarded division of the
    richness by the total of the row's date; a row without richness or
    date gets NaN. *)
Theorem share_division_guard (strptime : string -> option timestamp) (data : list obs) :
  (species_ratio_monthly strptime data = None
     <-> monthly_species_count strptime data = [])
  /\ (forall rows, species_ratio_monthly strptime data = Some rows ->
        map (fun r => (sr_date r, sr_species r, sr_count r)) rows
        = map (fun r => (cr_date r, cr_species r, cr_count r))
              (monthly_species_count strptime data)
        /\ forall r, r ∈ rows ->
             let total := monthly_total_count (monthly_species_count strptime data)
                            (sr_date r) in
             (is_finite (sr_percentage r) = true <-> ~ total == 0%Q)
             /\ unguarded_quotient (sr_count r) total 100 (sr_percentage r))
  /\ (forall table : list RegionRate.richness_row,
        map (fun row => fst row) (RegionRate.region_rate_data table)
        = map (fun r => (RegionRate.Region r, RegionRate.Date r)) table
        /\ forall i r, table !! i = Some r ->
             exists rate,
               RegionRate.region_rate_data table !! i
               = Some (RegionRate.Region r, RegionRate.Date r, rate)
               /\ (forall x d,
                     RegionRate.Species_Richness r = Some x ->
                     RegionRate.Date r = Some d ->
                     let total :=
                       Frame.qsum (omap RegionRate.Species_Richness (rows_of_date table d)) in
                     (is_finite rate = true <-> ~ total == 0%Q)
                     /\ unguarded_quotient x total 1 rate)
               /\ (RegionRate.Species_Richness r = None \/ RegionRate.Date r = None ->
                   rate = NaN)).
Proof.
  split; [|split].
  - unfold species_ratio_monthly.
    destruct (monthly_species_count strptime data); split; congruence.
  - intros rows Hrows. split.
    + rewrite (species_ratio_Some _ _ _ Hrows), map_map. reflexivity.
    + intros r Hr total. split.
      * now apply (share_finite_iff strptime data rows).
      * subst total. rewrite (species_ratio_Some _ _ _ Hrows) in Hr.
        apply list_elem_of_fmap in Hr as (c & -> & _).
        cbn [share_of sr_count sr_date sr_percentage]. apply share_quotient.
  - intros table. split.
    + unfold RegionRate.region_rate_data. rewrite map_map. reflexivity.
    + intros i r Hi. exists (RegionRate.region_rate table r). split; [|split].
      * unfold RegionRate.region_rate_data.
        change (map ?f table !! i) with ((f <$> table) !! i).
        now rewrite list_lookup_fmap, Hi.
      * intros x d Hx Hd total. subst total.
        unfold RegionRate.region_rate, RegionRate.total_species_richness_per_month.
        rewrite Hx, Hd. cbn [mbind option_bind]. fold (rows_of_date table d).
        split; [apply np_div_finite_iff | apply np_div_quotient].
      * unfold RegionRate.region_rate, RegionRate.total_species_richness_per_month.
        intros [E|E]; rewrite E; [reflexivity|].
        now destruct (RegionRate.Species_Richness r).
Qed.

Lemma share_division_guard_witness :
  let data := [mk_obs (Some "01-Jan") (Some "A") None (Some 3%Q);
               mk_obs (Some "01-Jan") (Some "B") None (Some (-3)%Q)] in
  let r := mk_share_row (mk_ts 1 1) "A" 3%Q PInf in
  let total := monthly_total_count (monthly_species_count january data) (sr_date r) in
  (is_finite (sr_percentage r) = true <-> ~ total == 0%Q)
  /\ unguarded_quotient (sr_count r) total 100 (sr_percentage r).
Proof.
  intros data r.
  apply (proj2 (proj1 (proj2 (share_division_guard january data))
                  [r; mk_share_row (mk_ts 1 1) "B" (-3)%Q NInf]
                  ltac:(vm_compute; reflexivity))).
  left.
Defined.

End GuardFacts.

(** ** Shannon index (香农指数-月度.py) *)

Section ShannonFacts.
Import RegionRichness Dates Monthly.
Local Open Scope R_scope.

Lemma ln_neg (x : R) : 0 < x < 1 -> ln x < 0.
Proof. intros [H0 H1]. rewrite <- ln_1. now apply ln_increasing. Qed.

Lemma entropy_term_neg (p : R) : 0 < p < 1 -> p * ln p < 0.
Proof.
  intros Hp. pose proof (ln_neg p Hp).
  replace 0 with (p * 0) by ring. apply Rmult_lt_compat_l; lra.
Qed.

Lemma entropy_sum_neg (ps : list R) :
  ps <> [] -> Forall (fun p => 0 < p < 1) ps ->
  foldr Rplus 0 (map (fun p => p * ln p) ps) < 0.
Proof.
  intros Hne Hps. induction Hps as [|p ps Hp Hps IH]; [congruence|].
  cbn [map foldr]. pose proof (entropy_term_neg p Hp).
  destruct ps as [|q ps]; [cbn; lra|].
  assert (foldr Rplus 0 (map (fun p => p * ln p) (q :: ps)) < 0) by now apply IH.
  lra.
Qed.

Lemma Q2R_qsum (cs : list Q) : Q2R (Frame.qsum cs) = foldr Rplus 0 (map Q2R cs).
Proof.
  induction cs as [|c cs IH]; cbn [Frame.qsum foldr map].
  - apply RMicromega.Q2R_0.
  - fold (Frame.qsum cs). now rewrite Qreals.Q2R_plus, IH.
Qed.

Lemma rsum_pos (xs : list R) :
  Forall (fun x => 0 < x) xs -> xs <> [] -> 0 < foldr Rplus 0 xs.
Proof.
  induction 1 as [|x xs Hx Hxs IH]; [congruence|]. intros _. cbn [foldr].
  destruct xs as [|y ys]; [cbn; lra|].
  assert (0 < foldr Rplus 0 (y :: ys)) by now apply IH. lra.
Qed.

Lemma rsum_app (xs ys : list R) :
  foldr Rplus 0 (xs ++ ys)%list = foldr Rplus 0 xs + foldr Rplus 0 ys.
Proof. induction xs as [|x xs IH]; cbn [app foldr]; [lra | rewrite IH; lra]. Qed.

Lemma rsum_elem_lt (xs : list R) (x : R) :
  (2 <= length xs)%nat -> Forall (fun x => 0 < x) xs -> x ∈ xs ->
  x < foldr Rplus 0 xs.
Proof.
  intros Hlen Hpos Hx.
  apply list_elem_of_split in Hx as (l1 & l2 & ->).
  rewrite rsum_app. cbn [foldr].
  apply Forall_app in Hpos as [H1 H2]. apply Forall_cons in H2 as [_ H2].
  rewrite length_app in Hlen. cbn [length] in Hlen.
  destruct l1 as [|a l1].
  - destruct l2 as [|b l2]; [cbn in Hlen; lia|].
    pose proof (rsum_pos (b :: l2) H2 ltac:(discriminate)). cbn [foldr] in *. lra.
  - pose proof (rsum_pos (a :: l1) H1 ltac:(discriminate)).
    assert (0 <= foldr Rplus 0 l2).
    { destruct l2; [cbn; lra|]. left. apply rsum_pos; [assumption | discriminate]. }
    lra.
Qed.

Lemma count_positive_spec (r : obs) :
  count_positive r = true <-> exists c, Count r = Some c /\ 0 < Q2R c.
Proof.
  unfold count_positive. destruct (Count r) as [c|].
  - destruct (Qlt_le_dec 0 c) as [H|H]; split.
    + intros _. exists c. split; [reflexivity|].
      rewrite <- RMicromega.Q2R_0. now apply Qreals.Qlt_Rlt.
    + reflexivity.
    + discriminate.
    + intros (c' & [= <-] & Hc). apply Qreals.Qle_Rle in H.
      rewrite RMicromega.Q2R_0 in H. lra.
  - split; [discriminate | intros (c & ? & _); discriminate].
Qed.

Lemma omap_cons_Some {A B} (f : A -> option B) (x : A) (l : list A) (y : B) :
  f x = Some y -> omap f (x :: l) = y :: omap f l.
Proof. intros H. change (omap f (x :: l)) with (match f x with Some y => y :: omap f l | None => omap f l end). now rewrite H. Qed.

Lemma positive_counts (group : list obs) :
  Forall (fun r => count_positive r = true) group ->
  length (omap Count group) = length group
  /\ Forall (fun x => 0 < x) (map Q2R (omap Count group)).
Proof.
  induction 1 as [|r group Hr _ [IHl IHp]]; [split; [reflexivity | constructor]|].
  apply count_positive_spec in Hr as (c & Hc & Hpos).
  rewrite (omap_cons_Some _ _ _ _ Hc). cbn [length map]. split; [now rewrite IHl|].
  constructor; assumption.
Qed.

(** What the code does compute: with one row in the month the index is 0,
    with two rows or more it is positive, whatever the species are. *)
Lemma shannon_single_row (r : obs) :
  count_positive r = true -> calculate_shannon_diversity [r] = 0.
Proof.
  intros (c & Hc & Hpos)%count_positive_spec.
  unfold calculate_shannon_diversity, proportions.
  rewrite (omap_cons_Some _ _ _ _ Hc).
  change (omap Count []) with (@nil Q). rewrite Q2R_qsum.
  cbn [map foldr].
  replace (Q2R c / (Q2R c + 0)) with 1 by (field; lra).
  rewrite ln_1. ring.
Qed.

Lemma shannon_rows_positive (group : list obs) :
  (2 <= length group)%nat ->
  Forall (fun r => count_positive r = true) group ->
  0 < calculate_shannon_diversity group.
Proof.
  intros Hlen Hpos. destruct (positive_counts group Hpos) as [El Hp].
  unfold calculate_shannon_diversity, proportions.
  set (cs := omap Count group) in *.
  assert (Hne : cs <> []) by (destruct cs; [cbn in El; lia | discriminate]).
  enough (foldr Rplus 0
            (map (fun p => p * ln p) (map (fun c => Q2R c / Q2R (Frame.qsum cs)) cs)) < 0)
    by lra.
  apply entropy_sum_neg.
  - destruct cs; [congruence | discriminate].
  - rewrite Forall_forall. intros p Hin.
    apply list_elem_of_fmap in Hin as (c & -> & Hc).
    rewrite Q2R_qsum.
    assert (Hx : Q2R c ∈ map Q2R cs) by (apply list_elem_of_fmap; eauto).
    pose proof (rsum_elem_lt (map Q2R cs) (Q2R c)
                  ltac:(rewrite length_map; lia) Hp Hx) as Hlt.
    assert (H0 : 0 < Q2R c) by (rewrite Forall_forall in Hp; now apply Hp).
    split.
    + apply Rdiv_lt_0_compat; lra.
    + apply Rmult_lt_reg_r with (foldr Rplus 0 (map Q2R cs)); [lra|].
      unfold Rdiv. rewrite Rmult_assoc, Rinv_l by lra. lra.
Qed.

(** C6: the index at a month with a single species seen on two days.  The
    bucket has richness 1, yet the index is positive, because the
    proportions are taken per row and not per species. *)
Theorem shannon_single_species_positive :
  let data := [mk_obs (Some "01-Jan") (Some "A") (Some "2A") (Some 3%Q);
               mk_obs (Some "02-Jan") (Some "A") (Some "2A") (Some 1%Q)] in
  species_richness_month january data = Some [(1%nat, 1%nat)]
  /\ exists H, shannon_diversity_month january data = Some [(1%nat, H)] /\ 0 < H.
Proof.
  intros data. split; [vm_compute; reflexivity|].
  eexists. split.
  - unfold shannon_diversity_month.
    replace (filter (fun r => count_positive r = true) data) with data
      by (vm_compute; reflexivity).
    replace (dated january data)
      with (Some [(Some (mk_ts 1 1), mk_obs (Some "01-Jan") (Some "A") (Some "2A") (Some 3%Q));
                  (Some (mk_ts 1 2), mk_obs (Some "02-Jan") (Some "A") (Some "2A") (Some 1%Q))])
      by (vm_compute; reflexivity).
    cbn [mbind option_bind].
    match goal with
    | |- context [Frame.groupby ?l ?k ?rows] =>
      let g := eval vm_compute in (Frame.groupby l k rows) in
      change (Frame.groupby l k rows) with g
    end.
    cbn [map fst snd]. reflexivity.
  - apply shannon_rows_positive; [cbn; lia|].
    repeat constructor.
Qed.

End ShannonFacts.

(** ** Tokens and fixed-point numerals *)

Section TokenFacts.
Import Float Text.

Lemma split_aux_token (t : string) : forall cur s,
  all_chars (fun c => negb (is_space c)) t = true ->
  split_aux cur (t ++ s) = split_aux (cur ++ t) s.
Proof.
  induction t as [|c t IH]; intros cur s Ht.
  - now rewrite append_nil_r.
  - unfold all_chars in Ht. cbn [list_ascii_of_string forallb] in Ht.
    apply andb_prop in Ht as [Hc Ht]. apply negb_true_iff in Hc.
    change (String c t ++ s) with (String c (t ++ s)).
    cbn [split_aux]. rewrite Hc, IH by exact Ht.
    now rewrite append_assoc.
Qed.

Lemma eqb_nonempty (s : string) : s <> "" -> String.eqb s "" = false.
Proof. intros H. now apply String.eqb_neq. Qed.

Lemma split_join (tokens : list string) :
  Forall token_ok tokens -> split (join tokens) = tokens.
Proof.
  unfold split, join. induction 1 as [|t ts [Hne Ht] Hts IH]; [reflexivity|].
  destruct ts as [|u ts].
  - cbn [String.concat]. rewrite <- (append_nil_r t) at 1.
    rewrite split_aux_token by exact Ht. cbn [split_aux].
    change ("" ++ t) with t. now rewrite eqb_nonempty.
  - change (String.concat " " (t :: u :: ts))
      with (t ++ String " " (String.concat " " (u :: ts))).
    rewrite split_aux_token by exact Ht.
    change ("" ++ t) with t.
    cbn [split_aux]. change (is_space " ") with true. cbv iota.
    rewrite eqb_nonempty by exact Hne. now rewrite IH.
Qed.

Lemma all_chars_impl (P Q : ascii -> bool) (s : string) :
  (forall c, P c = true -> Q c = true) -> all_chars P s = true -> all_chars Q s = true.
Proof.
  intros H. unfold all_chars. rewrite !forallb_forall. intros HP c Hc. now apply H, HP.
Qed.

Lemma digit_not_space (c : ascii) : is_digit c = true -> negb (is_space c) = true.
Proof.
  unfold is_digit, is_space. intros H. apply andb_prop in H as [H1 H2].
  apply Nat.leb_le in H1, H2. apply negb_true_iff, orb_false_iff.
  split; apply andb_false_iff; right; apply Nat.leb_gt; lia.
Qed.

Lemma digit_not_dot (c : ascii) : is_digit c = true -> Ascii.eqb c "." = false.
Proof.
  intros H. apply Ascii.eqb_neq. intros ->. discriminate.
Qed.

Lemma format_fixed_shape (d : nat) (q : Q) :
  d <> O ->
  format_fixed d q
  = sign_of q
    ++ decimal (Z.abs (round_half_even (q * inject_Z (10 ^ Z.of_nat d))) / 10 ^ Z.of_nat d)
    ++ "."
    ++ fixed_digits d (Z.abs (round_half_even (q * inject_Z (10 ^ Z.of_nat d)))
                        mod 10 ^ Z.of_nat d).
Proof.
  intros Hd. unfold format_fixed, sign_of.
  destruct (Nat.eqb_spec d 0); [contradiction|]. reflexivity.
Qed.

Lemma format_fixed_token (d : nat) (q : Q) : d <> O -> token_ok (format_fixed d q).
Proof.
  intros Hd. rewrite format_fixed_shape by exact Hd. split.
  - unfold sign_of. destruct (Qlt_le_dec q 0); [discriminate|].
    change ("" ++ ?x) with x.
    pose proof (decimal_nonempty
                  (Z.abs (round_half_even (q * inject_Z (10 ^ Z.of_nat d))) / 10 ^ Z.of_nat d)).
    destruct (decimal _); [congruence | discriminate].
  - rewrite !all_chars_app.
    rewrite (all_chars_impl _ _ _ digit_not_space (all_digits_decimal _)).
    rewrite (all_chars_impl _ _ _ digit_not_space (all_digits_fixed _ _)).
    unfold sign_of. now destruct (Qlt_le_dec q 0).
Qed.

Lemma split_sign_digits (s : string) :
  s <> "" -> all_chars is_digit s = true -> split_sign s = (false, s).
Proof.
  destruct s as [|c s]; [congruence|]. intros _ H.
  unfold all_chars in H. cbn [list_ascii_of_string forallb] in H.
  apply andb_prop in H as [Hc _].
  unfold split_sign.
  destruct (Ascii.eqb_spec c "-") as [->|N1]; [discriminate|].
  destruct (Ascii.eqb_spec c "+") as [->|N2]; [discriminate|].
  destruct c as [[] [] [] [] [] [] [] []]; try reflexivity; congruence.
Qed.

Lemma cut_at_dot_digits (s t : string) :
  all_chars is_digit s = true -> cut_at_dot (s ++ "." ++ t) = (s, Some t).
Proof.
  induction s as [|c s IH]; intros H.
  - reflexivity.
  - unfold all_chars in H. cbn [list_ascii_of_string forallb] in H.
    apply andb_prop in H as [Hc H].
    change (String c s ++ "." ++ t) with (String c (s ++ "." ++ t)).
    cbn [cut_at_dot]. rewrite (digit_not_dot c Hc), IH by exact H. reflexivity.
Qed.

Lemma all_chars_cons (P : ascii -> bool) (c : ascii) (s : string) :
  all_chars P (String c s) = P c && all_chars P s.
Proof. reflexivity. Qed.

Lemma lstrip_token (s : string) :
  all_chars (fun c => negb (is_space c)) s = true -> lstrip s = s.
Proof.
  destruct s as [|c s]; [reflexivity|]. rewrite all_chars_cons. intros H.
  apply andb_prop in H as [Hc _]. apply negb_true_iff in Hc.
  cbn [lstrip]. now rewrite Hc.
Qed.

Lemma rstrip_token (s : string) :
  all_chars (fun c => negb (is_space c)) s = true -> rstrip s = s.
Proof.
  induction s as [|c s IH]; [reflexivity|]. rewrite all_chars_cons. intros H.
  apply andb_prop in H as [Hc H]. apply negb_true_iff in Hc.
  cbn [rstrip]. now rewrite Hc, IH.
Qed.

Lemma strip_token (s : string) :
  all_chars (fun c => negb (is_space c)) s = true -> strip s = s.
Proof. intros H. unfold strip. rewrite lstrip_token by exact H. now apply rstrip_token. Qed.

Lemma remove_underscores_plain (s : string) :
  all_chars (fun c => negb (Ascii.eqb c "_")) s = true ->
  forall prev, Ascii.eqb prev "_" = false -> remove_underscores_from prev s = Some s.
Proof.
  induction s as [|c s IH]; intros H prev Hp; cbn [remove_underscores_from].
  - now rewrite Hp.
  - rewrite all_chars_cons in H. apply andb_prop in H as [Hc H].
    apply negb_true_iff in Hc. rewrite Hc, Hp. cbn [andb].
    now rewrite (IH H c Hc).
Qed.

Lemma digit_not_underscore (c : ascii) :
  is_digit c = true -> negb (Ascii.eqb c "_") = true.
Proof.
  intros H. apply negb_true_iff, Ascii.eqb_neq. intros ->. discriminate.
Qed.

Lemma numeral_not_space (c : ascii) : numeral_char c = true -> negb (is_space c) = true.
Proof.
  unfold numeral_char. intros H. apply orb_prop in H as [H|H].
  - now apply digit_not_space.
  - apply Ascii.eqb_eq in H. now subst c.
Qed.

Lemma numeral_not_underscore (c : ascii) :
  numeral_char c = true -> negb (Ascii.eqb c "_") = true.
Proof.
  unfold numeral_char. intros H. apply orb_prop in H as [H|H].
  - now apply digit_not_underscore.
  - apply Ascii.eqb_eq in H. now subst c.
Qed.

Lemma plain_int_decimal (n : Z) : (0 <= n)%Z -> plain_int (decimal n) = Some n.
Proof.
  intros Hn. unfold plain_int.
  rewrite split_sign_digits by (apply decimal_nonempty || apply all_digits_decimal).
  rewrite eqb_nonempty by apply decimal_nonempty.
  now rewrite digits_value_decimal.
Qed.

Lemma int_of_string_decimal (n : Z) : (0 <= n)%Z -> int_of_string (decimal n) = Some n.
Proof.
  intros Hn. unfold int_of_string, remove_underscores.
  rewrite remove_underscores_plain;
    [|eapply all_chars_impl; [exact digit_not_underscore | apply all_digits_decimal]
     |reflexivity].
  cbn [mbind option_bind].
  rewrite strip_token
    by (eapply all_chars_impl; [exact digit_not_space | apply all_digits_decimal]).
  now apply plain_int_decimal.
Qed.

Lemma has_dot_digits (s : string) : all_chars is_digit s = true -> has_dot s = false.
Proof.
  unfold all_chars, has_dot. induction (list_ascii_of_string s) as [|c l IH]; [reflexivity|].
  cbn [forallb existsb]. intros H. apply andb_prop in H as [Hc H].
  rewrite IH by exact H. rewrite orb_false_r.
  rewrite Ascii.eqb_sym. now apply digit_not_dot.
Qed.

End TokenFacts.

Section NumeralFacts.
Import Float Text.

Lemma round_half_even_bounds (x : Q) :
  (inject_Z (round_half_even x) - x <= 1 # 2)%Q
  /\ (x - inject_Z (round_half_even x) <= 1 # 2)%Q.
Proof.
  unfold round_half_even.
  pose proof (Qfloor_le x) as H1. pose proof (Qlt_floor x) as H2.
  rewrite inject_Z_plus in H2. change (inject_Z 1) with 1%Q in H2.
  destruct (Qcompare_spec (x - inject_Z (Qfloor x)) (1 # 2)) as [E|E|E].
  - destruct (Z.even (Qfloor x)); rewrite ?inject_Z_plus; change (inject_Z 1) with 1%Q; lra.
  - lra.
  - rewrite inject_Z_plus. change (inject_Z 1) with 1%Q. lra.
Qed.

Lemma round_half_even_sign (x : Q) :
  ((x < 0)%Q -> (round_half_even x <= 0)%Z) /\ ((0 <= x)%Q -> (0 <= round_half_even x)%Z).
Proof.
  pose proof (Qfloor_le x) as H1. pose proof (Qlt_floor x) as H2.
  split; intros Hx.
  - assert (Qfloor x < 0)%Z by (rewrite Zlt_Qlt; change (inject_Z 0) with 0%Q; lra).
    unfold round_half_even.
    destruct (Qcompare _ _); [destruct (Z.even _)| |]; lia.
  - assert (0 < Qfloor x + 1)%Z by (rewrite Zlt_Qlt; change (inject_Z 0) with 0%Q; lra).
    unfold round_half_even.
    destruct (Qcompare _ _); [destruct (Z.even _)| |]; lia.
Qed.

Lemma pow10_pos (d : nat) : (0 < 10 ^ Z.of_nat d)%Z.
Proof. apply Z.pow_pos_nonneg; lia. Qed.

Lemma pow10_nat (d : nat) : Z.pos (Pos.of_nat (10 ^ d)) = (10 ^ Z.of_nat d)%Z.
Proof.
  assert (H : (10 ^ d)%nat <> O) by (apply Nat.pow_nonzero; lia).
  replace (10 ^ Z.of_nat d)%Z with (Z.of_nat (10 ^ d)) by (rewrite Nat2Z.inj_pow; reflexivity).
  destruct (10 ^ d)%nat as [|k] eqn:E; [congruence|].
  rewrite Znat.positive_nat_Z || lia.
Qed.

Lemma split_sign_digit_first (c : ascii) (s : string) :
  is_digit c = true -> split_sign (String c s) = (false, String c s).
Proof.
  intros Hc. unfold split_sign.
  destruct (Ascii.eqb_spec c "-") as [->|N1]; [discriminate|].
  destruct (Ascii.eqb_spec c "+") as [->|N2]; [discriminate|].
  destruct c as [[] [] [] [] [] [] [] []]; try reflexivity; congruence.
Qed.

Lemma unsigned_of_fixed (d : nat) (n : Z) :
  (0 <= n)%Z ->
  unsigned_of_string (decimal (n / 10 ^ Z.of_nat d) ++ "."
                        ++ fixed_digits d (n mod 10 ^ Z.of_nat d))
  = Some (n # Pos.of_nat (10 ^ d)).
Proof.
  intros Hn. pose proof (pow10_pos d) as HP.
  set (P := (10 ^ Z.of_nat d)%Z) in *.
  assert (Hi : (0 <= n / P)%Z) by (apply Z.div_pos; lia).
  pose proof (Z.mod_pos_bound n P HP) as Hf.
  unfold unsigned_of_string.
  rewrite cut_at_dot_digits by apply all_digits_decimal.
  unfold default; cbn [from_option]; unfold Datatypes.id.
  rewrite (eqb_nonempty (decimal (n / P))) by apply decimal_nonempty. cbn [andb].
  rewrite digits_value_decimal by exact Hi.
  rewrite digits_value_fixed by lia.
  rewrite length_fixed_digits. fold P.
  rewrite (Z.mod_small (n mod P) P) by lia.
  f_equal. f_equal. rewrite (Z.div_mod n P) at 3 by lia. lia.
Qed.

Lemma split_sign_numeral (body : string) :
  all_chars numeral_char body = true -> split_sign body = (false, body).
Proof.
  destruct body as [|c r]; [reflexivity|]. rewrite all_chars_cons. intros H.
  apply andb_prop in H as [Hc _]. unfold split_sign.
  destruct (Ascii.eqb_spec c "-") as [->|N1]; [discriminate|].
  destruct (Ascii.eqb_spec c "+") as [->|N2]; [discriminate|].
  destruct c as [[] [] [] [] [] [] [] []]; try reflexivity; congruence.
Qed.

Lemma lower_numeral (body : string) : all_chars numeral_char body = true -> lower body = body.
Proof.
  unfold lower. induction body as [|c r IH]; [reflexivity|]. rewrite all_chars_cons.
  intros H. apply andb_prop in H as [Hc H]. cbn [list_ascii_of_string map string_of_list_ascii].
  rewrite (IH H). f_equal.
  unfold numeral_char, is_digit in Hc. unfold lower_char.
  destruct (Nat.leb_spec 65 (nat_of_ascii c)) as [H65|H65]; [|reflexivity].
  destruct (Nat.leb_spec (nat_of_ascii c) 90) as [H90|H90]; [|reflexivity].
  exfalso. apply orb_prop in Hc as [Hc|Hc].
  - apply andb_prop in Hc as [_ Hc]. apply Nat.leb_le in Hc. lia.
  - apply Ascii.eqb_eq in Hc. subst c. apply Nat.leb_le in H65. discriminate.
Qed.

Lemma cut_at_exponent_numeral (body : string) :
  all_chars numeral_char body = true -> cut_at_exponent body = (body, None).
Proof.
  induction body as [|c r IH]; [reflexivity|]. rewrite all_chars_cons.
  intros H. apply andb_prop in H as [Hc H]. cbn [cut_at_exponent].
  rewrite (IH H).
  destruct (Ascii.eqb_spec c "e") as [->|_]; [discriminate|].
  destruct (Ascii.eqb_spec c "E") as [->|_]; [discriminate|]. reflexivity.
Qed.

(** [float] on what the writer produces: an optional minus sign and a
    numeral of digits with a point. *)
Lemma float_of_numeral (neg : bool) (body : string) :
  all_chars numeral_char body = true ->
  float_of_string ((if neg then "-" else "") ++ body)
  = (fun v => Fin (Qred (if neg then - v else v))) <$> unsigned_of_string body.
Proof.
  intros Hbody.
  set (s := (if neg then "-" else "") ++ body).
  assert (Hspace : all_chars (fun c => negb (is_space c)) s = true).
  { unfold s. rewrite all_chars_app.
    rewrite (all_chars_impl _ _ _ numeral_not_space Hbody). now destruct neg. }
  assert (Hunder : all_chars (fun c => negb (Ascii.eqb c "_")) s = true).
  { unfold s. rewrite all_chars_app.
    rewrite (all_chars_impl _ _ _ numeral_not_underscore Hbody). now destruct neg. }
  assert (Hsign : split_sign s = (neg, body)).
  { unfold s. destruct neg; [reflexivity|]. now apply split_sign_numeral. }
  unfold float_of_string, remove_underscores.
  rewrite (remove_underscores_plain s Hunder) by reflexivity.
  cbn [mbind option_bind]. rewrite (strip_token s Hspace), Hsign.
  rewrite (lower_numeral body Hbody), (cut_at_exponent_numeral body Hbody).
  destruct (String.eqb_spec body "inf") as [->|_]; [discriminate|].
  destruct (String.eqb_spec body "infinity") as [->|_]; [discriminate|].
  destruct (String.eqb_spec body "nan") as [->|_]; [discriminate|].
  cbn [orb]. now destruct (unsigned_of_string body).
Qed.

Lemma numeral_fixed (d : nat) (n : Z) :
  all_chars numeral_char
    (decimal (n / 10 ^ Z.of_nat d) ++ "." ++ fixed_digits d (n mod 10 ^ Z.of_nat d)) = true.
Proof.
  assert (Hd : forall c, is_digit c = true -> numeral_char c = true)
    by (intros c Hc; unfold numeral_char; now rewrite Hc).
  rewrite !all_chars_app.
  rewrite (all_chars_impl _ _ _ Hd (all_digits_decimal _)).
  now rewrite (all_chars_impl _ _ _ Hd (all_digits_fixed _ _)).
Qed.

Lemma float_of_format_fixed (d : nat) (q : Q) :
  d <> O -> float_of_string (format_fixed d q) = Some (Fin (round_to d q)).
Proof.
  intros Hd. rewrite format_fixed_shape by exact Hd.
  pose proof (pow10_pos d) as HP.
  set (P := (10 ^ Z.of_nat d)%Z) in *.
  set (r := round_half_even (q * inject_Z P)).
  pose proof (unsigned_of_fixed d (Z.abs r) ltac:(lia)) as Hbody. fold P in Hbody.
  pose proof (numeral_fixed d (Z.abs r)) as Hnum. fold P in Hnum.
  destruct (round_half_even_sign (q * inject_Z P)) as [Hneg Hpos]. fold r in Hneg, Hpos.
  unfold round_to. fold P r.
  assert (HPq : (0 < inject_Z P)%Q) by (change 0%Q with (inject_Z 0); rewrite <- Zlt_Qlt; exact HP).
  unfold sign_of. destruct (Qlt_le_dec q 0) as [Hq|Hq].
  - assert (Hr : (r <= 0)%Z) by (apply Hneg; nra).
    rewrite (float_of_numeral true _ Hnum), Hbody. cbn [fmap option_fmap option_map].
    f_equal. f_equal. f_equal. unfold Qopp. cbn [Qnum Qden]. f_equal. lia.
  - assert (Hr : (0 <= r)%Z) by (apply Hpos; nra).
    rewrite (float_of_numeral false _ Hnum), Hbody. cbn [fmap option_fmap option_map].
    f_equal. f_equal. f_equal. f_equal. lia.
Qed.

Lemma round_to_error (q : Q) :
  (round_to 4 q - q <= 1 # 20000)%Q /\ (q - round_to 4 q <= 1 # 20000)%Q.
Proof.
  unfold round_to. rewrite Qred_correct.
  change (10 ^ Z.of_nat 4)%Z with 10000%Z. change (Pos.of_nat (10 ^ 4)) with 10000%positive.
  destruct (round_half_even_bounds (q * inject_Z 10000)) as [H1 H2].
  set (r := round_half_even (q * inject_Z 10000)) in *.
  rewrite (Qmake_Qdiv r 10000).
  assert (E : (inject_Z r / inject_Z 10000 == inject_Z r * (1 # 10000))%Q) by (field; discriminate).
  rewrite E. change (inject_Z 10000) with (10000 # 1)%Q in *.
  split; lra.
Qed.

End NumeralFacts.

(** ** Raster round trip ([save_monthly_layer] then [read_asc_file]) *)

Section RasterFacts.
Import Float Text Raster.

Lemma round_half_even_comp (x y : Q) : x == y -> round_half_even x = round_half_even y.
Proof.
  intros E. unfold round_half_even. rewrite (Qfloor_comp x y E).
  assert (E' : x - inject_Z (Qfloor y) == y - inject_Z (Qfloor y)) by now rewrite E.
  now rewrite (Qcompare_comp _ _ E' (1 # 2) (1 # 2) (Qeq_refl _)).
Qed.

Lemma round_to_comp (d : nat) (x y : Q) : x == y -> round_to d x = round_to d y.
Proof.
  intros E. unfold round_to. f_equal. f_equal.
  apply round_half_even_comp. now rewrite E.
Qed.

Lemma format_cell_token (x : Q) : token_ok (format_cell x).
Proof.
  unfold format_cell. destruct (Qeq_bool x NODATA).
  - split; [discriminate | reflexivity].
  - now apply format_fixed_token.
Qed.

Lemma read_written_cell (v : fval) :
  exists x, float_of_string (format_cell (mask_cell v)) = Some x
            /\ unmask_cell NODATA x = roundtrip_cell v.
Proof.
  assert (Hs : float_of_string "-9999" = Some (Fin NODATA)) by (vm_compute; reflexivity).
  destruct v as [q| | |]; cbn [mask_cell roundtrip_cell];
    try (exists (Fin NODATA); split; [exact Hs | reflexivity]).
  unfold format_cell. destruct (Qeq_bool q NODATA) eqn:E.
  - exists (Fin NODATA). split; [exact Hs|].
    apply Qeq_bool_eq in E. rewrite (round_to_comp 4 q NODATA E).
    vm_compute. reflexivity.
  - exists (Fin (round_to 4 q)). split; [now apply float_of_format_fixed | reflexivity].
Qed.

Lemma mapM_map_Some {A B C} (g : A -> C) (f : C -> option B) (h : A -> B) (l : list A) :
  (forall x, x ∈ l -> f (g x) = Some (h x)) -> mapM f (map g l) = Some (map h l).
Proof.
  intros H. apply mapM_Some. induction l as [|x l IH]; [constructor|].
  cbn [map]. constructor.
  - apply H. left.
  - apply IH. intros y Hy. apply H. now right.
Qed.

Lemma float_of_format_cell (x : Q) :
  float_of_string (format_cell x) = Some (Fin (read_value x)).
Proof.
  unfold format_cell, read_value. destruct (Qeq_bool x NODATA).
  - vm_compute. reflexivity.
  - now apply float_of_format_fixed.
Qed.

Lemma unmask_read_value (v : fval) :
  unmask_cell NODATA (Fin (read_value (mask_cell v))) = roundtrip_cell v.
Proof.
  destruct (read_written_cell v) as (x & Hx & <-).
  rewrite float_of_format_cell in Hx. now inversion Hx.
Qed.

Lemma split_written_row (row : list Q) :
  split (join (map format_cell row)) = map format_cell row.
Proof.
  apply split_join. rewrite Forall_fmap, Forall_forall. intros x _. apply format_cell_token.
Qed.

Lemma read_written_rows (rows : list (list Q)) :
  Forall (fun row => row <> []) rows ->
  read_rows (map (fun row => join (map format_cell row)) rows)
  = Some (map (map (fun x => Fin (read_value x))) rows).
Proof.
  intros Hne. unfold read_rows.
  assert (Hf : filter (fun line => split line <> [])
                      (map (fun row => join (map format_cell row)) rows)
               = map (fun row => join (map format_cell row)) rows).
  { induction Hne as [|row rows Hr _ IH]; [reflexivity|].
    cbn [map]. rewrite filter_cons, IH, split_written_row.
    destruct (decide (map format_cell row <> [])) as [_|N]; [reflexivity|].
    exfalso. apply N. destruct row; [congruence | discriminate]. }
  rewrite Hf. apply mapM_map_Some. intros row _.
  rewrite split_written_row. apply mapM_map_Some. intros x _.
  apply float_of_format_cell.
Qed.

Lemma rectangular_same_length {A} (n : nat) (rows : list (list A)) :
  Forall (fun row => length row = n) rows -> rectangular rows = true.
Proof.
  intros H. destruct rows as [|r rows]; [reflexivity|].
  apply Forall_cons in H as [Hr H]. cbn [rectangular].
  apply forallb_forall. intros r' Hr'. apply Nat.eqb_eq.
  rewrite Forall_forall in H. rewrite Hr. apply H. now apply list_elem_of_In.
Qed.

Lemma has_dot_app (s t : string) : has_dot (s ++ t) = has_dot s || has_dot t.
Proof. unfold has_dot. now rewrite chars_app, existsb_app. Qed.

Lemma has_dot_format_fixed (d : nat) (q : Q) : d <> O -> has_dot (format_fixed d q) = true.
Proof.
  intros Hd. rewrite format_fixed_shape by exact Hd.
  rewrite !has_dot_app. change (has_dot ".") with true.
  now rewrite orb_true_r, !orb_true_r.
Qed.

Lemma header_entry_int (key : string) (n : Z) :
  token_ok key -> (0 <= n)%Z ->
  header_entry (key ++ " " ++ decimal n) = Some (Some (lower key, inject_Z n)).
Proof.
  intros Hk Hn. unfold header_entry.
  change (key ++ " " ++ decimal n) with (join [key; decimal n]).
  rewrite split_join.
  - rewrite has_dot_digits by apply all_digits_decimal.
    now rewrite int_of_string_decimal.
  - repeat constructor; try apply Hk.
    + apply decimal_nonempty.
    + eapply all_chars_impl; [exact digit_not_space | apply all_digits_decimal].
Qed.

Lemma header_entry_float (key : string) (x : Q) :
  token_ok key ->
  header_entry (key ++ " " ++ format_fixed 6 x) = Some (Some (lower key, round_to 6 x)).
Proof.
  intros Hk. unfold header_entry.
  change (key ++ " " ++ format_fixed 6 x) with (join [key; format_fixed 6 x]).
  rewrite split_join.
  - rewrite has_dot_format_fixed by discriminate.
    now rewrite float_of_format_fixed by discriminate.
  - repeat constructor; try apply Hk; now apply format_fixed_token.
Qed.

Lemma qmin_is_Some (l : list Q) : l <> [] -> is_Some (qmin l).
Proof. destruct l; [congruence | eauto]. Qed.

Lemma written_file_reads_back (data : array) (lons lats : list Q) :
  lons <> [] -> lats <> [] ->
  Forall (fun row => length row = length lons) data ->
  exists lines header,
    save_monthly_layer data lons lats = Some lines
    /\ read_asc_file lines
       = Some (header, map (map roundtrip_cell) (north_to_south data lats))
    /\ header !! "nodata_value" = Some NODATA.
Proof.
  intros Hlons Hlats Hshape. unfold save_monthly_layer.
  destruct (qmin_is_Some lons Hlons) as [xll Hx].
  assert (Hlats' : (if ascending lats then reverse lats else lats) <> []).
  { destruct (ascending lats); [|exact Hlats].
    intros E. apply (f_equal length) in E. rewrite length_reverse in E.
    destruct lats; [congruence | discriminate]. }
  destruct (qmin_is_Some _ Hlats') as [yll Hy].
  rewrite Hx, Hy. cbn [mbind option_bind].
  set (rows := if ascending lats then reverse (map (map mask_cell) data)
               else map (map mask_cell) data).
  assert (Hrows : rows = map (map mask_cell) (north_to_south data lats)).
  { unfold rows, north_to_south. destruct (ascending lats); [|reflexivity].
    symmetry. apply fmap_reverse. }
  assert (Hlen : Forall (fun row => length row = length lons) (north_to_south data lats)).
  { unfold north_to_south. destruct (ascending lats); [|exact Hshape].
    now apply Forall_reverse. }
  eexists. eexists. split; [reflexivity|].
  unfold read_asc_file. cbn [read_header app].
  change ("ncols " ++ ?x) with ("ncols" ++ " " ++ x).
  change ("nrows " ++ ?x) with ("nrows" ++ " " ++ x).
  change ("xllcorner " ++ ?x) with ("xllcorner" ++ " " ++ x).
  change ("yllcorner " ++ ?x) with ("yllcorner" ++ " " ++ x).
  change ("cellsize " ++ ?x) with ("cellsize" ++ " " ++ x).
  rewrite !header_entry_int by first [lia | split; [discriminate | reflexivity]].
  cbn [mbind option_bind].
  rewrite !header_entry_float by (split; [discriminate | reflexivity]).
  cbn [mbind option_bind].
  change (header_entry "NODATA_value -9999") with (Some (Some ("nodata_value", NODATA))).
  cbn [mbind option_bind drop].
  rewrite drop_0, Hrows, read_written_rows.
  - cbn [mbind option_bind].
    rewrite (rectangular_same_length (length lons)).
    + rewrite lookup_insert_eq. cbn [default from_option]. unfold Datatypes.id.
      split; [|apply lookup_insert_eq].
      f_equal. f_equal. rewrite !map_map. apply map_ext. intros row.
      rewrite !map_map. apply map_ext. intros v. apply unmask_read_value.
    + rewrite !Forall_fmap. eapply Forall_impl; [exact Hlen|].
      intros row Hr. cbn. now rewrite !length_map.
  - rewrite Forall_fmap. eapply Forall_impl; [exact Hlen|].
    intros row Hr. cbn. intros E. apply (f_equal length) in E.
    rewrite length_map, Hr in E. destruct lons; [congruence | discriminate].
Qed.

End RasterFacts.

Section RasterClaims.
Import Float Text Raster.

Lemma unmasked_cells (nd : Q) (rows : array) :
  Forall (fun q => ~ q == nd) (valid_cells (map (map (unmask_cell nd)) rows)).
Proof.
  unfold valid_cells. rewrite Forall_forall. intros q Hq.
  apply list_elem_of_omap in Hq as (v & Hv & Hq).
  apply list_elem_of_In, in_concat in Hv as (row & Hrow & Hv).
  apply list_elem_of_In in Hrow, Hv.
  apply list_elem_of_fmap in Hrow as (r & -> & _).
  apply list_elem_of_fmap in Hv as (x & -> & _).
  unfold unmask_cell in Hq. destruct x as [x| | |]; try discriminate.
  destruct (Qeq_bool x nd) eqn:E; [discriminate|].
  inversion Hq; subst. now apply Qeq_bool_neq.
Qed.

Lemma statistics_skip_sentinel (lines : list string) (header : gmap string Q) (arr : array) :
  read_asc_file lines = Some (header, arr) ->
  Forall (fun q => ~ q == default NODATA (header !! "nodata_value")) (valid_cells arr).
Proof.
  unfold read_asc_file.
  destruct (read_header 6 lines ∅) as [h|]; [|discriminate]. cbn [mbind option_bind].
  destruct (read_rows (drop 6 lines)) as [rows|]; [|discriminate]. cbn [mbind option_bind].
  destruct (rectangular rows); [|discriminate].
  intros [= <- <-]. apply unmasked_cells.
Qed.

Lemma Qmin_choice (x y : Q) : Qmin x y = x \/ Qmin x y = y.
Proof.
  unfold Qmin, GenericMinMax.gmin. destruct (Qcompare x y); auto.
Qed.

Lemma Qmax_choice (x y : Q) : Qmax x y = x \/ Qmax x y = y.
Proof.
  unfold Qmax, GenericMinMax.gmax. destruct (Qcompare x y); auto.
Qed.

(** A finite minimum or maximum is one of the cells. *)
Lemma fold_fmin_elem (v : fval) (l : list fval) (q : Q) :
  foldr fmin v l = Fin q -> Fin q ∈ v :: l.
Proof.
  revert q. induction l as [|w l IH]; intros q; cbn [foldr].
  - intros ->. left.
  - destruct (foldr fmin v l) as [m| | |] eqn:Em, w as [x| | |]; cbn [fmin];
      try discriminate; intros [= <-]; try (right; left);
      try (specialize (IH _ eq_refl); apply elem_of_cons in IH as [IH|IH];
           [rewrite IH; left | right; now right]).
    destruct (Qmin_choice x m) as [->| ->]; [right; left|].
    specialize (IH _ eq_refl). apply elem_of_cons in IH as [IH|IH];
      [rewrite IH; left | right; now right].
Qed.

Lemma fold_fmax_elem (v : fval) (l : list fval) (q : Q) :
  foldr fmax v l = Fin q -> Fin q ∈ v :: l.
Proof.
  revert q. induction l as [|w l IH]; intros q; cbn [foldr].
  - intros ->. left.
  - destruct (foldr fmax v l) as [m| | |] eqn:Em, w as [x| | |]; cbn [fmax];
      try discriminate; intros [= <-]; try (right; left);
      try (specialize (IH _ eq_refl); apply elem_of_cons in IH as [IH|IH];
           [rewrite IH; left | right; now right]).
    destruct (Qmax_choice x m) as [->| ->]; [right; left|].
    specialize (IH _ eq_refl). apply elem_of_cons in IH as [IH|IH];
      [rewrite IH; left | right; now right].
Qed.

Lemma finite_cell_valid (data : array) (q : Q) : Fin q ∈ concat data -> q ∈ valid_cells data.
Proof.
  intros H. unfold valid_cells. apply list_elem_of_omap. now exists (Fin q).
Qed.

Lemma fold_Qmin_elem (x : Q) (l : list Q) : foldr Qmin x l ∈ x :: l.
Proof.
  induction l as [|y l IH]; cbn [foldr]; [left|].
  unfold Qmin at 1, GenericMinMax.gmin. destruct (Qcompare y (foldr Qmin x l)).
  - right. left.
  - right. left.
  - apply elem_of_cons in IH as [->|IH]; [left | right; now right].
Qed.

Lemma range_skips_sentinel (lines : list string) (header : gmap string Q)
    (arr : array) (v : Q) :
  read_asc_file lines = Some (header, arr) ->
  nanmin arr = Some (Fin v) \/ nanmax arr = Some (Fin v) ->
  ~ v == default NODATA (header !! "nodata_value").
Proof.
  intros Hread Hv. pose proof (statistics_skip_sentinel _ _ _ Hread) as Hall.
  rewrite Forall_forall in Hall. apply Hall. apply finite_cell_valid.
  unfold nanmin, nanmax in Hv.
  destruct (concat arr) as [|x l]; [destruct Hv; discriminate|].
  destruct Hv as [[= E]|[= E]]; [now apply fold_fmin_elem | now apply fold_fmax_elem].
Qed.

Lemma roundtrip_cell_finite (q : Q) :
  (roundtrip_cell (Fin q) = NaN /\ round_to 4 q == NODATA)
  \/ (exists q', roundtrip_cell (Fin q) = Fin q'
                 /\ (q' - q <= 1 # 20000)%Q /\ (q - q' <= 1 # 20000)%Q).
Proof.
  cbn [roundtrip_cell]. destruct (Qeq_bool (round_to 4 q) NODATA) eqn:E.
  - left. split; [reflexivity | now apply Qeq_bool_eq].
  - right. exists (round_to 4 q). split; [reflexivity | apply round_to_error].
Qed.

(** C3, as stated, fails.  A layer whose latitudes ascend is written north
    to south, so it reads back upside down; and a finite cell equal to the
    sentinel -9999 reads back as NaN. *)
Lemma raster_round_trip_counterexample :
  (snd <$> (save_monthly_layer [[Fin 1]; [Fin 2]] [0%Q] [0%Q; 1%Q] ≫= read_asc_file)
   = Some [[Fin 2]; [Fin 1]]
   /\ ~ reproduces [[Fin 1]; [Fin 2]] [[Fin 2]; [Fin 1]])
  /\ (snd <$> (save_monthly_layer [[Fin (-9999)]] [0%Q] [0%Q] ≫= read_asc_file)
      = Some [[NaN]]
      /\ ~ reproduces [[Fin (-9999)]] [[NaN]]).
Proof.
  split; split.
  - vm_compute. reflexivity.
  - intros H. apply Forall2_cons_1 in H as [H _].
    apply Forall2_cons_1 in H as [(q' & E & H1 & H2) _].
    inversion E; subst q'. vm_compute in H2. now apply H2.
  - vm_compute. reflexivity.
  - intros H. apply Forall2_cons_1 in H as [H _].
    apply Forall2_cons_1 in H as [(q' & E & _) _]. discriminate.
Qed.

(** C3, amended.  A layer with one value per longitude in each row is
    written and read back as the same array laid out north to south (turned
    upside down when its latitudes ascend).  There a NaN or infinite cell
    is NaN; a finite cell is its value rounded to four decimals, or NaN
    when that rounded value is the sentinel -9999.  In any array the reader
    returns, the cells the statistics range over differ from the
    sentinel, and so do the minimum and the maximum reported. *)
Theorem raster_round_trip (data : array) (lons lats : list Q) :
  lons <> [] -> lats <> [] ->
  Forall (fun row => length row = length lons) data ->
  (exists lines header,
      save_monthly_layer data lons lats = Some lines
      /\ read_asc_file lines
         = Some (header, map (map roundtrip_cell) (north_to_south data lats)))
  /\ (forall v, is_finite v = false -> roundtrip_cell v = NaN)
  /\ (forall q,
        (roundtrip_cell (Fin q) = NaN /\ round_to 4 q == NODATA)
        \/ (exists q', roundtrip_cell (Fin q) = Fin q'
                       /\ (q' - q <= 1 # 20000)%Q /\ (q - q' <= 1 # 20000)%Q))
  /\ (forall lines header arr,
        read_asc_file lines = Some (header, arr) ->
        Forall (fun q => ~ q == default NODATA (header !! "nodata_value"))
               (valid_cells arr))
  /\ (forall lines header arr v,
        read_asc_file lines = Some (header, arr) ->
        nanmin arr = Some (Fin v) \/ nanmax arr = Some (Fin v) ->
        ~ v == default NODATA (header !! "nodata_value")).
Proof.
  intros Hlons Hlats Hshape. split; [|split; [|split; [|split]]].
  - destruct (written_file_reads_back data lons lats Hlons Hlats Hshape)
      as (lines & header & Hw & Hr & _).
    now exists lines, header.
  - intros [q| | |]; [discriminate | reflexivity..].
  - apply roundtrip_cell_finite.
  - apply statistics_skip_sentinel.
  - apply range_skips_sentinel.
Qed.

Lemma raster_round_trip_witness :
  exists lines header,
    save_monthly_layer [[Fin (1 # 3); NaN]; [PInf; Fin 25]] [170%Q; 171%Q] [-77; -76]%Q
    = Some lines
    /\ read_asc_file lines
       = Some (header, [[NaN; Fin 25]; [Fin (3333 # 10000); NaN]]).
Proof.
  apply (raster_round_trip [[Fin (1 # 3); NaN]; [PInf; Fin 25]] [170%Q; 171%Q] [-77; -76]%Q).
  - discriminate.
  - discriminate.
  - repeat constructor.
Defined.

End RasterClaims.

(** ** Environmental suitability (CMEMS_Maxent.py) *)

Section EnvironmentFacts.
Import Maxent.
Local Open Scope R_scope.

Lemma grid_mul_map (f g : R -> R) (a : grid) :
  grid_mul (grid_map f a) (grid_map g a) = grid_map (fun x => f x * g x) a.
Proof.
  unfold grid_mul, grid_map.
  induction a as [|row a IH]; [reflexivity|].
  cbn [map zip_with]. f_equal; [|exact IH].
  induction row as [|x row IHr]; [reflexivity|].
  cbn [map zip_with]. now f_equal.
Qed.

Lemma grid_map_map (f g : R -> R) (a : grid) :
  grid_map f (grid_map g a) = grid_map (fun x => f (g x)) a.
Proof.
  unfold grid_map. rewrite map_map. apply map_ext. intros row. apply map_map.
Qed.

Lemma grid_map_ext (f g : R -> R) (a : grid) :
  (forall x, f x = g x) -> grid_map f a = grid_map g a.
Proof.
  intros H. unfold grid_map. apply map_ext. intros row. now apply map_ext.
Qed.

Lemma environmental_suitability_cells (species_data : list observation)
    (env_stats : gmap string EnvStat) (lat_mesh lon_mesh : grid) :
  (2 <= size env_stats)%nat ->
  _calculate_environmental_suitability species_data env_stats lat_mesh lon_mesh
  = grid_map (score_product latitude_proxies env_stats) lat_mesh.
Proof.
  intros Hsize. unfold _calculate_environmental_suitability.
  destruct (Nat.ltb_spec (size env_stats) 2) as [Hlt|_]; [lia|].
  unfold score_product, latitude_proxies, covariate_score, gaussian_score, ones_like.
  cbn [map foldr fst snd].
  destruct (env_stats !! "TempW"%string) as [st|];
    destruct (env_stats !! "Detph"%string) as [sd|];
    rewrite ?grid_map_map, ?grid_mul_map, ?grid_map_map, ?grid_mul_map;
    apply grid_map_ext; intros lat; ring.
Qed.

Lemma unproxied_term_is_one (species_data : list observation)
    (env_stats : gmap string EnvStat) (lat_mesh lon_mesh : grid) :
  (2 <= size env_stats)%nat ->
  env_stats !! "TempW"%string = None ->
  env_stats !! "Detph"%string = None ->
  _calculate_environmental_suitability species_data env_stats lat_mesh lon_mesh
  = grid_map (fun _ => 1) lat_mesh.
Proof.
  intros Hsize Ht Hd. unfold _calculate_environmental_suitability.
  destruct (Nat.ltb_spec (size env_stats) 2) as [Hlt|_]; [lia|].
  now rewrite Ht, Hd.
Qed.

(** C10. With two or more usable covariates, none of them water temperature
    or depth, the environmental term is 1 at every cell; with fewer than two
    it is 1/2 at every cell. *)
Theorem environmental_term_uniform_one (species_data : list observation)
    (env_stats : gmap string EnvStat) (lat_mesh lon_mesh : grid) :
  (2 <= size env_stats)%nat ->
  env_stats !! "TempW"%string = None ->
  env_stats !! "Detph"%string = None ->
  _calculate_environmental_suitability species_data env_stats lat_mesh lon_mesh
  = grid_map (fun _ => 1) lat_mesh
  /\ forall few : gmap string EnvStat, (size few < 2)%nat ->
       _calculate_environmental_suitability species_data few lat_mesh lon_mesh
       = grid_map (fun _ => 1 * (1 / 2)) lat_mesh.
Proof.
  intros Hsize Ht Hd. split.
  - now apply unproxied_term_is_one.
  - intros few Hfew. unfold _calculate_environmental_suitability.
    destruct (Nat.ltb_spec (size few) 2) as [_|Hge]; [|lia].
    unfold ones_like. now rewrite grid_map_map.
Qed.

Lemma salinity_and_pH_size : size salinity_and_pH = 2%nat.
Proof.
  unfold salinity_and_pH.
  rewrite map_size_insert_None by (rewrite lookup_insert_ne by discriminate; apply lookup_empty).
  rewrite map_size_insert_None by apply lookup_empty.
  now rewrite map_size_empty.
Qed.

Lemma environmental_term_uniform_one_witness :
  _calculate_environmental_suitability [] salinity_and_pH [[-70; -70]; [-71; -71]] [[170; 171]; [170; 171]]
  = [[1; 1]; [1; 1]].
Proof.
  apply (environmental_term_uniform_one [] salinity_and_pH
           [[-70; -70]; [-71; -71]] [[170; 171]; [170; 171]]).
  - rewrite salinity_and_pH_size. lia.
  - reflexivity.
  - reflexivity.
Defined.

End EnvironmentFacts.

Section StatsFacts.
Import Maxent.
Local Open Scope R_scope.

Variable quantile : R -> list R -> R.

Lemma stats_fold (columns : list string) (species_data : list observation)
    (var : string) (vars : list string) : forall m : gmap string EnvStat,
  fold_left
    (fun env_stats var =>
       if bool_decide (var ∈ columns) then
         let values := omap (fun r => env r var) species_data in
         if (5 <? length values)%nat then
           <[var := mk_stat (np_mean values) (series_std values)
                            (default 0 (rmin values)) (default 0 (rmax values))
                            (quantile (1/4) values) (quantile (3/4) values)]> env_stats
         else env_stats
       else env_stats)
    vars m !! var
  = if decide (var ∈ vars /\ usable columns species_data var)
    then Some (summary quantile (samples species_data var))
    else m !! var.
Proof.
  induction vars as [|v vars IH]; intros m.
  - cbn [fold_left]. destruct (decide _) as [[H _]|_]; [|reflexivity].
    now apply elem_of_nil in H.
  - cbn [fold_left]. rewrite IH. clear IH.
    destruct (decide (var ∈ vars /\ usable columns species_data var)) as [[Hin Hu]|Hn].
    + rewrite decide_True; [reflexivity|]. split; [now right | exact Hu].
    + destruct (decide (var = v)) as [->|Hne].
      * unfold usable, samples in *.
        destruct (bool_decide_reflect (v ∈ columns)) as [Hc|Hc].
        -- destruct (Nat.ltb_spec 5 (length (omap (fun r => env r v) species_data))) as [Hl|Hl].
           ++ rewrite lookup_insert_eq, decide_True; [reflexivity|].
              split; [left | split; [exact Hc | lia]].
           ++ rewrite decide_False; [reflexivity|]. intros (_ & _ & Hl'). lia.
        -- rewrite decide_False; [reflexivity|]. intros (_ & Hc' & _). contradiction.
      * rewrite decide_False.
        -- destruct (bool_decide (v ∈ columns)); [|reflexivity].
           destruct (5 <? _)%nat; [|reflexivity].
           now rewrite lookup_insert_ne.
        -- intros [Hin Hu]. apply Hn. split; [|exact Hu].
           apply elem_of_cons in Hin as [?|?]; [contradiction | assumption].
Qed.

Lemma environmental_stats_lookup (columns : list string)
    (species_data : list observation) (var : string) :
  _calculate_environmental_stats quantile columns species_data !! var
  = if decide (var ∈ env_vars /\ usable columns species_data var)
    then Some (summary quantile (samples species_data var))
    else None.
Proof.
  unfold _calculate_environmental_stats. rewrite stats_fold.
  destruct (decide _); [reflexivity | apply lookup_empty].
Qed.

End StatsFacts.

Section EnvironmentClaim.
Import Maxent.
Local Open Scope R_scope.

Lemma exp_neg_lt_1 (x : R) : x < 0 -> exp x < 1.
Proof. intros H. rewrite <- exp_0. now apply exp_increasing. Qed.

(** C1, as stated, fails: whatever latitude proxy and positive floor one
    assumes for each covariate, the product of the scores of all usable
    covariates is not what the code computes.  With usable statistics for
    salinity and pH only, the code's term is 1 at every cell. *)
Lemma environmental_term_counterexample :
  _calculate_environmental_suitability [] salinity_and_pH [[-70]] [[170]] = [[1]]
  /\ ~ exists (proxy : string -> R -> R) (floor : string -> R),
         (forall var, 0 < floor var)
         /\ forall (env_stats : gmap string EnvStat) (lat_mesh : grid),
              (2 <= size env_stats)%nat ->
              _calculate_environmental_suitability [] env_stats lat_mesh lat_mesh
              = grid_map
                  (score_product
                     (map (fun var => (var, proxy var, floor var)) env_vars) env_stats)
                  lat_mesh.
Proof.
  split; [reflexivity|].
  intros (proxy & floor & Hfloor & H).
  set (sal := mk_stat (proxy "Salinity"%string 0 + 1) 0 0 0 0 0).
  set (ph := mk_stat (proxy "pH"%string 0) 0 0 0 0 0).
  set (stats := <["Salinity"%string := sal]> (<["pH"%string := ph]> (∅ : gmap string EnvStat))).
  assert (Hsize : size stats = 2%nat).
  { unfold stats.
    rewrite map_size_insert_None by (rewrite lookup_insert_ne by discriminate; apply lookup_empty).
    rewrite map_size_insert_None by apply lookup_empty.
    now rewrite map_size_empty. }
  specialize (H stats [[0]] ltac:(lia)).
  rewrite (unproxied_term_is_one [] stats [[0]] [[0]] ltac:(lia) eq_refl eq_refl) in H.
  cbn [grid_map map] in H. injection H as H.
  unfold score_product, env_vars, covariate_score in H.
  cbn [map foldr fst snd] in H.
  change (stats !! "TempW"%string) with (@None EnvStat) in H.
  change (stats !! "Salinity"%string) with (Some sal) in H.
  change (stats !! "Detph"%string) with (@None EnvStat) in H.
  change (stats !! "pH"%string) with (Some ph) in H.
  change (stats !! "CHL"%string) with (@None EnvStat) in H.
  change (stats !! "O2Con"%string) with (@None EnvStat) in H.
  cbn [stat_mean stat_std sal ph] in H. unfold gaussian_score in H.
  pose proof (Hfloor "Salinity"%string) as Hs.
  pose proof (Hfloor "pH"%string) as Hp.
  replace ((proxy "pH"%string 0 - proxy "pH"%string 0) / (0 + floor "pH"%string)) with 0 in H
    by (field; lra).
  replace (- (1 / 2) * 0 ^ 2) with 0 in H by ring.
  rewrite exp_0 in H.
  assert (Hlt : exp (- (1 / 2)
                     * ((proxy "Salinity"%string 0 - (proxy "Salinity"%string 0 + 1))
                        / (0 + floor "Salinity"%string)) ^ 2) < 1).
  { apply exp_neg_lt_1.
    replace ((proxy "Salinity"%string 0 - (proxy "Salinity"%string 0 + 1))
             / (0 + floor "Salinity"%string))
      with (- / floor "Salinity"%string) by (field; lra).
    assert (0 < / floor "Salinity"%string) by now apply Rinv_0_lt_compat.
    nra. }
  lra.
Qed.

(** C1, amended.  With two or more usable covariates the environmental
    term at a cell is the product of Gaussian scores over the covariates
    that have a latitude proxy in the code, water temperature (floor 0.1)
    and depth (floor 50), each entering only when it has a usable
    statistic; any other covariate contributes no factor.  A statistic is
    usable when its column has at least 6 non-missing samples, and holds
    their mean and sample standard deviation. *)
Theorem environmental_term_product (quantile : R -> list R -> R)
    (species_data : list observation) (env_stats : gmap string EnvStat)
    (lat_mesh lon_mesh : grid) :
  (2 <= size env_stats)%nat ->
  _calculate_environmental_suitability species_data env_stats lat_mesh lon_mesh
  = grid_map (score_product latitude_proxies env_stats) lat_mesh
  /\ forall (columns : list string) (var : string),
       _calculate_environmental_stats quantile columns species_data !! var
       = if decide (var ∈ env_vars /\ usable columns species_data var)
         then Some (summary quantile (samples species_data var))
         else None.
Proof.
  intros Hsize. split.
  - now apply environmental_suitability_cells.
  - intros columns var. apply environmental_stats_lookup.
Qed.

Lemma temperature_and_salinity_size : size temperature_and_salinity = 2%nat.
Proof.
  unfold temperature_and_salinity.
  rewrite map_size_insert_None by (rewrite lookup_insert_ne by discriminate; apply lookup_empty).
  rewrite map_size_insert_None by apply lookup_empty.
  now rewrite map_size_empty.
Qed.

Lemma environmental_term_product_witness :
  _calculate_environmental_suitability [] temperature_and_salinity [[-78]] [[170]]
  = [[gaussian_score (-2 + (-78 + 80) * (1 / 2)) (-1) (1 / 2) (1 / 10) * (1 * 1)]].
Proof.
  apply (environmental_term_product (fun _ _ => 0) [] temperature_and_salinity
           [[-78]] [[170]]).
  rewrite temperature_and_salinity_size. lia.
Defined.

End EnvironmentClaim.

(** ** Combination and rescaling (CMEMS_Maxent.py) *)

Section GridFacts.
Import Maxent.
Local Open Scope R_scope.

Lemma grid_all_cells (P : R -> Prop) (a : grid) :
  grid_all P a <-> Forall P (ravel a).
Proof.
  unfold grid_all, ravel. induction a as [|row a IH]; cbn [concat].
  - split; constructor.
  - rewrite Forall_cons, Forall_app, IH. reflexivity.
Qed.

Lemma ravel_map (f : R -> R) (a : grid) : ravel (grid_map f a) = map f (ravel a).
Proof.
  unfold ravel, grid_map. induction a as [|row a IH]; [reflexivity|].
  cbn [map concat]. now rewrite map_app, IH.
Qed.

Lemma grid_all_map (P : R -> Prop) (f : R -> R) (a : grid) :
  (forall x, P (f x)) -> grid_all P (grid_map f a).
Proof.
  intros H. apply grid_all_cells. rewrite ravel_map, Forall_fmap.
  apply Forall_forall. intros x _. apply H.
Qed.

Lemma has_shape_map {A B} (r c : nat) (f : A -> B) (a : list (list A)) :
  has_shape r c a -> has_shape r c (map (map f) a).
Proof.
  intros [Hr Hc]. split; [now rewrite length_map|].
  rewrite Forall_fmap. eapply Forall_impl; [exact Hc|].
  intros row Hrow. cbn. now rewrite length_map.
Qed.

Lemma zip_rows_shape {A B C} (r c : nat) (F : A -> B -> C)
    (a : list (list A)) (b : list (list B)) :
  length a = r -> Forall (fun row => length row = c) a ->
  length b = r -> Forall (fun row => length row = c) b ->
  has_shape r c (zip_with (zip_with F) a b).
Proof.
  intros Ha Hca Hb Hcb. split.
  - rewrite length_zip_with. lia.
  - clear Ha Hb. revert b Hcb. induction Hca as [|ra a Hra _ IH]; intros b Hcb.
    + constructor.
    + destruct Hcb as [|rb b Hrb Hcb]; [constructor|].
      cbn [zip_with]. constructor; [|now apply IH].
      rewrite length_zip_with. lia.
Qed.

Lemma zip_rows_all {A B} (P : R -> Prop) (F : A -> B -> R)
    (a : list (list A)) (b : list (list B)) :
  (forall x y, P (F x y)) -> grid_all P (zip_with (zip_with F) a b).
Proof.
  intros H. unfold grid_all. revert b. induction a as [|ra a IH]; intros b; [constructor|].
  destruct b as [|rb b]; [constructor|].
  cbn [zip_with]. constructor; [|apply IH].
  clear IH. revert rb. induction ra as [|x ra IHr]; intros rb; [constructor|].
  destruct rb as [|y rb]; [constructor|]. cbn [zip_with]. constructor; [apply H | apply IHr].
Qed.

Lemma grid_mul_all_nonneg (a b : grid) :
  grid_all (fun x => 0 <= x) a -> grid_all (fun x => 0 <= x) b ->
  grid_all (fun x => 0 <= x) (grid_mul a b).
Proof.
  unfold grid_all, grid_mul. intros Ha. revert b.
  induction Ha as [|ra a Hra _ IH]; intros b Hb; [constructor|].
  destruct Hb as [|rb b Hrb Hb]; [constructor|].
  cbn [zip_with]. constructor; [|now apply IH].
  clear -Hra Hrb. revert rb Hrb. induction Hra as [|x ra Hx _ IHr]; intros rb Hrb; [constructor|].
  destruct Hrb as [|y rb Hy Hrb]; [constructor|].
  cbn [zip_with]. constructor; [now apply Rmult_le_pos | now apply IHr].
Qed.

Lemma ravel_length {A} (r c : nat) (a : list (list A)) :
  has_shape r c a -> length (ravel a) = (r * c)%nat.
Proof.
  intros [Hr Hc]. subst r. unfold ravel.
  induction Hc as [|row a Hrow _ IH]; [reflexivity|].
  cbn [concat length]. rewrite length_app, IH, Hrow. lia.
Qed.

Lemma chunks_shape {A} (r c : nat) : forall flat : list A,
  length flat = (r * c)%nat -> has_shape r c (chunks r c flat).
Proof.
  induction r as [|r IH]; intros flat Hlen; [split; [reflexivity | constructor]|].
  cbn [chunks]. destruct (IH (drop c flat)) as [Hr Hc].
  { rewrite length_drop. lia. }
  split; [cbn [length]; now rewrite Hr|].
  constructor; [|exact Hc]. rewrite length_take. lia.
Qed.

Lemma chunks_all (P : R -> Prop) (r c : nat) : forall flat : list R,
  Forall P flat -> grid_all P (chunks r c flat).
Proof.
  induction r as [|r IH]; intros flat H; [constructor|].
  cbn [chunks]. constructor; [now apply Forall_take | apply IH; now apply Forall_drop].
Qed.

Lemma rsum_nonneg (l : list R) : Forall (fun x => 0 <= x) l -> 0 <= rsum l.
Proof.
  unfold rsum. induction 1 as [|x l Hx _ IH]; cbn [foldr]; lra.
Qed.

Lemma weighted_sum_nonneg (w counts : list R) :
  Forall (fun x => 0 <= x) w -> Forall (fun x => 0 <= x) counts ->
  0 <= rsum (zip_with Rmult w counts).
Proof.
  intros Hw Hc. apply rsum_nonneg. revert counts Hc.
  induction Hw as [|x w Hx _ IH]; intros counts Hc; [constructor|].
  destruct Hc as [|y counts Hy Hc]; [constructor|].
  cbn [zip_with]. constructor; [now apply Rmult_le_pos | now apply IH].
Qed.

(** The maximum of a non-empty array is one of its cells and bounds all. *)
Lemma rmax_spec (l : list R) :
  l <> [] -> exists m, rmax l = Some m /\ m ∈ l /\ Forall (fun x => x <= m) l.
Proof.
  destruct l as [|x l]; [congruence|]. intros _. cbn [rmax].
  exists (foldr Rmax x l). split; [reflexivity|].
  induction l as [|y l [Hin Hall]]; cbn [foldr].
  - split; [left | apply Forall_cons; split; [lra | constructor]].
  - apply Forall_cons in Hall as [Hx Hall]. split.
    + unfold Rmax at 1. destruct (Rle_dec y (foldr Rmax x l)).
      * apply elem_of_cons in Hin as [E|Hin]; [rewrite E at 1; left | right; now right].
      * right. left.
    + pose proof (Rmax_l y (foldr Rmax x l)). pose proof (Rmax_r y (foldr Rmax x l)).
      apply Forall_cons. split; [lra|]. apply Forall_cons. split; [lra|].
      eapply Forall_impl; [exact Hall|]. intros z Hz. cbn in Hz. lra.
Qed.

Lemma rmax_unique (l : list R) (m : R) :
  m ∈ l -> Forall (fun x => x <= m) l -> rmax l = Some m.
Proof.
  intros Hin Hall.
  destruct (rmax_spec l) as (m' & E & Hin' & Hall'); [intros ->; now apply elem_of_nil in Hin|].
  rewrite E. f_equal. rewrite Forall_forall in Hall, Hall'.
  apply Rle_antisym; [now apply Hall | now apply Hall'].
Qed.

End GridFacts.

Section RangeFacts.
Import Maxent.
Local Open Scope R_scope.

Lemma rmin_spec (l : list R) :
  l <> [] -> exists m, rmin l = Some m /\ m ∈ l /\ Forall (fun x => m <= x) l.
Proof.
  destruct l as [|x l]; [congruence|]. intros _. cbn [rmin].
  exists (foldr Rmin x l). split; [reflexivity|].
  induction l as [|y l [Hin Hall]]; cbn [foldr].
  - split; [left | apply Forall_cons; split; [lra | constructor]].
  - apply Forall_cons in Hall as [Hx Hall]. split.
    + unfold Rmin at 1. destruct (Rle_dec y (foldr Rmin x l)).
      * right. left.
      * apply elem_of_cons in Hin as [E|Hin]; [rewrite E at 1; left | right; now right].
    + pose proof (Rmin_l y (foldr Rmin x l)). pose proof (Rmin_r y (foldr Rmin x l)).
      apply Forall_cons. split; [lra|]. apply Forall_cons. split; [lra|].
      eapply Forall_impl; [exact Hall|]. intros z Hz. cbn in Hz. lra.
Qed.

Lemma range_bounds (l : list R) (x : R) :
  x ∈ l -> default 0 (rmin l) <= x <= default 0 (rmax l).
Proof.
  intros Hx.
  assert (Hne : l <> []) by (intros ->; now apply elem_of_nil in Hx).
  destruct (rmin_spec l Hne) as (lo & -> & _ & Hlo).
  destruct (rmax_spec l Hne) as (hi & -> & _ & Hhi).
  rewrite Forall_forall in Hlo, Hhi. cbn. split; [now apply Hlo | now apply Hhi].
Qed.

Lemma up_0 : up 0 = 1%Z.
Proof.
  destruct (archimed 0) as [H1 H2].
  assert (0 < up 0)%Z by (apply lt_IZR; lra).
  assert (up 0 <= 1)%Z by (apply le_IZR; lra).
  lia.
Qed.

Lemma arange_empty (a step : R) : arange a a step = [].
Proof.
  unfold arange, np_ceil.
  replace ((a - a) / step) with 0 by (unfold Rdiv; ring).
  rewrite Ropp_0, up_0. reflexivity.
Qed.

Lemma arange_head (a b step x : R) (rest : list R) :
  arange a b step = x :: rest -> x = a.
Proof.
  unfold arange. destruct (Z.to_nat _) as [|n]; [discriminate|].
  cbn [seq map]. intros [= <- _]. cbn [INR]. ring.
Qed.

Lemma rsum_zero (l : list R) :
  Forall (fun x => 0 <= x) l -> rsum l = 0 -> Forall (fun x => x = 0) l.
Proof.
  unfold rsum. induction 1 as [|x l Hx Hl IH]; cbn [foldr]; intros E; [constructor|].
  assert (H0 : 0 <= foldr Rplus 0 l) by (apply rsum_nonneg; exact Hl).
  constructor; [lra | apply IH; lra].
Qed.

(** A zero standard deviation: all values are equal. *)
Lemma np_std_zero (l : list R) :
  l <> [] -> np_std l = 0 -> Forall (fun x => x = np_mean l) l.
Proof.
  intros Hne Hstd. unfold np_std in Hstd.
  set (mu := np_mean l) in *.
  set (sq := map (fun x => (x - mu) ^ 2) l) in *.
  assert (Hsq : Forall (fun x => 0 <= x) sq).
  { unfold sq. rewrite Forall_fmap. apply Forall_forall. intros x _. cbn.
    apply pow2_ge_0. }
  assert (Hlen : 0 < INR (length sq)).
  { unfold sq. rewrite length_map. apply lt_0_INR.
    destruct l; [congruence | cbn; lia]. }
  assert (Hmean : 0 <= np_mean sq).
  { unfold np_mean. apply Rmult_le_pos; [now apply rsum_nonneg|].
    left. now apply Rinv_0_lt_compat. }
  apply sqrt_eq_0 in Hstd; [|exact Hmean].
  assert (Hsum : rsum sq = 0).
  { unfold np_mean in Hstd.
    replace (rsum sq) with (rsum sq / INR (length sq) * INR (length sq)) by (field; lra).
    rewrite Hstd. ring. }
  pose proof (rsum_zero sq Hsq Hsum) as Hall.
  unfold sq in Hall. rewrite Forall_fmap in Hall.
  eapply Forall_impl; [exact Hall|]. cbn. intros x Hx.
  assert (E : (x - mu) * (x - mu) = 0) by (rewrite <- Hx; ring).
  apply Rmult_integral in E. lra.
Qed.

End RangeFacts.

Section FiniteFacts.
Import Maxent.
Local Open Scope R_scope.

Lemma all_numbers_Some (l : list R) : all_numbers (map Some l) = Some l.
Proof.
  unfold all_numbers. apply mapM_Some.
  induction l as [|x l IH]; cbn [map]; constructor; [reflexivity | exact IH].
Qed.

Lemma ravel_finite (a : grid) : ravel (finite a) = map Some (ravel a).
Proof.
  unfold ravel, finite. induction a as [|row a IH]; [reflexivity|].
  cbn [map concat]. now rewrite map_app, IH.
Qed.

Lemma xgrid_max_finite (a : grid) : xgrid_max (finite a) = Some <$> grid_max a.
Proof.
  unfold xgrid_max, grid_max. rewrite ravel_finite.
  destruct (ravel a) as [|x l]; [reflexivity|].
  change (map Some (x :: l)) with (Some x :: map Some l) at 1. cbv iota.
  change (Some x :: map Some l) with (map Some (x :: l)).
  now rewrite all_numbers_Some.
Qed.

Lemma rescale_finite (m : R) (a : grid) :
  map (map (fmap (fun x => x / m))) (finite a) = finite (grid_map (fun x => x / m) a).
Proof.
  unfold finite, grid_map. rewrite !map_map. apply map_ext. intros row.
  rewrite !map_map. reflexivity.
Qed.

Lemma finite_inj (a b : grid) : finite a = finite b -> a = b.
Proof.
  unfold finite. revert b. induction a as [|ra a IH]; intros [|rb b]; try discriminate;
    [reflexivity|].
  cbn [map]. intros [= Hr Ha]. f_equal; [|now apply IH].
  clear -Hr. revert rb Hr. induction ra as [|x ra IHr]; intros [|y rb]; try discriminate;
    [reflexivity|].
  cbn [map]. intros [= -> Hr]. f_equal. now apply IHr.
Qed.

Lemma combine_row (rd re : list R) :
  Forall (fun x => 0 <= x) (zip_with Rmult rd re) ->
  zip_with (fun d e => d ≫= fun d => np_sqrt (d * e)) (map Some rd) re
  = map Some (map sqrt (zip_with Rmult rd re)).
Proof.
  revert re. induction rd as [|x rd IH]; intros [|y re] H; try reflexivity.
  cbn [zip_with map] in *. apply Forall_cons in H as [Hxy H].
  rewrite (IH re H). f_equal. cbn. unfold np_sqrt.
  destruct (Rlt_dec (x * y) 0); [lra | reflexivity].
Qed.

(** On a density without NaN whose products with the environmental term
    are not negative, the combination is the grid of square roots. *)
Lemma combine_finite (d e : grid) :
  grid_all (fun x => 0 <= x) (grid_mul d e) ->
  zip_with (zip_with (fun d e => d ≫= fun d => np_sqrt (d * e))) (finite d) e
  = finite (grid_map sqrt (grid_mul d e)).
Proof.
  unfold grid_all, grid_mul, grid_map, finite.
  revert e. induction d as [|rd d IH]; intros [|re e] H; try reflexivity.
  cbn [zip_with map] in *. apply Forall_cons in H as [Hr H].
  now rewrite (IH e H), (combine_row rd re Hr).
Qed.

Lemma products_numbers (w counts : list R) :
  zip_with (fun w c => (fun w => w * c) <$> w) (map Some w) counts
  = map Some (zip_with Rmult w counts).
Proof.
  revert counts. induction w as [|x w IH]; intros [|c counts]; try reflexivity.
  cbn [zip_with map]. now rewrite IH.
Qed.

Lemma nan_sum_numbers (w counts : list R) :
  nan_sum (zip_with (fun w c => (fun w => w * c) <$> w) (map Some w) counts)
  = Some (rsum (zip_with Rmult w counts)).
Proof.
  unfold nan_sum. now rewrite products_numbers, all_numbers_Some.
Qed.

Lemma gaussian_weight_number (bw d : R) :
  ~ (bw = 0 /\ d = 0) -> gaussian_weight bw d = Some (real_weight bw d).
Proof.
  intros H. unfold gaussian_weight, real_weight.
  destruct (Req_EM_T bw 0); [|reflexivity].
  destruct (Req_EM_T d 0); [tauto | reflexivity].
Qed.

Lemma real_weight_nonneg (bw d : R) : 0 <= real_weight bw d.
Proof.
  unfold real_weight. destruct (Req_EM_T bw 0); [lra | left; apply exp_pos].
Qed.

Lemma chunks_fmap {A B} (f : A -> B) (r c : nat) : forall flat : list A,
  chunks r c (map f flat) = map (map f) (chunks r c flat).
Proof.
  induction r as [|r IH]; intros flat; [reflexivity|].
  cbn [chunks map]. f_equal.
  - symmetry. apply fmap_take.
  - rewrite <- IH. f_equal. symmetry. apply fmap_drop.
Qed.

Lemma has_shape_finite (r c : nat) (a : grid) : has_shape r c a -> has_shape r c (finite a).
Proof. apply has_shape_map. Qed.

Lemma ncols_shape {A} (r c : nat) (a : list (list A)) : has_shape (S r) c a -> ncols a = c.
Proof.
  intros [Hr Hc]. destruct a as [|row a]; [discriminate|].
  apply Forall_cons in Hc as [Hrow _]. exact Hrow.
Qed.

(** The density of the SciPy path is a grid of numbers as soon as no
    weight is NaN: the bandwidth is not zero, or no distance is. *)
Lemma kernel_density_finite (r c : nat) (obs_lats obs_lons obs_counts : list R)
    (lat_mesh lon_mesh : grid) :
  has_shape (S r) c lat_mesh -> has_shape (S r) c lon_mesh ->
  Forall (fun x => 0 <= x) obs_counts ->
  (bandwidth (cdist (zip (ravel lon_mesh) (ravel lat_mesh)) (zip obs_lons obs_lats)) = 0 ->
   Forall (fun d => d <> 0)
          (concat (cdist (zip (ravel lon_mesh) (ravel lat_mesh)) (zip obs_lons obs_lats)))) ->
  exists k, kernel_density obs_lats obs_lons obs_counts lat_mesh lon_mesh = finite k
            /\ has_shape (S r) c k
            /\ grid_all (fun x => 0 <= x) k.
Proof.
  intros Hlat Hlon Hcounts Hbw. unfold kernel_density, reshape_like.
  rewrite (ncols_shape r c lat_mesh Hlat), (proj1 Hlat).
  set (distances := cdist (zip (ravel lon_mesh) (ravel lat_mesh)) (zip obs_lons obs_lats)) in *.
  set (bw := bandwidth distances) in *.
  exists (chunks (S r) c
            (map (fun ds => rsum (zip_with Rmult (map (real_weight bw) ds) obs_counts))
                 distances)).
  split; [|split].
  - unfold finite. rewrite <- (chunks_fmap Some). f_equal.
    rewrite !map_map. apply map_ext_in. intros ds Hds.
    rewrite <- nan_sum_numbers. f_equal. f_equal.
    rewrite map_map. apply map_ext_in. intros d Hd.
    apply gaussian_weight_number. intros [Hb Hd0].
    specialize (Hbw Hb). rewrite Forall_forall in Hbw.
    apply (Hbw d); [|exact Hd0].
    apply list_elem_of_In, in_concat. exists ds. now split.
  - apply chunks_shape. unfold distances, cdist. rewrite !length_map, length_zip.
    rewrite (ravel_length _ _ _ Hlat), (ravel_length _ _ _ Hlon). lia.
  - apply chunks_all. rewrite Forall_fmap. apply Forall_forall. intros ds _. cbn.
    apply weighted_sum_nonneg; [|exact Hcounts].
    rewrite Forall_fmap. apply Forall_forall. intros d _. apply real_weight_nonneg.
Qed.

(** One cell on the single observation: the only distance is zero, so is
    the bandwidth, and the weight is NaN. *)
Lemma kernel_density_nan :
  kernel_density [-70] [170] [3] [[-70]] [[170]] = [[None]].
Proof.
  unfold kernel_density, reshape_like, cdist, ravel, nan_sum, all_numbers.
  cbn [concat app zip_with map fst snd length ncols chunks take drop].
  assert (Ed : sqrt ((170 - 170) ^ 2 + (-70 - -70) ^ 2) = 0).
  { replace ((170 - 170) ^ 2 + (-70 - -70) ^ 2) with 0 by ring. apply sqrt_0. }
  rewrite Ed.
  assert (Eb : bandwidth [[0]] = 0).
  { unfold bandwidth, np_std, np_mean, rsum. cbn [concat app map foldr length INR].
    replace ((0 + 0) / 1) with 0 by field.
    replace (((0 - 0) ^ 2 + 0) / 1) with 0 by field.
    rewrite sqrt_0. ring. }
  rewrite Eb. unfold gaussian_weight.
  destruct (Req_EM_T 0 0) as [_|N]; [|now destruct N]. reflexivity.
Qed.

End FiniteFacts.

Section HabitatFacts.
Import Maxent.
Local Open Scope R_scope.

Lemma covariate_score_pos (env_stats : gmap string EnvStat) (lat : R)
    (c : string * (R -> R) * R) : 0 < covariate_score env_stats lat c.
Proof.
  unfold covariate_score, gaussian_score.
  destruct (env_stats !! fst (fst c)); [apply exp_pos | lra].
Qed.

Lemma score_product_pos (covariates : list (string * (R -> R) * R))
    (env_stats : gmap string EnvStat) (lat : R) :
  0 < score_product covariates env_stats lat.
Proof.
  unfold score_product. induction covariates as [|c cs IH]; cbn [map foldr]; [lra|].
  apply Rmult_lt_0_compat; [apply covariate_score_pos | exact IH].
Qed.

Lemma environmental_suitability_shape (r c : nat) (species_data : list observation)
    (env_stats : gmap string EnvStat) (lat_mesh lon_mesh : grid) :
  has_shape r c lat_mesh ->
  has_shape r c (_calculate_environmental_suitability species_data env_stats lat_mesh lon_mesh)
  /\ grid_all (fun x => 0 <= x)
       (_calculate_environmental_suitability species_data env_stats lat_mesh lon_mesh).
Proof.
  intros Hs. destruct (Nat.ltb_spec (size env_stats) 2) as [Hlt|Hge].
  - unfold _calculate_environmental_suitability.
    destruct (Nat.ltb_spec (size env_stats) 2) as [_|?]; [|lia].
    unfold ones_like. rewrite grid_map_map. split.
    + now apply has_shape_map.
    + apply grid_all_map. intros _. lra.
  - rewrite environmental_suitability_cells by exact Hge. split.
    + now apply has_shape_map.
    + apply grid_all_map. intros lat. left. apply score_product_pos.
Qed.

Lemma meshgrid_shape (lon_grid lat_grid : list R) :
  has_shape (length lat_grid) (length lon_grid) (fst (meshgrid lon_grid lat_grid))
  /\ has_shape (length lat_grid) (length lon_grid) (snd (meshgrid lon_grid lat_grid)).
Proof.
  unfold meshgrid, has_shape. cbn [fst snd]. rewrite !length_map.
  repeat split; rewrite Forall_fmap; apply Forall_forall; intros x _; cbn;
    [reflexivity | apply length_map].
Qed.

Lemma inverse_distance_nonneg (r c : nat) (obs_lats obs_lons obs_counts : list R)
    (lat_mesh lon_mesh : grid) :
  has_shape r c lat_mesh -> has_shape r c lon_mesh ->
  Forall (fun x => 0 <= x) obs_counts ->
  has_shape r c (inverse_distance_density obs_lats obs_lons obs_counts lat_mesh lon_mesh)
  /\ grid_all (fun x => 0 <= x)
       (inverse_distance_density obs_lats obs_lons obs_counts lat_mesh lon_mesh).
Proof.
  intros Hlat Hlon Hcounts. unfold inverse_distance_density. split.
  - destruct Hlat as [Hr1 Hc1], Hlon as [Hr2 Hc2]. now apply zip_rows_shape.
  - apply zip_rows_all. intros lat lon.
    apply weighted_sum_nonneg; [|exact Hcounts].
    rewrite Forall_fmap. apply Forall_forall. intros d Hd. cbn.
    assert (0 <= d).
    { clear -Hd. revert obs_lons Hd. induction obs_lats as [|la obs_lats IH];
        intros obs_lons Hd; [now apply elem_of_nil in Hd|].
      destruct obs_lons as [|lo obs_lons]; [now apply elem_of_nil in Hd|].
      cbn [zip_with] in Hd. apply elem_of_cons in Hd as [->|Hd]; [apply sqrt_pos|].
      eapply IH, Hd. }
    left. apply Rdiv_lt_0_compat; lra.
Qed.

Lemma rescaled_grid (combined : grid) (m : R) :
  grid_all (fun x => 0 <= x) combined ->
  grid_max combined = Some m ->
  let g := if Rlt_dec 0 m then grid_map (fun x => x / m) combined else combined in
  grid_all (fun x => 0 <= x <= 1) g
  /\ (0 < m -> grid_max g = Some 1)
  /\ (~ 0 < m -> m = 0 /\ g = combined /\ grid_all (fun x => x = 0) g)
  /\ ((exists x, x ∈ ravel combined /\ x <> 0) <-> 0 < m).
Proof.
  intros Hnn Hmax g.
  assert (Hne : ravel combined <> []).
  { intros E. unfold grid_max in Hmax. rewrite E in Hmax. discriminate. }
  destruct (rmax_spec _ Hne) as (m' & E & Hin & Hall).
  unfold grid_max in Hmax. rewrite E in Hmax. injection Hmax as ->.
  apply grid_all_cells in Hnn.
  assert (Hm0 : 0 <= m) by (rewrite Forall_forall in Hnn; now apply Hnn).
  assert (Hcells : forall x, x ∈ ravel combined -> 0 <= x <= m).
  { intros x Hx. rewrite Forall_forall in Hnn, Hall. split; [now apply Hnn | now apply Hall]. }
  subst g. destruct (Rlt_dec 0 m) as [Hpos|Hnpos].
  - repeat split.
    + apply grid_all_cells. rewrite ravel_map, Forall_fmap. apply Forall_forall.
      intros x Hx. cbn. destruct (Hcells x Hx).
      split; [unfold Rdiv; apply Rmult_le_pos; [lra | left; now apply Rinv_0_lt_compat]|].
      apply Rmult_le_reg_r with m; [lra|]. unfold Rdiv.
      rewrite Rmult_assoc, Rinv_l by lra. lra.
    + intros _. unfold grid_max. rewrite ravel_map. apply rmax_unique.
      * apply list_elem_of_fmap. exists m. split; [field; lra | exact Hin].
      * rewrite Forall_fmap. apply Forall_forall. intros x Hx. cbn.
        destruct (Hcells x Hx).
        apply Rmult_le_reg_r with m; [lra|]. unfold Rdiv.
        rewrite Rmult_assoc, Rinv_l by lra. lra.
    + contradiction.
    + contradiction.
    + contradiction.
    + intros _. exact Hpos.
    + intros _. exists m. split; [exact Hin | lra].
  - assert (Hz : m = 0) by lra. repeat split.
    + apply grid_all_cells, Forall_forall. intros x Hx. destruct (Hcells x Hx). lra.
    + intros Hpos. contradiction.
    + exact Hz.
    + apply grid_all_cells, Forall_forall. intros x Hx. destruct (Hcells x Hx). lra.
    + intros (x & Hx & Hx0). destruct (Hcells x Hx). lra.
    + intros Hpos. contradiction.
Qed.

Section WithAnalyzer.
Variable SCIPY_AVAILABLE : bool.
Variable gaussian_filter : xgrid -> xgrid.

Lemma empty_rows_ravel {A} (r : nat) (a : list (list A)) (b : grid) (F : A -> R -> option R) :
  has_shape r 0 b -> ravel (zip_with (zip_with F) a b) = [].
Proof.
  intros [_ Hb]. clear r. unfold ravel.
  revert a. induction Hb as [|row b Hrow _ IH]; intros [|arow a]; try reflexivity.
  cbn [zip_with concat]. rewrite IH.
  destruct row; [|discriminate]. now destruct arow.
Qed.

Lemma empty_grid_no_suitability (r : nat) (species_data : list observation)
    (env_stats : gmap string EnvStat) (lat_mesh lon_mesh : grid) :
  has_shape r 0 lat_mesh ->
  _calculate_habitat_suitability SCIPY_AVAILABLE gaussian_filter species_data env_stats
    lat_mesh lon_mesh = None.
Proof.
  intros Hs. unfold _calculate_habitat_suitability, combined_suitability, xgrid_max.
  destruct (environmental_suitability_shape r 0 species_data env_stats lat_mesh lon_mesh Hs)
    as [He _].
  now rewrite (empty_rows_ravel r _ _ _ He).
Qed.

Hypothesis filter_finite :
  forall r c g, has_shape r c g -> grid_all (fun x => 0 <= x) g ->
    exists g', gaussian_filter (finite g) = finite g'
               /\ has_shape r c g' /\ grid_all (fun x => 0 <= x) g'.

Lemma density_suitability_shape (r c : nat) (obs_lats obs_lons obs_counts : list R)
    (lat_mesh lon_mesh : grid) :
  has_shape (S r) c lat_mesh -> has_shape (S r) c lon_mesh ->
  Forall (fun x => 0 <= x) obs_counts ->
  (SCIPY_AVAILABLE = true ->
   bandwidth (cdist (zip (ravel lon_mesh) (ravel lat_mesh)) (zip obs_lons obs_lats)) = 0 ->
   Forall (fun d => d <> 0)
          (concat (cdist (zip (ravel lon_mesh) (ravel lat_mesh)) (zip obs_lons obs_lats)))) ->
  exists density,
    _calculate_density_suitability SCIPY_AVAILABLE gaussian_filter
      obs_lats obs_lons obs_counts lat_mesh lon_mesh = finite density
    /\ has_shape (S r) c density
    /\ grid_all (fun x => 0 <= x) density.
Proof.
  intros Hlat Hlon Hcounts Hbw. unfold _calculate_density_suitability.
  destruct SCIPY_AVAILABLE.
  - destruct (kernel_density_finite r c obs_lats obs_lons obs_counts lat_mesh lon_mesh
                Hlat Hlon Hcounts (Hbw eq_refl)) as (k & -> & Hs & Ha).
    now apply filter_finite.
  - eexists. split; [reflexivity|]. now apply inverse_distance_nonneg.
Qed.

(** The suitability grid of a mesh with at least one cell, when no weight
    of the density term is NaN. *)
Lemma habitat_suitability_finite (r c : nat) (species_data : list observation)
    (env_stats : gmap string EnvStat) (lat_mesh lon_mesh : grid) :
  has_shape (S r) (S c) lat_mesh -> has_shape (S r) (S c) lon_mesh ->
  Forall (fun r => 0 <= default 1 (Counts r)) species_data ->
  (SCIPY_AVAILABLE = true ->
   bandwidth (cdist (zip (ravel lon_mesh) (ravel lat_mesh))
                    (zip (map LONG species_data) (map LAT species_data))) = 0 ->
   Forall (fun d => d <> 0)
          (concat (cdist (zip (ravel lon_mesh) (ravel lat_mesh))
                         (zip (map LONG species_data) (map LAT species_data))))) ->
  exists density combined m suitability,
    _calculate_density_suitability SCIPY_AVAILABLE gaussian_filter
      (map LAT species_data) (map LONG species_data)
      (map (fun r => default 1 (Counts r)) species_data) lat_mesh lon_mesh = finite density
    /\ grid_all (fun x => 0 <= x) density
    /\ combined_suitability SCIPY_AVAILABLE gaussian_filter species_data env_stats
         lat_mesh lon_mesh = finite combined
    /\ grid_all (fun x => 0 <= x) combined
    /\ grid_max combined = Some m
    /\ _calculate_habitat_suitability SCIPY_AVAILABLE gaussian_filter species_data env_stats
         lat_mesh lon_mesh = Some (finite suitability)
    /\ has_shape (S r) (S c) suitability
    /\ grid_all (fun x => 0 <= x <= 1) suitability
    /\ ((exists x, x ∈ ravel combined /\ x <> 0) -> grid_max suitability = Some 1)
    /\ (m = 0 -> suitability = combined /\ grid_all (fun x => x = 0) suitability)
    /\ (0 < m \/ m = 0).
Proof.
  intros Hslat Hslon Hcounts Hbw.
  assert (Hc : Forall (fun x => 0 <= x) (map (fun r => default 1 (Counts r)) species_data))
    by now rewrite Forall_fmap.
  destruct (density_suitability_shape r (S c) (map LAT species_data) (map LONG species_data)
              _ lat_mesh lon_mesh Hslat Hslon Hc Hbw) as (density & Hd & Hds & Hdn).
  destruct (environmental_suitability_shape (S r) (S c) species_data env_stats lat_mesh
              lon_mesh Hslat) as [Hes Hen].
  set (environment :=
         _calculate_environmental_suitability species_data env_stats lat_mesh lon_mesh) in *.
  assert (Hprod : grid_all (fun x => 0 <= x) (grid_mul density environment))
    by now apply grid_mul_all_nonneg.
  set (combined := grid_map sqrt (grid_mul density environment)).
  assert (Hcomb : combined_suitability SCIPY_AVAILABLE gaussian_filter species_data env_stats
                    lat_mesh lon_mesh = finite combined).
  { unfold combined_suitability. fold environment. rewrite Hd. now apply combine_finite. }
  assert (Hshape : has_shape (S r) (S c) combined).
  { unfold combined. apply has_shape_map. unfold grid_mul.
    destruct Hds, Hes. now apply zip_rows_shape. }
  assert (Hnn : grid_all (fun x => 0 <= x) combined).
  { unfold combined. apply grid_all_map. intros x. apply sqrt_pos. }
  assert (Hne : ravel combined <> []).
  { intros E. apply (f_equal length) in E.
    rewrite (ravel_length _ _ _ Hshape) in E. cbn in E. lia. }
  destruct (rmax_spec _ Hne) as (m & Hmax & _).
  destruct (rescaled_grid combined m Hnn Hmax) as (Hin & Hone & Hzero & Hiff).
  exists density, combined, m,
    (if Rlt_dec 0 m then grid_map (fun x => x / m) combined else combined).
  split; [exact Hd|]. split; [exact Hdn|]. split; [exact Hcomb|]. split; [exact Hnn|].
  split; [exact Hmax|]. split; [|split; [|split; [exact Hin|split; [|split]]]].
  - unfold _calculate_habitat_suitability. rewrite Hcomb, xgrid_max_finite.
    unfold grid_max at 1. rewrite Hmax. cbn [fmap option_fmap option_map mbind option_bind].
    destruct (Rlt_dec 0 m); [now rewrite rescale_finite | reflexivity].
  - destruct (Rlt_dec 0 m); [now apply has_shape_map | exact Hshape].
  - intros Hx. apply Hone, Hiff, Hx.
  - intros Hm. destruct Hzero as (_ & Hg & Hall); [lra|]. now split.
  - destruct (Rlt_dec 0 m) as [Hp|Hn]; [now left|]. right. now destruct Hzero.
Qed.

End WithAnalyzer.

End HabitatFacts.


(** ** Minimum sample sizes (CMEMS_Maxent.py) *)

Section ThresholdFacts.
Import Maxent.

Variable quantile : R -> list R -> R.
Variable SCIPY_AVAILABLE : bool.
Variable gaussian_filter : xgrid -> xgrid.

Lemma valid_species_elem (data : list observation) (s : string) :
  s ∈ valid_species data <-> (min_observations <= species_count data s)%nat.
Proof.
  unfold valid_species. rewrite (sort_by_perm _ _), list_elem_of_filter, elem_of_remove_dups.
  split; [now intros [H _]|]. intros H. split; [exact H|].
  unfold species_count in H.
  destruct (filter (fun r => Species r = s) data) as [|r l] eqn:E.
  - cbn in H. unfold min_observations in H. lia.
  - assert (Hr : r ∈ filter (fun r => Species r = s) data) by (rewrite E; left).
    apply list_elem_of_filter in Hr as [Hs Hr].
    apply list_elem_of_fmap. exists r. split; [now symmetry | exact Hr].
Qed.

Lemma analysed_species (columns : list string) (data : list observation) :
  map fst (_analyze_by_species quantile columns data) = valid_species data.
Proof.
  unfold _analyze_by_species. rewrite map_map. cbn [fst]. apply map_id.
Qed.

Lemma generated_keys (resolution : R) (P : string -> Prop)
    (species_data : list (string * SpeciesInfo)) :
  forall st : list (string * HabitatResult) * bool,
    Forall P (map fst (fst st)) -> Forall P (map fst species_data) ->
    Forall P (map fst (fst (fold_left
      (fun (st : list (string * HabitatResult) * bool) (entry : string * SpeciesInfo) =>
         if snd st then
           match species_map SCIPY_AVAILABLE gaussian_filter resolution (snd entry) with
           | Some r => (app (fst st) [(fst entry, r)], true)
           | None => (fst st, false)
           end
         else st)
      species_data st))).
Proof.
  induction species_data as [|entry species_data IH]; intros st Hst Hsd; [exact Hst|].
  cbn [fold_left]. cbn [map] in Hsd. apply Forall_cons in Hsd as [He Hsd].
  apply IH; [|exact Hsd].
  destruct (snd st); [|exact Hst].
  destruct (species_map _ _ _ _); [|exact Hst].
  cbn [fst]. rewrite map_app. apply Forall_app. split; [exact Hst|].
  repeat constructor. exact He.
Qed.

Lemma usable_statistics (columns : list string) (species_data : list observation)
    (var : string) :
  is_Some (_calculate_environmental_stats quantile columns species_data !! var)
  <-> var ∈ env_vars /\ var ∈ columns /\ (6 <= length (samples species_data var))%nat.
Proof.
  rewrite environmental_stats_lookup. unfold usable.
  destruct (decide _) as [H|H]; split.
  - intros _. exact H.
  - intros _. eauto.
  - intros [x Hx]. discriminate.
  - intros H'. contradiction.
Qed.

(** C9. A species is analysed exactly when it has at least 15 observations,
    the suitability maps are built for analysed species only, and a
    covariate enters a species' statistics exactly when its column exists
    and holds at least 6 non-missing samples for that species. *)
Theorem small_samples_skipped (columns : list string) (rows : list raw_observation)
    (resolution : R) :
  let data := omap dropna rows in
  let species_data := load_and_analyze_data quantile columns rows in
  (forall s, s ∈ map fst species_data <-> (15 <= species_count data s)%nat)
  /\ Forall (fun name => (15 <= species_count data name)%nat)
       (map fst (fst (generate_species_suitability_maps SCIPY_AVAILABLE gaussian_filter
                        resolution species_data)))
  /\ Forall (fun entry : string * SpeciesInfo =>
               info_data (snd entry) = filter (fun r => Species r = fst entry) data
               /\ forall var,
                    is_Some (info_env_stats (snd entry) !! var)
                    <-> var ∈ env_vars /\ var ∈ columns
                        /\ (6 <= length (samples (info_data (snd entry)) var))%nat)
       species_data.
Proof.
  intros data species_data.
  assert (Hkeys : forall s, s ∈ map fst species_data <-> (15 <= species_count data s)%nat).
  { intros s. unfold species_data, load_and_analyze_data.
    rewrite analysed_species. apply valid_species_elem. }
  split; [exact Hkeys|]. split.
  - unfold generate_species_suitability_maps. apply generated_keys; [constructor|].
    apply Forall_forall. intros s Hs. now apply Hkeys.
  - unfold species_data, load_and_analyze_data, _analyze_by_species.
    rewrite Forall_fmap. apply Forall_forall. intros s _. cbn [fst snd info_data info_env_stats].
    split; [reflexivity|]. intros var. apply usable_statistics.
Qed.

(** The thresholds at work: the species with 15 rows is analysed, the one
    with 14 is not, and the covariate with 6 samples enters the statistics. *)
Lemma survey_thresholds :
  map fst (load_and_analyze_data quantile ["TempW"; "Salinity"]%string survey)
  = ["Adelie"%string]
  /\ species_count (omap dropna survey) "Skua" = 14%nat
  /\ is_Some (_calculate_environmental_stats quantile ["TempW"; "Salinity"]%string
                (filter (fun r => Species r = "Adelie"%string) (omap dropna survey))
              !! "TempW"%string)
  /\ _calculate_environmental_stats quantile ["TempW"; "Salinity"]%string
        (filter (fun r => Species r = "Adelie"%string) (omap dropna survey))
      !! "Salinity"%string = None.
Proof.
  split; [|split; [|split]].
  - unfold load_and_analyze_data. rewrite analysed_species. vm_compute. reflexivity.
  - vm_compute. reflexivity.
  - apply usable_statistics. repeat split.
    + left.
    + left.
    + vm_compute. lia.
  - rewrite environmental_stats_lookup. apply decide_False.
    intros (_ & _ & Hlen). vm_compute in Hlen. lia.
Qed.

End ThresholdFacts.

(** ** The suitability grids the builder produces (CMEMS_Maxent.py) *)

Section HabitatClaim.
Import Maxent.
Local Open Scope R_scope.

Lemma species_map_grid (SCIPY_AVAILABLE : bool) (gaussian_filter : xgrid -> xgrid)
    (resolution : R) (species_info : SpeciesInfo) :
  species_map SCIPY_AVAILABLE gaussian_filter resolution species_info
  = (let lat_grid := fst (prediction_grid resolution species_info) in
     let lon_grid := snd (prediction_grid resolution species_info) in
     suitability ← _calculate_habitat_suitability SCIPY_AVAILABLE gaussian_filter
                      (info_data species_info) (info_env_stats species_info)
                      (snd (meshgrid lon_grid lat_grid)) (fst (meshgrid lon_grid lat_grid));
     Some (mk_result lat_grid lon_grid suitability
             (snd (meshgrid lon_grid lat_grid)) (fst (meshgrid lon_grid lat_grid))
             (map (fun r => (LAT r, LONG r, Counts r)) (info_data species_info)))).
Proof.
  unfold species_map, prediction_grid.
  destruct (info_lat_range species_info), (info_lon_range species_info). reflexivity.
Qed.

(** When the first latitude of the grid lies below every observation, a
    zero bandwidth leaves no zero distance: all distances are then equal, and
    the first of them is positive. *)
Lemma builder_distances (species_data : list observation) (lat_grid lon_grid : list R)
    (la0 : R) (lat_rest : list R) :
  lon_grid <> [] -> species_data <> [] ->
  lat_grid = la0 :: lat_rest ->
  Forall (fun r => la0 < LAT r) species_data ->
  let distances :=
    cdist (zip (ravel (fst (meshgrid lon_grid lat_grid)))
               (ravel (snd (meshgrid lon_grid lat_grid))))
          (zip (map LONG species_data) (map LAT species_data)) in
  bandwidth distances = 0 -> Forall (fun d => d <> 0) (concat distances).
Proof.
  intros Hlon Hsd -> Hbelow distances Hbw.
  destruct lon_grid as [|lo0 lon_rest]; [congruence|].
  destruct species_data as [|r0 sd]; [congruence|].
  apply Forall_cons in Hbelow as [Hr0 _].
  assert (Hfirst : exists tail,
             concat distances
             = sqrt ((lo0 - LONG r0) ^ 2 + (la0 - LAT r0) ^ 2) :: tail).
  { eexists. unfold distances, meshgrid, ravel, cdist.
    cbn [fst snd map concat app zip_with]. reflexivity. }
  destruct Hfirst as [tail Hfirst].
  assert (Hd0 : 0 < sqrt ((lo0 - LONG r0) ^ 2 + (la0 - LAT r0) ^ 2)).
  { apply sqrt_lt_R0.
    assert (0 <= (lo0 - LONG r0) ^ 2) by apply pow2_ge_0.
    assert (0 < (la0 - LAT r0) ^ 2).
    { replace ((la0 - LAT r0) ^ 2) with ((LAT r0 - la0) * (LAT r0 - la0)) by ring.
      apply Rmult_lt_0_compat; lra. }
    lra. }
  assert (Hstd : np_std (concat distances) = 0) by (unfold bandwidth in Hbw; lra).
  apply np_std_zero in Hstd; [|rewrite Hfirst; discriminate].
  set (mu := np_mean (concat distances)) in *.
  rewrite Hfirst in Hstd |- *.
  pose proof Hstd as Hall. apply Forall_cons in Hstd as [Hmu _].
  eapply Forall_impl; [exact Hall|]. cbn. intros d Hd. lra.
Qed.

(** Outside the builder the density term can be NaN: on a mesh of one cell
    placed on the single observation, the suitability returned is NaN. *)
Lemma habitat_suitability_nan :
  _calculate_habitat_suitability true (fun g => g) one_sighting ∅ [[-70]] [[170]]
  = Some [[None]].
Proof.
  unfold _calculate_habitat_suitability, combined_suitability,
    _calculate_density_suitability.
  change (map LAT one_sighting) with [-70].
  change (map LONG one_sighting) with [170].
  change (map (fun r => default 1 (Counts r)) one_sighting) with [3].
  rewrite kernel_density_nan.
  unfold _calculate_environmental_suitability. rewrite map_size_empty.
  reflexivity.
Qed.

(** C2. For a species of the analysis, one turn of the map loop builds a
    suitability grid exactly when the prediction grid has a cell.  That
    grid has no NaN: the density term and the combined grid, the square roots
    of the products of the two terms, are grids of non-negative numbers;
    every cell of the suitability grid lies in [0, 1], its maximum is exactly
    1 whenever the combined grid has a non-zero cell, and when the combined
    maximum is 0 the grid is returned as it is, all zeros.  (The observation
    counts are not negative; with SciPy the Gaussian filter is assumed to
    turn a grid of non-negative numbers into one of the same shape.) *)
Theorem habitat_suitability_normalised (quantile : R -> list R -> R)
    (SCIPY_AVAILABLE : bool) (gaussian_filter : xgrid -> xgrid)
    (columns : list string) (data : list observation) (resolution : R)
    (species : string) (species_info : SpeciesInfo) :
  (forall r c g, has_shape r c g -> grid_all (fun x => 0 <= x) g ->
     exists g', gaussian_filter (finite g) = finite g'
                /\ has_shape r c g' /\ grid_all (fun x => 0 <= x) g') ->
  Forall (fun r => 0 <= default 1 (Counts r)) data ->
  (species, species_info) ∈ _analyze_by_species quantile columns data ->
  let lat_grid := fst (prediction_grid resolution species_info) in
  let lon_grid := snd (prediction_grid resolution species_info) in
  let lon_mesh := fst (meshgrid lon_grid lat_grid) in
  let lat_mesh := snd (meshgrid lon_grid lat_grid) in
  let species_data := info_data species_info in
  (lat_grid = [] \/ lon_grid = [] ->
   species_map SCIPY_AVAILABLE gaussian_filter resolution species_info = None)
  /\ (lat_grid <> [] -> lon_grid <> [] ->
      exists density combined m suitability,
        _calculate_density_suitability SCIPY_AVAILABLE gaussian_filter
          (map LAT species_data) (map LONG species_data)
          (map (fun r => default 1 (Counts r)) species_data) lat_mesh lon_mesh
        = finite density
        /\ grid_all (fun x => 0 <= x) density
        /\ combined_suitability SCIPY_AVAILABLE gaussian_filter species_data
             (info_env_stats species_info) lat_mesh lon_mesh = finite combined
        /\ grid_all (fun x => 0 <= x) combined
        /\ grid_max combined = Some m
        /\ species_map SCIPY_AVAILABLE gaussian_filter resolution species_info
           = Some (mk_result lat_grid lon_grid (finite suitability) lat_mesh lon_mesh
                     (map (fun r => (LAT r, LONG r, Counts r)) species_data))
        /\ grid_all (fun x => 0 <= x <= 1) suitability
        /\ ((exists x, x ∈ ravel combined /\ x <> 0) -> grid_max suitability = Some 1)
        /\ (m = 0 -> suitability = combined /\ grid_all (fun x => x = 0) suitability)
        /\ (0 < m \/ m = 0)).
Proof.
  intros Hfilter Hcounts Hin.
  unfold _analyze_by_species in Hin.
  apply list_elem_of_fmap in Hin as (s & E & Hs). injection E as -> ->.
  apply valid_species_elem in Hs. unfold species_count, min_observations in Hs.
  set (sd := filter (fun r => Species r = s) data) in *.
  set (info := mk_info sd (length sd) (_calculate_environmental_stats quantile columns sd)
                 (default 0 (rmin (map LAT sd)), default 0 (rmax (map LAT sd)))
                 (default 0 (rmin (map LONG sd)), default 0 (rmax (map LONG sd)))).
  intros lat_grid lon_grid lon_mesh lat_mesh species_data.
  assert (Hsd : sd <> []) by (destruct sd; [cbn in Hs; lia | discriminate]).
  assert (Hsd_counts : Forall (fun r => 0 <= default 1 (Counts r)) sd).
  { rewrite Forall_forall in Hcounts |- *. intros r Hr. apply Hcounts.
    unfold sd in Hr. now apply list_elem_of_filter in Hr as [_ Hr]. }
  destruct (meshgrid_shape lon_grid lat_grid) as [Hslon Hslat].
  fold lon_mesh in Hslon. fold lat_mesh in Hslat.
  rewrite species_map_grid. fold lat_grid lon_grid. cbv zeta. fold lon_mesh lat_mesh.
  change (info_data info) with sd in *. change (info_env_stats info)
    with (_calculate_environmental_stats quantile columns sd).
  split.
  - intros Hempty.
    rewrite (empty_grid_no_suitability SCIPY_AVAILABLE gaussian_filter (length lat_grid));
      [reflexivity|].
    unfold lat_mesh, meshgrid. cbn [snd].
    destruct Hempty as [->| ->].
    + split; [reflexivity | constructor].
    + split; [now rewrite length_map|]. rewrite Forall_fmap. apply Forall_forall.
      intros x _. reflexivity.
  - intros Hlat Hlon.
    set (lat_min := default 0 (rmin (map LAT sd))) in *.
    set (lat_max := default 0 (rmax (map LAT sd))) in *.
    assert (Hrange : forall r, r ∈ sd -> lat_min <= LAT r <= lat_max).
    { intros r Hr. apply range_bounds, list_elem_of_fmap. now exists r. }
    assert (Hgrid : lat_grid = arange (lat_min - (lat_max - lat_min) * (15 / 100))
                                      (lat_max + (lat_max - lat_min) * (15 / 100))
                                      resolution) by reflexivity.
    assert (Hspan : lat_min < lat_max).
    { destruct (Rlt_le_dec lat_min lat_max) as [H|H]; [exact H|]. exfalso.
      destruct sd as [|r0 sd'] eqn:Esd; [congruence|].
      destruct (Hrange r0 ltac:(left)) as [H1 H2].
      assert (E : lat_min = lat_max) by lra.
      apply Hlat. rewrite Hgrid, E.
      replace (lat_max - (lat_max - lat_max) * (15 / 100))
        with (lat_max + (lat_max - lat_max) * (15 / 100)) by ring.
      apply arange_empty. }
    destruct lat_grid as [|la0 lat_rest] eqn:Elat; [congruence|].
    destruct lon_grid as [|lo0 lon_rest] eqn:Elon; [congruence|].
    symmetry in Hgrid. apply arange_head in Hgrid.
    assert (Hbelow : Forall (fun r => la0 < LAT r) sd).
    { apply Forall_forall. intros r Hr. destruct (Hrange r Hr). lra. }
    cbn [length] in Hslon, Hslat.
    destruct (habitat_suitability_finite SCIPY_AVAILABLE gaussian_filter Hfilter
                (length lat_rest) (length lon_rest) sd
                (_calculate_environmental_stats quantile columns sd) lat_mesh lon_mesh
                Hslat Hslon Hsd_counts)
      as (density & combined & m & suitability & Hd & Hdn & Hc & Hcn & Hmax & Hsuit
          & _ & Hall & Hone & Hzero & Hm).
    { intros _. unfold lon_mesh, lat_mesh.
      apply (builder_distances sd (la0 :: lat_rest) (lo0 :: lon_rest) la0 lat_rest);
        [discriminate | exact Hsd | reflexivity | exact Hbelow]. }
    exists density, combined, m, suitability.
    rewrite Hsuit. cbn [mbind option_bind].
    repeat (split; [assumption || reflexivity|]). exact Hm.
Qed.

Lemma arange_nonempty (a b step : R) : 0 < step -> a < b -> arange a b step <> [].
Proof.
  intros Hstep Hab. unfold arange, np_ceil.
  assert (Hq : 0 < (b - a) / step) by (apply Rdiv_lt_0_compat; lra).
  destruct (archimed (- ((b - a) / step))) as [H1 H2].
  assert (Hup : (up (- ((b - a) / step)) < 1)%Z) by (apply lt_IZR; lra).
  destruct (Z.to_nat (1 - up (- ((b - a) / step)))) as [|n] eqn:E; [lia | discriminate].
Qed.

Lemma habitat_suitability_normalised_witness :
  let species_data := filter (fun r => Species r = "Adelie"%string) two_places in
  let species_info :=
    mk_info species_data (length species_data)
      (_calculate_environmental_stats (fun _ _ => 0) ["TempW"%string] species_data)
      (default 0 (rmin (map LAT species_data)), default 0 (rmax (map LAT species_data)))
      (default 0 (rmin (map LONG species_data)), default 0 (rmax (map LONG species_data))) in
  let lat_grid := fst (prediction_grid (8 / 100) species_info) in
  let lon_grid := snd (prediction_grid (8 / 100) species_info) in
  let lon_mesh := fst (meshgrid lon_grid lat_grid) in
  let lat_mesh := snd (meshgrid lon_grid lat_grid) in
  exists density combined m suitability,
    _calculate_density_suitability true (fun g => g)
      (map LAT species_data) (map LONG species_data)
      (map (fun r => default 1 (Counts r)) species_data) lat_mesh lon_mesh
    = finite density
    /\ grid_all (fun x => 0 <= x) density
    /\ combined_suitability true (fun g => g) species_data
         (info_env_stats species_info) lat_mesh lon_mesh = finite combined
    /\ grid_all (fun x => 0 <= x) combined
    /\ grid_max combined = Some m
    /\ species_map true (fun g => g) (8 / 100) species_info
       = Some (mk_result lat_grid lon_grid (finite suitability) lat_mesh lon_mesh
                 (map (fun r => (LAT r, LONG r, Counts r)) species_data))
    /\ grid_all (fun x => 0 <= x <= 1) suitability
    /\ ((exists x, x ∈ ravel combined /\ x <> 0) -> grid_max suitability = Some 1)
    /\ (m = 0 -> suitability = combined /\ grid_all (fun x => x = 0) suitability)
    /\ (0 < m \/ m = 0).
Proof.
  intros species_data species_info lat_grid lon_grid lon_mesh lat_mesh.
  assert (Hfirst : mk_observation "Adelie"%string (-70) 170 (Some 3) (fun _ => None)
                   ∈ species_data).
  { apply list_elem_of_filter. split; [reflexivity|]. unfold two_places.
    apply elem_of_app. left. apply elem_of_replicate. split; [reflexivity | discriminate]. }
  assert (Hlast : mk_observation "Adelie"%string (-69) 171 None (fun _ => None)
                  ∈ species_data).
  { apply list_elem_of_filter. split; [reflexivity|]. unfold two_places.
    apply elem_of_app. right. left. }
  assert (Hlat : -70 ∈ map LAT species_data /\ -69 ∈ map LAT species_data).
  { split; apply list_elem_of_fmap; eexists.
    - split; [|exact Hfirst]. reflexivity.
    - split; [|exact Hlast]. reflexivity. }
  assert (Hlon : 170 ∈ map LONG species_data /\ 171 ∈ map LONG species_data).
  { split; apply list_elem_of_fmap; eexists.
    - split; [|exact Hfirst]. reflexivity.
    - split; [|exact Hlast]. reflexivity. }
  apply (habitat_suitability_normalised (fun _ _ => 0) true (fun g => g) ["TempW"%string]
           two_places (8 / 100) "Adelie"%string species_info).
  - intros r c g Hs Ha. now exists g.
  - unfold two_places. apply Forall_app. split.
    + apply Forall_replicate. cbn. lra.
    + repeat constructor. cbn. lra.
  - unfold _analyze_by_species. apply list_elem_of_fmap. exists "Adelie"%string.
    split; [reflexivity|]. apply valid_species_elem. vm_compute. lia.
  - unfold prediction_grid, species_info. cbn [info_lat_range info_lon_range fst snd].
    destruct Hlat as [H1 H2]. apply range_bounds in H1, H2.
    apply arange_nonempty; lra.
  - unfold prediction_grid, species_info. cbn [info_lat_range info_lon_range fst snd].
    destruct Hlon as [H1 H2]. apply range_bounds in H1, H2.
    apply arange_nonempty; lra.
Defined.

End HabitatClaim.

(** * Further properties of the scripts *)

(** ** Richness across the scripts *)

Section RichnessOrder.
Import RegionRichness Dates Monthly.

Lemma key_leb_antisym (a b : Z * string) :
  key_leb a b = true -> key_leb b a = true -> a = b.
Proof.
  rewrite !key_leb_alt. intros H1 H2.
  apply orb_true_iff in H1, H2.
  rewrite !andb_true_iff, !Z.ltb_lt, !Z.eqb_eq in *.
  destruct a as [n s], b as [m t]. cbn [fst snd] in *.
  destruct H1 as [H1|[H1 L1]], H2 as [H2|[H2 L2]]; try lia.
  f_equal; [exact H1 | now apply String.leb_antisym].
Qed.

(** The sort key of 物种丰富度_子区域月度.py keeps every character that is
    not a digit. *)
Lemma month_key_loop (chars : list ascii) : forall number letter : string,
  fold_left RegionMonthly.key_step chars (number, letter)
  = (number ++ string_of_list_ascii (List.filter isdigit chars),
     letter ++ string_of_list_ascii (List.filter (fun c => negb (isdigit c)) chars)).
Proof.
  induction chars as [|c chars IH]; intros number letter.
  - cbn. now rewrite !append_nil_r.
  - cbn [fold_left List.filter]. unfold RegionMonthly.key_step at 2. cbn [fst snd].
    destruct (isdigit c) eqn:E; cbn [negb]; rewrite IH; cbn [string_of_list_ascii];
      f_equal; now rewrite append_assoc.
Qed.

Lemma no_digit_filter (l : list ascii) :
  forallb (fun c => negb (isdigit c)) l = true ->
  List.filter isdigit l = [] /\ List.filter (fun c => negb (isdigit c)) l = l.
Proof.
  induction l as [|c l IH]; [now split|]. cbn [forallb List.filter].
  intros H. apply andb_prop in H as [Hc H]. destruct (IH H) as [E1 E2].
  rewrite Hc. apply negb_true_iff in Hc. rewrite Hc. split; [exact E1 | now f_equal].
Qed.

(** X1. In 物种丰富度_子区域月度.py the key of a code written as a number
    followed by letters is (number, all the letters); it has the same
    number as the key of 物种丰富度_子区域.py, and the two keys are equal
    exactly when the code has at most one character that is not a digit. *)
Theorem month_region_sort_key (n : Z) (suffix region : string) :
  (0 <= n)%Z ->
  forallb (fun c => negb (isdigit c)) (list_ascii_of_string suffix) = true ->
  RegionMonthly.region_sort_key (Text.decimal n ++ suffix) = (n, suffix)
  /\ fst (RegionMonthly.region_sort_key region) = fst (region_sort_key region)
  /\ (RegionMonthly.region_sort_key region = region_sort_key region
      <-> (length (List.filter (fun c => negb (isdigit c)) (list_ascii_of_string region))
           <= 1)%nat).
Proof.
  intros Hn Hs. split; [|split].
  - unfold RegionMonthly.region_sort_key.
    rewrite chars_app, month_key_loop. cbn [fst snd].
    rewrite !List.filter_app.
    pose proof (all_digits_decimal n) as Hd. unfold all_chars in Hd.
    change Text.is_digit with isdigit in Hd.
    rewrite (filter_all _ _ Hd), (filter_none _ _ Hd).
    destruct (no_digit_filter _ Hs) as [-> ->].
    rewrite app_nil_r, app_nil_l, !string_of_list_ascii_of_string.
    change ("" ++ Text.decimal n) with (Text.decimal n).
    change ("" ++ suffix) with suffix.
    destruct (String.eqb (Text.decimal n) "") eqn:E.
    + apply String.eqb_eq in E. now destruct (decimal_nonempty n).
    + f_equal. apply int_of_digits_value, digits_value_decimal, Hn.
  - unfold RegionMonthly.region_sort_key, region_sort_key.
    now rewrite month_key_loop, key_loop.
  - unfold RegionMonthly.region_sort_key, region_sort_key.
    rewrite month_key_loop, key_loop. cbn [fst snd].
    change ("" ++ ?x) with x.
    set (letters := List.filter (fun c => negb (isdigit c)) (list_ascii_of_string region)).
    split.
    + intros [= E]. destruct letters as [|a [|b l]]; cbn [length]; try lia.
      exfalso. destruct (last (a :: b :: l)); cbn in E; discriminate.
    + intros Hlen. f_equal. destruct letters as [|a [|b l]]; cbn in *; [reflexivity..|lia].
Qed.

Lemma month_region_sort_key_witness :
  RegionMonthly.region_sort_key (Text.decimal 5 ++ "AB") = (5%Z, "AB")
  /\ fst (RegionMonthly.region_sort_key "5AB") = fst (region_sort_key "5AB")
  /\ (RegionMonthly.region_sort_key "5AB" = region_sort_key "5AB"
      <-> (length (List.filter (fun c => negb (isdigit c)) (list_ascii_of_string "5AB"))
           <= 1)%nat).
Proof.
  apply (month_region_sort_key 5 "AB" "5AB"); [lia | reflexivity].
Defined.

End RichnessOrder.

Section RichnessChain.
Import RegionRichness Dates Monthly.

Variable strptime : string -> option timestamp.

Lemma region_month_elem (data : list obs) (rows : list RegionMonthly.richness_row)
    (row : RegionMonthly.richness_row) :
  RegionMonthly.species_richness_by_region_month strptime data = Some rows ->
  (row ∈ rows
   <-> (RegionMonthly.Region row, RegionMonthly.Date row)
         ∈ omap RegionMonthly.region_month
             (map (parsed strptime) (filter (fun r => count_positive r = true) data))
       /\ RegionMonthly.Species_Richness row
          = nunique (map snd
              (filter (fun r => RegionMonthly.region_month r
                                = Some (RegionMonthly.Region row, RegionMonthly.Date row))
                 (map (parsed strptime) (filter (fun r => count_positive r = true) data))))).
Proof.
  unfold RegionMonthly.species_richness_by_region_month.
  destruct (dated strptime _) as [dr|] eqn:E; [|discriminate].
  apply dated_Some in E. subst dr. cbn [mbind option_bind]. intros [= <-].
  rewrite (sort_by_perm _ _), list_elem_of_fmap. split.
  - intros ([[g m] grp] & -> & Hk). cbn [fst snd RegionMonthly.Region RegionMonthly.Date
                                         RegionMonthly.Species_Richness].
    apply groupby_elem in Hk as [Hk ->]. now split.
  - destruct row as [g m n]. cbn [RegionMonthly.Region RegionMonthly.Date
                                  RegionMonthly.Species_Richness].
    intros [Hk ->]. eexists ((g, m), _). split; [reflexivity|]. apply groupby_elem. now split.
Qed.

Lemma region_month_Some (r : option timestamp * obs) (g : string) (m : nat) :
  RegionMonthly.region_month r = Some (g, m) ->
  Region (snd r) = Some g /\ month_of r = Some m.
Proof.
  unfold RegionMonthly.region_month.
  destruct (Region (snd r)) as [g'|]; [|discriminate].
  destruct (month_of r) as [m'|]; [|discriminate].
  cbn. now intros [= -> ->].
Qed.

Lemma year_bound (data rows : list obs) :
  rows ⊆ filter (fun r => count_positive r = true) data ->
  (nunique rows <= YearRichness.species_richness_year_all data)%nat.
Proof. intros H. now apply nunique_mono. Qed.

Lemma region_month_group_subseteq (l : list obs) (g : string) (m : nat) :
  map snd (filter (fun r => RegionMonthly.region_month r = Some (g, m)) (map (parsed strptime) l))
  ⊆ filter (fun r => Region r = Some g) l.
Proof.
  intros r Hr. apply list_elem_of_fmap in Hr as ([t r'] & -> & Hr).
  apply list_elem_of_filter in Hr as [Hk Hr].
  apply list_elem_of_fmap in Hr as (r0 & E & Hr0). inversion E; subst; clear E.
  cbn [snd]. apply list_elem_of_filter. split; [|exact Hr0].
  now apply region_month_Some in Hk as [Hk _].
Qed.

(** X2. The richness of a region in a month is at most the richness of the
    region over the year, which is at most the richness of the whole
    table; the same holds for the richness of a month.  An exception in the
    monthly script is an exception in the region-month script. *)
Theorem richness_chain (data : list obs) :
  (forall rows row,
      RegionMonthly.species_richness_by_region_month strptime data = Some rows ->
      row ∈ rows ->
      exists n, (RegionMonthly.Region row, n) ∈ species_richness_by_region data
                /\ (RegionMonthly.Species_Richness row <= n)%nat)
  /\ (forall g n, (g, n) ∈ species_richness_by_region data ->
        (n <= YearRichness.species_richness_year_all data)%nat)
  /\ (forall res m n, species_richness_month strptime data = Some res -> (m, n) ∈ res ->
        (n <= YearRichness.species_richness_year_all data)%nat)
  /\ (species_richness_month strptime data = None
      <-> RegionMonthly.species_richness_by_region_month strptime data = None).
Proof.
  split; [|split; [|split]].
  - intros rows row Hrows Hrow.
    apply (region_month_elem _ _ _ Hrows) in Hrow as [Hk Hn].
    eexists. split.
    + apply richness_by_region_elem. split; [|reflexivity].
      apply list_elem_of_omap in Hk as ([t r] & Hr & Hk).
      apply list_elem_of_fmap in Hr as (r0 & E & Hr0). inversion E; subst; clear E.
      apply list_elem_of_omap. exists r0. split; [exact Hr0|].
      now apply region_month_Some in Hk as [Hk _].
    + rewrite Hn. apply nunique_mono, region_month_group_subseteq.
  - intros g n [_ ->]%richness_by_region_elem.
    apply year_bound. intros r Hr. now apply list_elem_of_filter in Hr as [_ Hr].
  - intros res m n Hres Hmn.
    apply (richness_month_elem _ _ _ _ _ Hres) in Hmn as [_ ->].
    apply year_bound. intros r Hr. apply list_elem_of_fmap in Hr as ([t r'] & -> & Hr).
    apply list_elem_of_filter in Hr as [_ Hr].
    apply list_elem_of_fmap in Hr as (r0 & E & Hr0). now inversion E; subst.
  - unfold species_richness_month, RegionMonthly.species_richness_by_region_month.
    destruct (dated strptime _); cbn; split; congruence.
Qed.

End RichnessChain.

(** ** The region-month table and the region rates *)

Section RegionMonthFacts.
Import RegionRichness Dates Monthly.

Lemma row_leb_total (a b : RegionMonthly.richness_row) :
  RegionMonthly.row_leb a b = true \/ RegionMonthly.row_leb b a = true.
Proof.
  unfold RegionMonthly.row_leb.
  destruct (decide (_ = _)) as [E|N].
  - rewrite decide_True by now symmetry.
    destruct (Nat.leb_spec (RegionMonthly.Date a) (RegionMonthly.Date b)); [now left|].
    right. apply Nat.leb_le. lia.
  - rewrite decide_False by congruence. apply key_leb_total.
Qed.

Lemma row_leb_trans (a b c : RegionMonthly.richness_row) :
  RegionMonthly.row_leb a b = true -> RegionMonthly.row_leb b c = true ->
  RegionMonthly.row_leb a c = true.
Proof.
  unfold RegionMonthly.row_leb.
  set (ka := RegionMonthly.region_sort_key (RegionMonthly.Region a)).
  set (kb := RegionMonthly.region_sort_key (RegionMonthly.Region b)).
  set (kc := RegionMonthly.region_sort_key (RegionMonthly.Region c)).
  destruct (decide (ka = kb)) as [E1|N1], (decide (kb = kc)) as [E2|N2];
    intros H1 H2.
  - rewrite decide_True by congruence. apply Nat.leb_le in H1, H2. apply Nat.leb_le. lia.
  - rewrite decide_False by congruence. now rewrite E1.
  - rewrite decide_False by congruence. now rewrite <- E2.
  - destruct (decide (ka = kc)) as [E3|N3].
    + exfalso. apply N1. apply key_leb_antisym; [exact H1 | now rewrite E3].
    + now apply key_leb_trans with kb.
Qed.

Variable strptime : string -> option timestamp.

(** X3. The table of richness per region and month comes out ordered by the
    region key and then by month, and holds each (region, month) pair
    once. *)
Theorem region_month_sorted (data : list obs) (rows : list RegionMonthly.richness_row) :
  RegionMonthly.species_richness_by_region_month strptime data = Some rows ->
  StronglySorted (fun a b => RegionMonthly.row_leb a b = true) rows
  /\ NoDup (map (fun r => (RegionMonthly.Region r, RegionMonthly.Date r)) rows).
Proof.
  unfold RegionMonthly.species_richness_by_region_month.
  destruct (dated strptime _) as [dr|]; [|discriminate].
  cbn [mbind option_bind]. intros [= <-]. split.
  - apply sort_by_sorted; [apply row_leb_total | apply row_leb_trans].
  - rewrite (sort_by_perm _ _), map_map. cbn [RegionMonthly.Region RegionMonthly.Date].
    erewrite map_ext; [|intros g; symmetry; apply surjective_pairing].
    change (map (fun x => fst x)) with (map (@fst (string * nat) (list (option timestamp * obs)))).
    rewrite groupby_keys. apply group_keys_NoDup.
Qed.

End RegionMonthFacts.

Lemma region_month_sorted_witness :
  StronglySorted (fun a b => RegionMonthly.row_leb a b = true)
    [RegionMonthly.mk_row "2A" 1 1; RegionMonthly.mk_row "10B" 1 1]
  /\ NoDup (map (fun r => (RegionMonthly.Region r, RegionMonthly.Date r))
              [RegionMonthly.mk_row "2A" 1 1; RegionMonthly.mk_row "10B" 1 1]).
Proof.
  apply (region_month_sorted january
           [RegionRichness.mk_obs (Some "01-Jan") (Some "A") (Some "10B") (Some 3%Q);
            RegionRichness.mk_obs (Some "02-Jan") (Some "B") (Some "2A") (Some 1%Q)]).
  vm_compute. reflexivity.
Defined.

Section RateFacts.
Import Float RegionRate.
Local Open Scope Q_scope.

Lemma qsum_divided (T : Q) (cs : list Q) :
  ~ T == 0 -> Frame.qsum (map (fun c => Qred (c / T)) cs) == Frame.qsum cs / T.
Proof.
  intros HT. induction cs as [|c cs IH]; cbn [map Frame.qsum foldr].
  - field. exact HT.
  - fold (Frame.qsum (map (fun c => Qred (c / T)) cs)). fold (Frame.qsum cs).
    rewrite IH, Qred_correct. field. exact HT.
Qed.

Lemma qsum_nonneg (cs : list Q) : Forall (fun c => 0 <= c) cs -> 0 <= Frame.qsum cs.
Proof.
  induction 1 as [|c cs Hc _ IH]; cbn [Frame.qsum foldr]; [apply Qle_refl|].
  fold (Frame.qsum cs). lra.
Qed.

Lemma qsum_elem_le (cs : list Q) (c : Q) :
  Forall (fun c => 0 <= c) cs -> c ∈ cs -> c <= Frame.qsum cs.
Proof.
  induction 1 as [|x cs Hx Hcs IH]; intros Hc; [now apply elem_of_nil in Hc|].
  cbn [Frame.qsum foldr]. fold (Frame.qsum cs). pose proof (qsum_nonneg cs Hcs).
  apply elem_of_cons in Hc as [->|Hc]; [lra|]. specialize (IH Hc). lra.
Qed.

Lemma region_rate_value (table : list richness_row) (d : string) (r : richness_row) (c : Q) :
  r ∈ rows_of_date table d -> Species_Richness r = Some c ->
  ~ Frame.qsum (omap Species_Richness (rows_of_date table d)) == 0 ->
  region_rate table r
  = Fin (Qred (c / Frame.qsum (omap Species_Richness (rows_of_date table d)))).
Proof.
  intros Hr Hc HT. apply list_elem_of_filter in Hr as [Hd _].
  unfold region_rate, total_species_richness_per_month. rewrite Hc, Hd.
  cbn [mbind option_bind]. fold (rows_of_date table d).
  unfold np_div. destruct (Qeq_bool _ 0) eqn:E; [|reflexivity].
  apply Qeq_bool_eq in E. contradiction.
Qed.

Lemma rates_of_date (table : list richness_row) (d : string) :
  Forall (fun r => is_Some (Species_Richness r)) (rows_of_date table d) ->
  ~ Frame.qsum (omap Species_Richness (rows_of_date table d)) == 0 ->
  let T := Frame.qsum (omap Species_Richness (rows_of_date table d)) in
  let rates := map (fun c => Qred (c / T)) (omap Species_Richness (rows_of_date table d)) in
  map (region_rate table) (rows_of_date table d) = map Fin rates
  /\ Frame.qsum rates == 1.
Proof.
  intros Hsome HT T rates. subst rates.
  assert (Hrate : forall r, r ∈ rows_of_date table d ->
            exists c, Species_Richness r = Some c /\ region_rate table r = Fin (Qred (c / T))).
  { intros r Hr. rewrite Forall_forall in Hsome. destruct (Hsome r Hr) as [c Hc].
    exists c. split; [exact Hc|]. now apply region_rate_value. }
  split.
  - clear HT. revert Hrate. generalize (rows_of_date table d) at 1 2 3 as l.
    induction l as [|r l IH]; intros Hrate; [reflexivity|].
    destruct (Hrate r ltac:(left)) as (c & Hc & Hr).
    rewrite (omap_cons_Some _ _ _ _ Hc). cbn [map]. rewrite Hr. f_equal.
    apply IH. intros r' Hr'. apply Hrate. now right.
  - rewrite qsum_divided by exact HT. fold T. field. exact HT.
Qed.

(** X4. In the region-rate script, for a date whose rows all hold a
    richness and whose total is not zero, the rates written for that date
    are finite numbers that add up to 1; when the richness values are not
    negative each rate lies between 0 and 1. *)
Theorem region_rates_sum_to_one (table : list richness_row) (d : string) :
  Forall (fun r => is_Some (Species_Richness r)) (rows_of_date table d) ->
  ~ Frame.qsum (omap Species_Richness (rows_of_date table d)) == 0 ->
  exists rates : list Q,
    map (region_rate table) (rows_of_date table d) = map Fin rates
    /\ Frame.qsum rates == 1
    /\ (Forall (fun c => 0 <= c) (omap Species_Richness (rows_of_date table d)) ->
        Forall (fun q => 0 <= q <= 1) rates).
Proof.
  intros Hsome HT.
  destruct (rates_of_date table d Hsome HT) as [E S].
  set (T := Frame.qsum (omap Species_Richness (rows_of_date table d))) in *.
  exists (map (fun c => Qred (c / T)) (omap Species_Richness (rows_of_date table d))).
  split; [exact E | split; [exact S|]].
  intros Hnn. rewrite Forall_fmap, Forall_forall. intros c Hc. cbn.
  rewrite Qred_correct.
  assert (H0 : 0 <= c) by (rewrite Forall_forall in Hnn; now apply Hnn).
  pose proof (qsum_elem_le _ c Hnn Hc) as Hle. fold T in Hle.
  assert (HTpos : 0 < T).
  { pose proof (qsum_nonneg _ Hnn) as G. fold T in G.
    destruct (Qlt_le_dec 0 T) as [?|Hle0]; [assumption|].
    exfalso. apply HT. lra. }
  split.
  - apply Qle_shift_div_l; [exact HTpos | lra].
  - apply Qle_shift_div_r; [exact HTpos | lra].
Qed.

Lemma region_rates_sum_to_one_witness :
  let table := [mk_richness_row (Some "2A") (Some "2023-01") (Some 3);
                mk_richness_row (Some "5B") (Some "2023-01") (Some 1)] in
  exists rates : list Q,
    map (region_rate table) (rows_of_date table "2023-01") = map Fin rates
    /\ Frame.qsum rates == 1
    /\ (Forall (fun c => 0 <= c) (omap Species_Richness (rows_of_date table "2023-01")) ->
        Forall (fun q => 0 <= q <= 1) rates).
Proof.
  intros table. apply (region_rates_sum_to_one table "2023-01").
  - repeat constructor; eauto.
  - vm_compute. discriminate.
Defined.

End RateFacts.

Section RatePipeline.
Import RegionRichness Dates Monthly Float.
Local Open Scope Q_scope.

Lemma period_text_inj (m m' : nat) :
  (m < 100)%nat -> (m' < 100)%nat ->
  RegionMonthly.period_text m = RegionMonthly.period_text m' -> m = m'.
Proof.
  intros Hm Hm' E. unfold RegionMonthly.period_text in E.
  apply (inj (String.append "2023-")) in E.
  apply (f_equal Text.digits_value) in E.
  rewrite !digits_value_fixed in E by lia. injection E as E.
  change (10 ^ Z.of_nat 2)%Z with 100%Z in E.
  rewrite !Z.mod_small in E by lia. lia.
Qed.

Variable strptime : string -> option timestamp.
Hypothesis months_two_digits : forall s t, strptime s = Some t -> (ts_month t < 100)%nat.

Lemma region_month_row (data : list obs) (rows : list RegionMonthly.richness_row)
    (row : RegionMonthly.richness_row) :
  Forall (fun r => count_positive r = true -> is_Some (Species r)) data ->
  RegionMonthly.species_richness_by_region_month strptime data = Some rows ->
  row ∈ rows ->
  (RegionMonthly.Date row < 100)%nat /\ (1 <= RegionMonthly.Species_Richness row)%nat.
Proof.
  intros Hsp Hrows Hrow.
  apply (region_month_elem strptime _ _ _ Hrows) in Hrow as [Hk Hn].
  apply list_elem_of_omap in Hk as ([t r] & Hr & Hk).
  pose proof Hr as Hr'.
  apply list_elem_of_fmap in Hr as (r0 & E & Hr0). inversion E; subst t r; clear E.
  destruct (region_month_Some _ _ _ Hk) as [Hg Hm]. split.
  - unfold month_of, parsed in Hm. cbn [fst] in Hm.
    destruct (Date r0) as [s|]; [|discriminate]. cbn in Hm.
    destruct (strptime s) as [t|] eqn:Es; [|discriminate]. cbn in Hm.
    injection Hm as <-. now apply (months_two_digits s).
  - rewrite Hn. apply list_elem_of_filter in Hr0 as [Hpos Hin].
    rewrite Forall_forall in Hsp. destruct (Hsp r0 Hin Hpos) as [sp Hs].
    unfold nunique.
    assert (Hel : sp ∈ (list_to_set (omap Species (map snd
               (filter (fun r => RegionMonthly.region_month r
                                 = Some (RegionMonthly.Region row, RegionMonthly.Date row))
                  (map (parsed strptime) (filter (fun r => count_positive r = true) data)))))
               : gset string)).
    { apply elem_of_list_to_set, list_elem_of_omap. exists r0. split; [|exact Hs].
      apply list_elem_of_fmap. exists (parsed strptime r0). split; [reflexivity|].
      apply list_elem_of_filter. split; [exact Hk | exact Hr']. }
    apply elem_of_subseteq_singleton, subseteq_size in Hel.
    rewrite size_singleton in Hel. exact Hel.
Qed.

Lemma filter_ext_in {A} (P Q : A -> Prop) `{forall x, Decision (P x)}
    `{forall x, Decision (Q x)} (l : list A) :
  (forall x, x ∈ l -> P x <-> Q x) -> filter P l = filter Q l.
Proof.
  induction l as [|x l IH]; intros Hpq; [reflexivity|].
  rewrite !filter_cons. rewrite IH by (intros y Hy; apply Hpq; now right).
  destruct (decide (P x)) as [HP|HP], (decide (Q x)) as [HQ|HQ]; try reflexivity;
    exfalso; [apply HQ | apply HP]; apply (Hpq x ltac:(left)); assumption.
Qed.

Lemma richness_column (l : list RegionMonthly.richness_row) :
  omap RegionRate.Species_Richness (map RegionMonthly.csv_row l)
  = map (fun r => inject_Z (Z.of_nat (RegionMonthly.Species_Richness r))) l.
Proof. induction l as [|r l IH]; [reflexivity|]. cbn. now f_equal. Qed.

(** X5. The two scripts in sequence: when every counted row names its
    species, each region rate computed from the region-month table is a
    finite number greater than 0 and at most 1, and the rates of one month
    add up to 1. *)
Theorem region_rates_of_richness_table (data : list obs)
    (rows : list RegionMonthly.richness_row) :
  Forall (fun r => count_positive r = true -> is_Some (Species r)) data ->
  RegionMonthly.species_richness_by_region_month strptime data = Some rows ->
  let table := map RegionMonthly.csv_row rows in
  (forall row, row ∈ rows ->
     exists q, RegionRate.region_rate table (RegionMonthly.csv_row row) = Fin q
               /\ 0 < q /\ q <= 1)
  /\ (forall row, row ∈ rows ->
        exists rates : list Q,
          map (RegionRate.region_rate table)
              (rows_of_date table (RegionMonthly.period_text (RegionMonthly.Date row)))
          = map Fin rates
          /\ Frame.qsum rates == 1).
Proof.
  intros Hsp Hrows table.
  assert (Hrow : forall row, row ∈ rows ->
            (RegionMonthly.Date row < 100)%nat
            /\ (1 <= RegionMonthly.Species_Richness row)%nat)
    by (intros row; now apply region_month_row with data).
  assert (Hbucket : forall row, row ∈ rows ->
            rows_of_date table (RegionMonthly.period_text (RegionMonthly.Date row))
            = map RegionMonthly.csv_row
                (filter (fun r => RegionMonthly.Date r = RegionMonthly.Date row) rows)).
  { intros row Hin. unfold rows_of_date, table. rewrite filter_map_comm. f_equal.
    apply filter_ext_in. intros r Hr. cbn [RegionMonthly.csv_row RegionRate.Date]. split.
    - intros E. apply (inj Some) in E.
      apply period_text_inj in E; [exact E | apply Hrow..]; assumption.
    - now intros ->. }
  assert (Htotal : forall row, row ∈ rows ->
            1 <= Frame.qsum (omap RegionRate.Species_Richness
                   (rows_of_date table (RegionMonthly.period_text (RegionMonthly.Date row))))
            /\ inject_Z (Z.of_nat (RegionMonthly.Species_Richness row))
               <= Frame.qsum (omap RegionRate.Species_Richness
                    (rows_of_date table (RegionMonthly.period_text (RegionMonthly.Date row))))).
  { intros row Hin. rewrite (Hbucket row Hin), richness_column.
    assert (Hnn : Forall (fun c => 0 <= c)
              (map (fun r => inject_Z (Z.of_nat (RegionMonthly.Species_Richness r)))
                 (filter (fun r => RegionMonthly.Date r = RegionMonthly.Date row) rows))).
    { rewrite Forall_fmap. apply Forall_forall. intros r _. cbn.
      change 0 with (inject_Z 0). rewrite <- Zle_Qle. lia. }
    assert (Hel : inject_Z (Z.of_nat (RegionMonthly.Species_Richness row))
                  ∈ map (fun r => inject_Z (Z.of_nat (RegionMonthly.Species_Richness r)))
                      (filter (fun r => RegionMonthly.Date r = RegionMonthly.Date row) rows)).
    { apply list_elem_of_fmap. exists row. split; [reflexivity|].
      apply list_elem_of_filter. now split. }
    pose proof (qsum_elem_le _ _ Hnn Hel) as Hle.
    assert (1 <= inject_Z (Z.of_nat (RegionMonthly.Species_Richness row))).
    { change 1 with (inject_Z 1). rewrite <- Zle_Qle. destruct (Hrow row Hin). lia. }
    split; [lra | exact Hle]. }
  split.
  - intros row Hin. destruct (Htotal row Hin) as [H1 Hle].
    assert (Hr : RegionMonthly.csv_row row
                 ∈ rows_of_date table (RegionMonthly.period_text (RegionMonthly.Date row))).
    { rewrite (Hbucket row Hin). apply list_elem_of_fmap. exists row.
      split; [reflexivity|]. apply list_elem_of_filter. now split. }
    eexists. split.
    + apply (region_rate_value table _ _
               (inject_Z (Z.of_nat (RegionMonthly.Species_Richness row))) Hr);
        [reflexivity|]. lra.
    + rewrite Qred_correct.
      assert (1 <= inject_Z (Z.of_nat (RegionMonthly.Species_Richness row))).
      { change 1 with (inject_Z 1). rewrite <- Zle_Qle. destruct (Hrow row Hin). lia. }
      split.
      * apply Qlt_shift_div_l; lra.
      * apply Qle_shift_div_r; lra.
  - intros row Hin. destruct (Htotal row Hin) as [H1 _].
    destruct (rates_of_date table
                (RegionMonthly.period_text (RegionMonthly.Date row))) as [E S].
    + rewrite (Hbucket row Hin), Forall_fmap. apply Forall_forall. intros r _. cbn. eauto.
    + lra.
    + eexists. split; [exact E | exact S].
Qed.

End RatePipeline.

Lemma region_rates_of_richness_table_witness :
  let data := [RegionRichness.mk_obs (Some "01-Jan") (Some "A") (Some "10B") (Some 3%Q);
               RegionRichness.mk_obs (Some "02-Jan") (Some "B") (Some "2A") (Some 1%Q)] in
  let rows := [RegionMonthly.mk_row "2A" 1 1; RegionMonthly.mk_row "10B" 1 1] in
  let table := map RegionMonthly.csv_row rows in
  (forall row, row ∈ rows ->
     exists q, RegionRate.region_rate table (RegionMonthly.csv_row row) = Float.Fin q
               /\ (0 < q)%Q /\ (q <= 1)%Q)
  /\ (forall row, row ∈ rows ->
        exists rates : list Q,
          map (RegionRate.region_rate table)
              (rows_of_date table (RegionMonthly.period_text (RegionMonthly.Date row)))
          = map Float.Fin rates
          /\ (Frame.qsum rates == 1)%Q).
Proof.
  intros data rows table.
  apply (region_rates_of_richness_table january) with (data := data).
  - intros s t. unfold january.
    destruct (String.eqb s "01-Jan"); [intros [= <-]; cbn; lia|].
    destruct (String.eqb s "02-Jan"); [intros [= <-]; cbn; lia | discriminate].
  - subst data. repeat apply Forall_cons; try apply Forall_nil; cbn; eauto.
  - vm_compute. reflexivity.
Defined.

Section PartitionFacts.

Lemma filter_split_perm {A} (P Q R : A -> Prop) `{forall x, Decision (P x)}
    `{forall x, Decision (Q x)} `{forall x, Decision (R x)} (l : list A) :
  (forall x, P x <-> Q x \/ R x) -> (forall x, Q x -> R x -> False) ->
  filter P l ≡ₚ app (filter Q l) (filter R l).
Proof.
  intros Hp Hex. induction l as [|x l IH]; [reflexivity|].
  rewrite !filter_cons.
  destruct (decide (Q x)) as [HQ|HQ], (decide (R x)) as [HR|HR].
  - destruct (Hex x HQ HR).
  - rewrite decide_True by (apply Hp; now left). cbn. now rewrite IH.
  - rewrite decide_True by (apply Hp; now right).
    rewrite <- Permutation_middle. now rewrite IH.
  - rewrite decide_False by (rewrite Hp; tauto). exact IH.
Qed.

(** The groups of the keys [ks], laid end to end, are the rows whose key
    is one of [ks]. *)
Lemma groups_partition {A K} `{EqDecision K} (key : A -> option K) (rows : list A)
    (ks : list K) :
  NoDup ks ->
  concat (map (fun k => filter (fun r => key r = Some k) rows) ks)
  ≡ₚ filter (fun r => keyed_in key ks r = true) rows.
Proof.
  induction 1 as [|k ks Hk Hnd IH]; cbn [map concat].
  - induction rows as [|r rows IHr]; [reflexivity|].
    rewrite filter_cons, decide_False; [exact IHr|].
    unfold keyed_in. destruct (key r); [|discriminate].
    rewrite bool_decide_eq_true. apply not_elem_of_nil.
  - rewrite IH. symmetry.
    apply (filter_split_perm _ (fun r => key r = Some k)
             (fun r => keyed_in key ks r = true)).
    + intros r. unfold keyed_in. destruct (key r) as [k'|].
      * rewrite !bool_decide_eq_true, elem_of_cons. split.
        -- intros [->|?]; auto.
        -- intros [[= ->]|?]; auto.
      * split; [discriminate | intros [?|?]; discriminate].
    + intros r E. unfold keyed_in. rewrite E, bool_decide_eq_true. exact Hk.
Qed.

Lemma qsum_app (l1 l2 : list Q) :
  (Frame.qsum (app l1 l2) == Frame.qsum l1 + Frame.qsum l2)%Q.
Proof.
  induction l1 as [|x l1 IH]; cbn [app Frame.qsum foldr].
  - fold (Frame.qsum l2). lra.
  - fold (Frame.qsum (app l1 l2)). fold (Frame.qsum l1). lra.
Qed.

Lemma qsum_perm (l1 l2 : list Q) : l1 ≡ₚ l2 -> (Frame.qsum l1 == Frame.qsum l2)%Q.
Proof.
  induction 1 as [|x l1 l2 _ IH|x y l|l1 l2 l3 _ IH1 _ IH2]; cbn [Frame.qsum foldr].
  - reflexivity.
  - fold (Frame.qsum l1). fold (Frame.qsum l2). lra.
  - fold (Frame.qsum l). lra.
  - now rewrite IH1.
Qed.

End PartitionFacts.

Section ShareFacts.
Import RegionRichness Dates Float SpeciesShare.
Local Open Scope Q_scope.
Variable strptime : string -> option timestamp.

Lemma group_sums {A K} (f : A -> option Q) (h : K -> list A) (ks : list K) :
  Frame.qsum (map (fun k => Qred (Frame.qsum (omap f (h k)))) ks)
  == Frame.qsum (omap f (concat (map h ks))).
Proof.
  induction ks as [|k ks IH]; cbn [map concat Frame.qsum foldr]; [reflexivity|].
  fold (Frame.qsum (map (fun k => Qred (Frame.qsum (omap f (h k)))) ks)).
  rewrite omap_app, qsum_app, IH, Qred_correct. reflexivity.
Qed.

(** X6. The denominator used for a date is the sum of the Count column over
    every row of that date that has a parsable date and a species; rows
    with a missing count add nothing. *)
Theorem share_denominator (data : list obs) (d : timestamp) :
  monthly_total_count (monthly_species_count strptime data) d
  == Frame.qsum (omap (fun kr => Count (snd kr))
                   (filter (fun kr => fst (fst kr) = d) (omap (clean strptime) data))).
Proof.
  unfold monthly_total_count, monthly_species_count, Frame.groupby.
  set (rows := omap (clean strptime) data).
  set (key := fun kr : timestamp * string * obs => Some (fst kr)).
  set (keys := Frame.group_keys pair_leb (omap key rows)).
  rewrite filter_map_comm, filter_map_comm. cbn [cr_date fst snd].
  rewrite !map_map. cbn [cr_count fst snd].
  set (ks := filter (fun k : timestamp * string => fst k = d) keys).
  etransitivity;
    [apply (group_sums (fun kr : timestamp * string * obs => Count (snd kr))
              (fun k => filter (fun r => key r = Some k) rows) ks)|].
  assert (Hnd : NoDup ks)
    by (apply NoDup_filter, group_keys_NoDup).
  apply qsum_perm. apply omap_Permutation.
  etransitivity; [apply (groups_partition key rows ks Hnd)|].
  apply Permutation_refl'. apply filter_ext_in. intros kr Hkr.
  unfold keyed_in, key. rewrite bool_decide_eq_true. unfold ks.
  rewrite list_elem_of_filter. unfold keys. rewrite group_keys_elem, omap_key_elem.
  split; [tauto|]. intros E. split; [exact E|]. exists kr. now split.
Qed.

Lemma grouped_counts_nonneg (data : list obs) :
  Forall (fun o => forall c, Count o = Some c -> 0 <= c) data ->
  Forall (fun r => 0 <= cr_count r) (monthly_species_count strptime data).
Proof.
  intros Hnn. unfold monthly_species_count. rewrite Forall_fmap, Forall_forall.
  intros [k g] Hg. apply groupby_elem in Hg as [_ ->]. cbn [cr_count snd compose].
  rewrite Qred_correct. apply qsum_nonneg. rewrite Forall_forall. intros c Hc.
  apply list_elem_of_omap in Hc as (kr & Hkr & Hc).
  apply list_elem_of_filter in Hkr as [_ Hkr].
  apply list_elem_of_omap in Hkr as (o & Ho & Hcl).
  unfold clean in Hcl. destruct (RegionRichness.Date o) as [s|]; [|discriminate].
  cbn in Hcl. destruct (strptime s) as [t|]; [|discriminate].
  cbn in Hcl. destruct (Species o) as [sp|]; [|discriminate].
  injection Hcl as <-. cbn [snd] in Hc.
  rewrite Forall_forall in Hnn. exact (Hnn o Ho c Hc).
Qed.

(** X7. When no count is negative, the percentage written for a row is
    either NaN (the date's total is zero) or a number between 0 and 100; an
    infinity is never written. *)
Theorem shares_within_range (data : list obs) (rows : list share_row) (r : share_row) :
  Forall (fun o => forall c, Count o = Some c -> 0 <= c) data ->
  species_ratio_monthly strptime data = Some rows -> r ∈ rows ->
  sr_percentage r = NaN
  \/ exists q, sr_percentage r = Fin q /\ 0 <= q <= 100.
Proof.
  intros Hnn Hrows Hr. apply species_ratio_Some in Hrows. subst rows.
  apply list_elem_of_fmap in Hr as (c & -> & Hc).
  pose proof (grouped_counts_nonneg data Hnn) as Hpos.
  set (grouped := monthly_species_count strptime data) in *.
  cbn [share_of sr_percentage].
  assert (H0 : 0 <= cr_count c) by (rewrite Forall_forall in Hpos; now apply Hpos).
  assert (Hle : cr_count c <= monthly_total_count grouped (cr_date c)).
  { unfold monthly_total_count. apply qsum_elem_le.
    - rewrite Forall_fmap, Forall_forall. intros x Hx.
      apply list_elem_of_filter in Hx as [_ Hx].
      rewrite Forall_forall in Hpos. now apply Hpos.
    - apply list_elem_of_fmap. exists c. split; [reflexivity|].
      apply list_elem_of_filter. now split. }
  set (T := monthly_total_count grouped (cr_date c)) in *.
  unfold np_div. destruct (Qeq_bool T 0) eqn:ET.
  - apply Qeq_bool_eq in ET. left.
    destruct (Qeq_bool (cr_count c) 0) eqn:Ec; [reflexivity|].
    apply Qeq_bool_neq in Ec. exfalso. apply Ec. lra.
  - apply Qeq_bool_neq in ET. right. eexists. split; [reflexivity|].
    rewrite !Qred_correct.
    assert (HT : 0 < T) by (destruct (Qlt_le_dec 0 T); [assumption | exfalso; apply ET; lra]).
    assert (0 <= cr_count c / T) by (apply Qle_shift_div_l; [exact HT | lra]).
    assert (cr_count c / T <= 1) by (apply Qle_shift_div_r; [exact HT | lra]).
    lra.
Qed.

End ShareFacts.

Lemma shares_within_range_witness :
  let data := [RegionRichness.mk_obs (Some "01-Jan") (Some "A") None (Some 3%Q);
               RegionRichness.mk_obs (Some "01-Jan") (Some "B") None (Some 1%Q)] in
  let r := SpeciesShare.mk_share_row (Dates.mk_ts 1 1) "B" 1%Q (Float.Fin 25%Q) in
  SpeciesShare.sr_percentage r = Float.NaN
  \/ exists q, SpeciesShare.sr_percentage r = Float.Fin q /\ (0 <= q <= 100)%Q.
Proof.
  intros data r.
  apply (shares_within_range january data
           [SpeciesShare.mk_share_row (Dates.mk_ts 1 1) "A" 3%Q (Float.Fin 75%Q); r]).
  - subst data. repeat constructor; cbn; intros c [= <-]; unfold Qle; cbn; lia.
  - vm_compute. reflexivity.
  - subst r. right. left.
Defined.

Section ShannonBounds.
Import RegionRichness Dates Monthly.
Local Open Scope R_scope.
Variable strptime : string -> option timestamp.

Lemma ln_le_pred (x : R) : 0 < x -> ln x <= x - 1.
Proof.
  intros Hx. pose proof (exp_ineq1_le (ln x)) as H.
  rewrite exp_ln in H by exact Hx. lra.
Qed.

Lemma entropy_term_bound (N p : R) : 0 < N -> 0 < p -> - (p * ln p) - p * ln N <= / N - p.
Proof.
  intros HN Hp.
  assert (Hx : 0 < / (N * p)) by (apply Rinv_0_lt_compat; nra).
  pose proof (ln_le_pred _ Hx) as H.
  rewrite ln_Rinv, ln_mult in H by nra.
  assert (p * (- (ln N + ln p)) <= p * (/ (N * p) - 1))
    by (apply Rmult_le_compat_l; lra).
  replace (p * (/ (N * p) - 1)) with (/ N - p) in * by (field; lra).
  lra.
Qed.

Lemma entropy_sum_bound (N : R) (ps : list R) :
  0 < N -> Forall (fun p => 0 < p) ps ->
  - foldr Rplus 0 (map (fun p => p * ln p) ps) - foldr Rplus 0 ps * ln N
  <= INR (length ps) * / N - foldr Rplus 0 ps.
Proof.
  intros HN. induction 1 as [|p ps Hp _ IH].
  - cbn. lra.
  - cbn [map foldr length]. rewrite S_INR.
    pose proof (entropy_term_bound N p HN Hp). lra.
Qed.

Lemma rsum_divided (S : R) (xs : list R) :
  S <> 0 -> foldr Rplus 0 (map (fun x => x / S) xs) = foldr Rplus 0 xs / S.
Proof.
  intros HS. induction xs as [|x xs IH]; cbn [map foldr]; [field; exact HS|].
  rewrite IH. field. exact HS.
Qed.

Lemma shannon_upper (group : list obs) :
  group <> [] -> Forall (fun r => count_positive r = true) group ->
  calculate_shannon_diversity group <= ln (INR (length group)).
Proof.
  intros Hne Hpos. destruct (positive_counts group Hpos) as [El Hp].
  unfold calculate_shannon_diversity, proportions.
  set (cs := omap Count group) in *.
  assert (Hcs : map Q2R cs <> []).
  { destruct cs; [destruct group; [congruence | discriminate] | discriminate]. }
  pose proof (rsum_pos _ Hp Hcs) as HS.
  rewrite Q2R_qsum. set (S := foldr Rplus 0 (map Q2R cs)) in *.
  assert (Hmap : map (fun c => Q2R c / S) cs = map (fun x => x / S) (map Q2R cs))
    by now rewrite map_map.
  rewrite Hmap.
  assert (Hn : 0 < INR (length group)).
  { apply lt_0_INR. destruct group; [congruence | cbn; lia]. }
  pose proof (entropy_sum_bound (INR (length group)) (map (fun x => x / S) (map Q2R cs)) Hn) as B.
  rewrite rsum_divided in B by lra.
  rewrite !length_map, El in B.
  replace (foldr Rplus 0 (map Q2R cs) / S) with 1 in B by (unfold S; field; unfold S in HS; lra).
  rewrite Rinv_r in B by lra.
  assert (Forall (fun p => 0 < p) (map (fun x => x / S) (map Q2R cs))).
  { rewrite Forall_fmap. eapply Forall_impl; [exact Hp|]. cbn. intros x Hx.
    apply Rdiv_lt_0_compat; lra. }
  specialize (B H). lra.
Qed.

(** X8. Every index written by the Shannon script lies between 0 and the
    logarithm of the number of rows of its month, and it is 0 exactly when
    the month has a single row. *)
Theorem shannon_index_bounds (data : list obs) (out : list (nat * R)) (m : nat) (H : R) :
  shannon_diversity_month strptime data = Some out -> (m, H) ∈ out ->
  let rows := filter (fun r => month_of r = Some m)
                (map (parsed strptime) (filter (fun r => count_positive r = true) data)) in
  (1 <= length rows)%nat
  /\ 0 <= H <= ln (INR (length rows))
  /\ (H = 0 <-> length rows = 1%nat).
Proof.
  unfold shannon_diversity_month.
  destruct (dated strptime _) as [dr|] eqn:E; [|discriminate].
  apply dated_Some in E. subst dr. cbn [mbind option_bind]. intros [= <-] Hin.
  set (rows := filter (fun r => month_of r = Some m) _).
  apply list_elem_of_fmap in Hin as ([k g] & Hk & Hg). cbn [fst snd] in Hk.
  injection Hk as -> ->. apply groupby_elem in Hg as [Hm ->]. fold rows in Hm |- *.
  assert (Hpos : Forall (fun r => count_positive r = true) (map snd rows)).
  { rewrite Forall_fmap, Forall_forall. intros [t r] Hr.
    apply list_elem_of_filter in Hr as [_ Hr].
    apply list_elem_of_fmap in Hr as (r0 & E & Hr0).
    apply list_elem_of_filter in Hr0 as [Hc _].
    unfold parsed in E. inversion E; subst. exact Hc. }
  assert (Hlen : (1 <= length rows)%nat).
  { apply list_elem_of_omap in Hm as (r & Hr & Hkr).
    assert (Hin : r ∈ rows) by (apply list_elem_of_filter; now split).
    destruct rows; [now apply elem_of_nil in Hin | cbn; lia]. }
  assert (Hne : map snd rows <> []) by (destruct rows; [cbn in Hlen; lia | discriminate]).
  pose proof (shannon_upper (map snd rows) Hne Hpos) as Hup.
  rewrite length_map in Hup.
  destruct (decide (length rows = 1%nat)) as [H1|H1].
  - destruct rows as [|r [|r' rows']]; try discriminate.
    cbn [map] in *. apply Forall_cons in Hpos as [Hr _].
    rewrite (shannon_single_row _ Hr) in *. cbn [length INR] in *.
    rewrite ln_1. repeat split; try lra; try lia.
  - pose proof (shannon_rows_positive (map snd rows)
                  ltac:(rewrite length_map; lia) Hpos).
    repeat split; try lra; try lia.
Qed.

End ShannonBounds.

Lemma shannon_index_bounds_witness :
  let data := [RegionRichness.mk_obs (Some "01-Jan") (Some "A") (Some "2A") (Some 3%Q);
               RegionRichness.mk_obs (Some "02-Jan") (Some "A") (Some "2A") (Some 1%Q)] in
  let H := Monthly.calculate_shannon_diversity data in
  let rows := filter (fun r => Monthly.month_of r = Some 1%nat)
                (map (parsed january)
                   (filter (fun r => RegionRichness.count_positive r = true) data)) in
  (1 <= length rows)%nat
  /\ (0 <= H <= ln (INR (length rows)))%R
  /\ (H = 0%R <-> length rows = 1%nat).
Proof.
  intros data H.
  apply (shannon_index_bounds january data [(1%nat, H)] 1%nat H); [|left].
  unfold Monthly.shannon_diversity_month.
  replace (filter (fun r => RegionRichness.count_positive r = true) data) with data
    by (vm_compute; reflexivity).
  replace (Monthly.dated january data)
    with (Some [(Some (Dates.mk_ts 1 1),
                 RegionRichness.mk_obs (Some "01-Jan") (Some "A") (Some "2A") (Some 3%Q));
                (Some (Dates.mk_ts 1 2),
                 RegionRichness.mk_obs (Some "02-Jan") (Some "A") (Some "2A") (Some 1%Q))])
    by (vm_compute; reflexivity).
  cbn [mbind option_bind].
  match goal with
  | |- context [Frame.groupby ?l ?k ?rows] =>
    let g := eval vm_compute in (Frame.groupby l k rows) in
    change (Frame.groupby l k rows) with g
  end.
  cbn [map fst snd]. reflexivity.
Defined.

Section ReaderFacts.
Import Float Text Raster.
Local Open Scope Q_scope.

Lemma read_header_short (n : nat) (lines : list string) (header : gmap string Q) :
  (length lines < n)%nat -> read_header n lines header = None.
Proof.
  revert lines header. induction n as [|n IH]; intros lines header Hlen; [lia|].
  destruct lines as [|line rest]; [reflexivity|]. cbn [read_header].
  destruct (header_entry line) as [e|]; [|reflexivity]. cbn [mbind option_bind].
  apply IH. cbn [length] in Hlen. lia.
Qed.

Lemma rectangular_spec {A} (rows : list (list A)) :
  rectangular rows = true -> exists n, Forall (fun row => length row = n) rows.
Proof.
  destruct rows as [|r rest]; [exists O; constructor|].
  cbn [rectangular]. intros H. exists (length r). constructor; [reflexivity|].
  rewrite Forall_forall. intros r' Hr'.
  apply Nat.eqb_eq. revert H. rewrite forallb_forall. intros H. apply H.
  now apply list_elem_of_In.
Qed.

Lemma has_dot_cons (c : ascii) (s : string) :
  has_dot (String c s) = Ascii.eqb "." c || has_dot s.
Proof. reflexivity. Qed.

Lemma space_not_dot (c : ascii) : is_space c = true -> Ascii.eqb "." c = false.
Proof. intros H. apply Ascii.eqb_neq. intros <-. discriminate. Qed.

Lemma has_dot_lower (s : string) : has_dot (lower s) = has_dot s.
Proof.
  unfold lower, has_dot. rewrite list_ascii_of_string_of_list_ascii.
  induction (list_ascii_of_string s) as [|c l IH]; [reflexivity|].
  cbn [map existsb]. rewrite IH. f_equal.
  destruct c as [[] [] [] [] [] [] [] []]; reflexivity.
Qed.

Lemma has_dot_lstrip (s : string) : has_dot (lstrip s) = has_dot s.
Proof.
  induction s as [|c s IH]; [reflexivity|]. cbn [lstrip].
  destruct (is_space c) eqn:E; [|reflexivity].
  now rewrite IH, has_dot_cons, (space_not_dot c E).
Qed.

Lemma has_dot_rstrip (s : string) : has_dot (rstrip s) = has_dot s.
Proof.
  induction s as [|c s IH]; [reflexivity|]. cbn [rstrip].
  destruct (is_space c) eqn:E; cbn [andb].
  - rewrite (has_dot_cons c s), (space_not_dot c E), <- IH. cbn [orb].
    destruct (String.eqb_spec (rstrip s) "") as [E'|_]; [now rewrite E'|].
    now rewrite has_dot_cons, (space_not_dot c E).
  - now rewrite !has_dot_cons, IH.
Qed.

Lemma has_dot_split_sign (s : string) : has_dot (snd (split_sign s)) = has_dot s.
Proof.
  destruct s as [|c r]; [reflexivity|]. unfold split_sign.
  destruct c as [[] [] [] [] [] [] [] []]; reflexivity.
Qed.

Lemma has_dot_remove_underscores (s : string) : forall prev s',
  remove_underscores_from prev s = Some s' -> has_dot s' = has_dot s.
Proof.
  induction s as [|c s IH]; intros prev s'; cbn [remove_underscores_from].
  - destruct (Ascii.eqb prev "_"); [discriminate|]. now intros [= <-].
  - destruct (Ascii.eqb_spec c "_") as [->|_].
    + destruct (is_digit prev); [|discriminate]. intros H. now rewrite (IH _ _ H).
    + destruct (Ascii.eqb prev "_" && negb (is_digit c)); [discriminate|].
      destruct (remove_underscores_from c s) as [r|] eqn:E; [|discriminate].
      intros [= <-]. now rewrite !has_dot_cons, (IH _ _ E).
Qed.

(** A value with a point is never [inf] or [nan]: the header entry that
    [float] reads is a finite number. *)
Lemma dotted_float_finite (s : string) (v : fval) :
  has_dot s = true -> float_of_string s = Some v -> is_finite v = true.
Proof.
  intros Hdot. unfold float_of_string, remove_underscores.
  destruct (remove_underscores_from "000" s) as [s'|] eqn:Es; [|discriminate].
  cbn [mbind option_bind].
  pose proof (has_dot_remove_underscores _ _ _ Es) as H1.
  pose proof (has_dot_split_sign (strip s')) as H2.
  destruct (split_sign (strip s')) as [neg body]. cbn [snd] in H2.
  assert (Hbody : has_dot (lower body) = true).
  { rewrite has_dot_lower, H2. unfold strip. now rewrite has_dot_rstrip, has_dot_lstrip, H1. }
  destruct (String.eqb_spec (lower body) "inf") as [E|_]; [now rewrite E in Hbody|].
  destruct (String.eqb_spec (lower body) "infinity") as [E|_]; [now rewrite E in Hbody|].
  destruct (String.eqb_spec (lower body) "nan") as [E|_]; [now rewrite E in Hbody|].
  cbn [orb]. destruct (cut_at_exponent body) as [mantissa exponent].
  destruct (unsigned_of_string mantissa) as [m|]; [|discriminate]. cbn [mbind option_bind].
  destruct exponent as [t|]; [|now intros [= <-]].
  destruct (plain_int t); [|discriminate]. now intros [= <-].
Qed.

(** What [float] and [int] read, beyond the numerals the writer
    produces: exponents, the special values in any case, underscores between
    digits, surrounding whitespace; and what they refuse. *)
Lemma float_of_string_examples :
  float_of_string "1.5E-4" = Some (Fin (3 # 20000))
  /\ float_of_string "2.0" = Some (Fin 2)
  /\ float_of_string "+.5e+2" = Some (Fin 50)
  /\ float_of_string "7.e1" = Some (Fin 70)
  /\ float_of_string "1_000.5" = Some (Fin (2001 # 2))
  /\ float_of_string "nan" = Some NaN
  /\ float_of_string "-NaN" = Some NaN
  /\ float_of_string "inf" = Some PInf
  /\ float_of_string "-Infinity" = Some NInf
  /\ float_of_string " 12 " = Some (Fin 12)
  /\ float_of_string "" = None
  /\ float_of_string "." = None
  /\ float_of_string "1e" = None
  /\ float_of_string "e5" = None
  /\ float_of_string "1__0" = None
  /\ float_of_string "_1" = None
  /\ float_of_string "1_.5" = None
  /\ float_of_string "infi" = None
  /\ float_of_string "0x10" = None
  /\ float_of_string "1 2" = None
  /\ int_of_string "1_000" = Some 1000%Z
  /\ int_of_string " -12 " = Some (-12)%Z
  /\ int_of_string "1e3" = None
  /\ int_of_string "12_" = None.
Proof. vm_compute. repeat split; reflexivity. Qed.

(** A file with exponents, special values and a blank line among its data
    lines is read; the sentinel of its header becomes NaN. *)
Lemma read_asc_file_example :
  snd <$> read_asc_file
            [ "ncols 2"; "nrows 2"; "xllcorner 170.0"; "yllcorner -77.5";
              "cellsize 8.3e-2"; "NODATA_value -9999";
              "1.5E-4 2.0"; "  "; "-9999 inf"; "nan -1_0.25" ]
  = Some [[Fin (3 # 20000); Fin 2]; [NaN; PInf]; [NaN; Fin (- (41 # 4))]].
Proof. vm_compute. reflexivity. Qed.

(** X9. A file of fewer than six lines is not read.  When a file is read,
    the array has one row per non-blank line after the sixth, each row has
    as many cells as its line has fields, and all rows have one length; each
    cell is what [float] reads from its field, or NaN when that is the
    no-data value of the header. *)
Theorem read_asc_file_shape (lines : list string) :
  ((length lines < 6)%nat -> read_asc_file lines = None)
  /\ (forall header arr, read_asc_file lines = Some (header, arr) ->
        Forall2 (fun row line => length row = length (split line)) arr
                (filter (fun line => split line <> []) (drop 6 lines))
        /\ (exists n, Forall (fun row => length row = n) arr)
        /\ Forall2 (fun row line =>
                      Forall2 (fun cell field =>
                                 exists v, float_of_string field = Some v
                                           /\ cell = unmask_cell
                                                      (default NODATA (header !! "nodata_value")) v)
                              row (split line))
                   arr (filter (fun line => split line <> []) (drop 6 lines))).
Proof.
  split.
  - intros Hlen. unfold read_asc_file. now rewrite read_header_short.
  - intros header arr. unfold read_asc_file.
    destruct (read_header 6 lines ∅) as [h|]; [|discriminate]. cbn [mbind option_bind].
    destruct (read_rows (drop 6 lines)) as [rows|] eqn:Er; [|discriminate].
    cbn [mbind option_bind].
    destruct (rectangular rows) eqn:Erect; [|discriminate].
    intros [= <- <-]. unfold read_rows in Er. apply mapM_Some in Er.
    split; [|split].
    + apply Forall2_fmap_l. apply Forall2_flip.
      eapply Forall2_impl; [exact Er|]. cbn. intros line row Hrow.
      rewrite length_map. apply length_mapM in Hrow. now symmetry.
    + destruct (rectangular_spec rows Erect) as [n Hn]. exists n.
      rewrite Forall_fmap. eapply Forall_impl; [exact Hn|]. cbn. intros row Hr.
      now rewrite length_map.
    + apply Forall2_fmap_l. apply Forall2_flip.
      eapply Forall2_impl; [exact Er|]. cbn. intros line row Hrow.
      apply mapM_Some in Hrow. apply Forall2_fmap_l. apply Forall2_flip.
      eapply Forall2_impl; [exact Hrow|]. cbn. intros field v Hv. now exists v.
Qed.

End ReaderFacts.

Section HeaderFacts.
Import Float Text Raster.
Local Open Scope Q_scope.

Lemma fold_Qmin_le (x : Q) (l : list Q) : forall y, y ∈ x :: l -> foldr Qmin x l <= y.
Proof.
  induction l as [|z l IH]; intros y Hy; cbn [foldr].
  - apply list_elem_of_singleton in Hy as ->. apply Qle_refl.
  - apply elem_of_cons in Hy as [->|Hy].
    + eapply Qle_trans; [apply Q.le_min_r | apply IH; left].
    + apply elem_of_cons in Hy as [->|Hy]; [apply Q.le_min_l|].
      eapply Qle_trans; [apply Q.le_min_r | apply IH; now right].
Qed.

Lemma qmin_spec (l : list Q) (m : Q) :
  qmin l = Some m -> m ∈ l /\ forall y, y ∈ l -> m <= y.
Proof.
  destruct l as [|x l]; [discriminate|]. intros [= <-].
  split; [apply fold_Qmin_elem | apply fold_Qmin_le].
Qed.

Lemma written_header (nc nr : nat) (xll yll cs : Q) (body : list string) :
  read_header 6
    (app [ "ncols " ++ decimal (Z.of_nat nc);
           "nrows " ++ decimal (Z.of_nat nr);
           "xllcorner " ++ format_fixed 6 xll;
           "yllcorner " ++ format_fixed 6 yll;
           "cellsize " ++ format_fixed 6 cs;
           "NODATA_value -9999" ] body) ∅
  = Some (<["nodata_value" := NODATA]>
          (<["cellsize" := round_to 6 cs]>
           (<["yllcorner" := round_to 6 yll]>
            (<["xllcorner" := round_to 6 xll]>
             (<["nrows" := inject_Z (Z.of_nat nr)]>
              (<["ncols" := inject_Z (Z.of_nat nc)]> ∅)))))).
Proof.
  cbn [read_header app].
  change ("ncols " ++ ?x) with ("ncols" ++ " " ++ x).
  change ("nrows " ++ ?x) with ("nrows" ++ " " ++ x).
  change ("xllcorner " ++ ?x) with ("xllcorner" ++ " " ++ x).
  change ("yllcorner " ++ ?x) with ("yllcorner" ++ " " ++ x).
  change ("cellsize " ++ ?x) with ("cellsize" ++ " " ++ x).
  rewrite !header_entry_int by first [lia | split; [discriminate | reflexivity]].
  cbn [mbind option_bind].
  rewrite !header_entry_float by (split; [discriminate | reflexivity]).
  cbn [mbind option_bind].
  change (header_entry "NODATA_value -9999") with (Some (Some ("nodata_value", NODATA))).
  reflexivity.
Qed.

(** X10. The header of a written layer reads back as: the numbers of
    longitudes and of latitudes, the least longitude and the least latitude
    rounded to six decimals, the cell size rounded to six decimals, and the
    sentinel -9999.  The array read has as many rows as the data, whatever
    the header's row count. *)
Theorem header_round_trip (data : array) (lons lats : list Q) :
  lons <> [] -> lats <> [] ->
  Forall (fun row => length row = length lons) data ->
  exists lines header arr x y,
    save_monthly_layer data lons lats = Some lines
    /\ read_asc_file lines = Some (header, arr)
    /\ header !! "ncols" = Some (inject_Z (Z.of_nat (length lons)))
    /\ header !! "nrows" = Some (inject_Z (Z.of_nat (length lats)))
    /\ (x ∈ lons /\ (forall x', x' ∈ lons -> x <= x')
        /\ header !! "xllcorner" = Some (round_to 6 x))
    /\ (y ∈ lats /\ (forall y', y' ∈ lats -> y <= y')
        /\ header !! "yllcorner" = Some (round_to 6 y))
    /\ header !! "cellsize" = Some (round_to 6 (cellsize_of lons))
    /\ header !! "nodata_value" = Some NODATA
    /\ length arr = length data
    /\ Forall (fun row => length row = length lons) arr.
Proof.
  intros Hlons Hlats Hshape. unfold save_monthly_layer.
  destruct (qmin_is_Some lons Hlons) as [xll Hx].
  assert (Hlats' : (if ascending lats then reverse lats else lats) <> []).
  { destruct (ascending lats); [|exact Hlats].
    intros E. apply (f_equal length) in E. rewrite length_reverse in E.
    destruct lats; [congruence | discriminate]. }
  destruct (qmin_is_Some _ Hlats') as [yll Hy].
  rewrite Hx, Hy. cbn [mbind option_bind].
  set (rows := if ascending lats then reverse (map (map mask_cell) data)
               else map (map mask_cell) data).
  assert (Hrows : rows = map (map mask_cell) (north_to_south data lats)).
  { unfold rows, north_to_south. destruct (ascending lats); [|reflexivity].
    symmetry. apply fmap_reverse. }
  assert (Hlen : Forall (fun row => length row = length lons) (north_to_south data lats)).
  { unfold north_to_south. destruct (ascending lats); [|exact Hshape].
    now apply Forall_reverse. }
  assert (Hn : length (north_to_south data lats) = length data).
  { unfold north_to_south. destruct (ascending lats); [apply length_reverse | reflexivity]. }
  assert (Hnl : length (if ascending lats then reverse lats else lats) = length lats)
    by (destruct (ascending lats); [apply length_reverse | reflexivity]).
  apply qmin_spec in Hx as [Hx1 Hx2]. apply qmin_spec in Hy as [Hy1 Hy2].
  assert (Hy' : yll ∈ lats /\ forall y', y' ∈ lats -> yll <= y').
  { revert Hy1 Hy2. destruct (ascending lats); [|now split].
    intros Hy1 Hy2. rewrite elem_of_reverse in Hy1. split; [exact Hy1|].
    intros y' Hin. apply Hy2. now rewrite elem_of_reverse. }
  destruct Hy' as [Hy1' Hy2'].
  eexists. eexists. exists (map (map roundtrip_cell) (north_to_south data lats)), xll, yll.
  split; [reflexivity|].
  unfold read_asc_file. rewrite written_header, Hnl. cbn [mbind option_bind].
  rewrite drop_app_length' by reflexivity.
  rewrite Hrows, read_written_rows.
  - cbn [mbind option_bind].
    rewrite (rectangular_same_length (length lons)).
    + rewrite lookup_insert_eq. cbn [default from_option]. unfold Datatypes.id.
      split.
      { f_equal. f_equal. rewrite !map_map. apply map_ext. intros row.
        rewrite !map_map. apply map_ext. intros v. apply unmask_read_value. }
      repeat split; try assumption;
        try (repeat (rewrite lookup_insert_ne by discriminate); apply lookup_insert_eq).
      * now rewrite length_map.
      * rewrite Forall_fmap. eapply Forall_impl; [exact Hlen|]. cbn. intros row Hr.
        now rewrite length_map.
    + rewrite !Forall_fmap. eapply Forall_impl; [exact Hlen|].
      intros row Hr. cbn. now rewrite !length_map.
  - rewrite Forall_fmap. eapply Forall_impl; [exact Hlen|].
    intros row Hr. cbn. intros E. apply (f_equal length) in E.
    rewrite length_map, Hr in E. destruct lons; [congruence | discriminate].
Qed.

Lemma header_round_trip_witness :
  let data := [[Fin (1 # 3); NaN]; [PInf; Fin 25]] in
  let lons := [170%Q; 171%Q] in
  let lats := [-77; -76]%Q in
  exists lines header arr x y,
    save_monthly_layer data lons lats = Some lines
    /\ read_asc_file lines = Some (header, arr)
    /\ header !! "ncols" = Some (inject_Z (Z.of_nat (length lons)))
    /\ header !! "nrows" = Some (inject_Z (Z.of_nat (length lats)))
    /\ (x ∈ lons /\ (forall x', x' ∈ lons -> x <= x')
        /\ header !! "xllcorner" = Some (round_to 6 x))
    /\ (y ∈ lats /\ (forall y', y' ∈ lats -> y <= y')
        /\ header !! "yllcorner" = Some (round_to 6 y))
    /\ header !! "cellsize" = Some (round_to 6 (cellsize_of lons))
    /\ header !! "nodata_value" = Some NODATA
    /\ length arr = length data
    /\ Forall (fun row => length row = length lons) arr.
Proof.
  intros data lons lats. apply (header_round_trip data lons lats).
  - discriminate.
  - discriminate.
  - repeat constructor.
Defined.

End HeaderFacts.

Section GenerationFacts.
Import Maxent.
Local Open Scope R_scope.
Variable quantile : R -> list R -> R.
Variable SCIPY_AVAILABLE : bool.
Variable gaussian_filter : xgrid -> xgrid.

Lemma degenerate_range (resolution : R) (info : SpeciesInfo) :
  fst (info_lat_range info) = snd (info_lat_range info)
  \/ fst (info_lon_range info) = snd (info_lon_range info) ->
  species_map SCIPY_AVAILABLE gaussian_filter resolution info = None.
Proof.
  intros Hdeg. unfold species_map.
  destruct (info_lat_range info) as [lat_min lat_max].
  destruct (info_lon_range info) as [lon_min lon_max]. cbn [fst snd] in Hdeg.
  set (lat_grid := arange (lat_min - (lat_max - lat_min) * (15 / 100))
                          (lat_max + (lat_max - lat_min) * (15 / 100)) resolution).
  set (lon_grid := arange (lon_min - (lon_max - lon_min) * (15 / 100))
                          (lon_max + (lon_max - lon_min) * (15 / 100)) resolution).
  assert (Hempty : lat_grid = [] \/ lon_grid = []).
  { destruct Hdeg as [->| ->]; [left | right].
    - unfold lat_grid. replace (lat_max - (lat_max - lat_max) * (15 / 100))
        with (lat_max + (lat_max - lat_max) * (15 / 100)) by ring.
      apply arange_empty.
    - unfold lon_grid. replace (lon_max - (lon_max - lon_max) * (15 / 100))
        with (lon_max + (lon_max - lon_max) * (15 / 100)) by ring.
      apply arange_empty. }
  unfold meshgrid.
  rewrite (empty_grid_no_suitability SCIPY_AVAILABLE gaussian_filter (length lat_grid));
    [reflexivity|].
  destruct Hempty as [->| ->].
  - split; [reflexivity | constructor].
  - split; [now rewrite length_map|]. rewrite Forall_fmap. apply Forall_forall.
    intros x _. reflexivity.
Qed.

Lemma loop_stopped (resolution : R) (l : list (string * SpeciesInfo))
    (acc : list (string * HabitatResult)) :
  fold_left
    (fun (st : list (string * HabitatResult) * bool) (entry : string * SpeciesInfo) =>
       if snd st then
         match species_map SCIPY_AVAILABLE gaussian_filter resolution (snd entry) with
         | Some r => (app (fst st) [(fst entry, r)], true)
         | None => (fst st, false)
         end
       else st)
    l (acc, false) = (acc, false).
Proof. induction l as [|e l IH]; [reflexivity | exact IH]. Qed.

Lemma loop_spec (resolution : R) (l : list (string * SpeciesInfo)) :
  forall acc : list (string * HabitatResult),
  exists done rest added flag,
    fold_left
      (fun (st : list (string * HabitatResult) * bool) (entry : string * SpeciesInfo) =>
         if snd st then
           match species_map SCIPY_AVAILABLE gaussian_filter resolution (snd entry) with
           | Some r => (app (fst st) [(fst entry, r)], true)
           | None => (fst st, false)
           end
         else st)
      l (acc, true) = (app acc added, flag)
    /\ l = app done rest
    /\ Forall2 (fun e kr => fst kr = fst e
                  /\ species_map SCIPY_AVAILABLE gaussian_filter resolution (snd e)
                     = Some (snd kr)) done added
    /\ (if flag then rest = []
        else exists e rest', rest = e :: rest'
               /\ species_map SCIPY_AVAILABLE gaussian_filter resolution (snd e) = None).
Proof.
  induction l as [|e l IH]; intros acc.
  - exists [], [], [], true. cbn. rewrite app_nil_r. repeat split; constructor.
  - cbn [fold_left snd fst].
    destruct (species_map SCIPY_AVAILABLE gaussian_filter resolution (snd e)) as [r|] eqn:E.
    + destruct (IH (app acc [(fst e, r)])) as (done & rest & added & flag & Hf & -> & H2 & Hr).
      exists (e :: done), rest, ((fst e, r) :: added), flag.
      rewrite Hf, <- app_assoc. repeat split; try assumption.
      constructor; [now split | exact H2].
    + exists [], (e :: l), [], false. rewrite loop_stopped, app_nil_r.
      repeat split; [constructor|]. now exists e, l.
Qed.

(** X11. The map loop handles the species in the order of the dictionary
    and stops at the first one whose map cannot be built: the maps made are
    exactly those of the species before it, and the loop reaches its end
    only when every species gave a map. *)
Theorem generation_stops_at_first_failure (resolution : R)
    (species_data : list (string * SpeciesInfo)) :
  let out := generate_species_suitability_maps SCIPY_AVAILABLE gaussian_filter
               resolution species_data in
  exists done rest,
    species_data = app done rest
    /\ Forall2 (fun e kr => fst kr = fst e
                  /\ species_map SCIPY_AVAILABLE gaussian_filter resolution (snd e)
                     = Some (snd kr)) done (fst out)
    /\ (if snd out then rest = []
        else exists e rest', rest = e :: rest'
               /\ species_map SCIPY_AVAILABLE gaussian_filter resolution (snd e) = None).
Proof.
  intros out. subst out. unfold generate_species_suitability_maps.
  destruct (loop_spec resolution species_data []) as (done & rest & added & flag & Hf & H1 & H2 & H3).
  rewrite Hf. cbn [fst snd app]. now exists done, rest.
Qed.

Lemma rmin_constant (a : R) (l : list R) :
  l <> [] -> Forall (fun x => x = a) l -> rmin l = Some a /\ rmax l = Some a.
Proof.
  intros Hne Hl. destruct l as [|x l]; [congruence|].
  apply Forall_cons in Hl as [-> Hl]. unfold rmin, rmax. clear Hne.
  assert (E : foldr Rmin a l = a /\ foldr Rmax a l = a).
  { induction Hl as [|y l -> _ [IH1 IH2]]; [now split|].
    cbn [foldr]. rewrite IH1, IH2. split; [apply Rmin_left | apply Rmax_left]; lra. }
  destruct E as [-> ->]. now split.
Qed.

(** X12. When a species with at least 15 observations has all of them at
    one latitude, or all at one longitude, its prediction grid is empty: the
    map loop stops with an exception and no map is made for that species. *)
Theorem single_coordinate_aborts (columns : list string) (rows : list raw_observation)
    (resolution : R) (s : string) (a : R) :
  let data := omap dropna rows in
  (15 <= species_count data s)%nat ->
  (forall r, r ∈ data -> Species r = s -> LAT r = a)
  \/ (forall r, r ∈ data -> Species r = s -> LONG r = a) ->
  let out := generate_species_suitability_maps SCIPY_AVAILABLE gaussian_filter resolution
               (load_and_analyze_data quantile columns rows) in
  snd out = false /\ s ∉ map fst (fst out).
Proof.
  intros data Hcount Hone out.
  set (species_data := load_and_analyze_data quantile columns rows) in *.
  set (sd := filter (fun r => Species r = s) data).
  assert (Hsd : sd <> []).
  { unfold species_count in Hcount. fold sd in Hcount.
    destruct sd; [cbn in Hcount; lia | discriminate]. }
  assert (Hentry : forall e, e ∈ species_data -> fst e = s ->
            species_map SCIPY_AVAILABLE gaussian_filter resolution (snd e) = None).
  { intros e He Hs. unfold species_data, load_and_analyze_data, _analyze_by_species in He.
    apply list_elem_of_fmap in He as (s' & -> & _). cbn [fst] in Hs. subst s'.
    cbn [snd]. apply degenerate_range. cbn [info_lat_range info_lon_range fst snd].
    fold data. fold sd.
    destruct Hone as [Hlat|Hlon]; [left | right].
    - destruct (rmin_constant a (map LAT sd)) as [-> ->]; [| |reflexivity].
      + destruct sd; [congruence | discriminate].
      + rewrite Forall_fmap, Forall_forall. intros r Hr.
        apply list_elem_of_filter in Hr as [Hs Hr]. now apply Hlat.
    - destruct (rmin_constant a (map LONG sd)) as [-> ->]; [| |reflexivity].
      + destruct sd; [congruence | discriminate].
      + rewrite Forall_fmap, Forall_forall. intros r Hr.
        apply list_elem_of_filter in Hr as [Hs Hr]. now apply Hlon. }
  assert (Hin : exists e, e ∈ species_data /\ fst e = s).
  { assert (Hs : s ∈ map fst species_data).
    { unfold species_data, load_and_analyze_data. rewrite analysed_species.
      apply valid_species_elem. exact Hcount. }
    apply list_elem_of_fmap in Hs as (e & -> & He). now exists e. }
  destruct (loop_spec resolution species_data [])
    as (done & rest & added & flag & Hf & Hsplit & H2 & H3).
  assert (Hout : out = (added, flag)) by exact Hf.
  rewrite Hout. cbn [fst snd]. clear Hout Hf out.
  assert (Hdone : forall e, e ∈ done -> fst e <> s).
  { intros e He Hs.
    assert (Hn : species_map SCIPY_AVAILABLE gaussian_filter resolution (snd e) = None).
    { apply Hentry; [|exact Hs]. rewrite Hsplit. apply elem_of_app. now left. }
    apply list_elem_of_lookup in He as [i Hi].
    destruct (Forall2_lookup_l _ _ _ _ _ H2 Hi) as (kr & _ & _ & Hsome).
    congruence. }
  split.
  - destruct flag; [|reflexivity]. subst rest. rewrite app_nil_r in Hsplit. subst done.
    destruct Hin as (e & He & Hs). now destruct (Hdone e He).
  - intros Hs. apply list_elem_of_fmap in Hs as (kr & -> & Hkr).
    apply list_elem_of_lookup in Hkr as [i Hi].
    destruct (Forall2_lookup_r _ _ _ _ _ H2 Hi) as (e & He & Hk & _).
    apply (Hdone e); [eapply list_elem_of_lookup_2; exact He | now symmetry].
Qed.

End GenerationFacts.

Lemma single_coordinate_aborts_witness :
  let out := Maxent.generate_species_suitability_maps false (fun g => g) (8 / 100)%R
               (Maxent.load_and_analyze_data (fun _ _ => 0%R)
                  ["TempW"; "Salinity"]%string survey) in
  snd out = false /\ "Adelie"%string ∉ map fst (fst out).
Proof.
  apply (single_coordinate_aborts (fun _ _ => 0%R) false (fun g => g)
           ["TempW"; "Salinity"]%string survey (8 / 100)%R "Adelie"%string (-70)%R).
  - vm_compute. lia.
  - left. intros r Hr _. revert r Hr. apply Forall_forall.
    cbn. repeat constructor.
Defined.

Section AnalysisFacts.
Import Maxent.
Local Open Scope R_scope.
Variable quantile : R -> list R -> R.

Lemma sorted_weaken {A} (R1 R2 : A -> A -> Prop) (l : list A) :
  (forall a b, R1 a b -> R2 a b) -> StronglySorted R1 l -> StronglySorted R2 l.
Proof.
  intros H. induction 1 as [|x l _ IH Hx]; constructor; [exact IH|].
  eapply Forall_impl; [exact Hx|]. intros y. apply H.
Qed.

(** X13. The species dictionary lists each analysed species once, the most
    observed first; the count stored for a species is its number of rows,
    at least 15, and every one of its observations lies within the stored
    latitude and longitude ranges. *)
Theorem analysed_species_order (columns : list string) (data : list observation) :
  let out := _analyze_by_species quantile columns data in
  NoDup (map fst out)
  /\ StronglySorted (fun a b => (species_count data b <= species_count data a)%nat)
       (map fst out)
  /\ Forall (fun e : string * SpeciesInfo =>
               info_count (snd e) = species_count data (fst e)
               /\ (15 <= info_count (snd e))%nat
               /\ Forall (fun r =>
                            fst (info_lat_range (snd e)) <= LAT r <= snd (info_lat_range (snd e))
                            /\ fst (info_lon_range (snd e)) <= LONG r
                               <= snd (info_lon_range (snd e)))
                    (info_data (snd e)))
       out.
Proof.
  intros out. subst out. rewrite analysed_species. split; [|split].
  - unfold valid_species. rewrite (sort_by_perm _ _).
    apply NoDup_filter, NoDup_remove_dups.
  - unfold valid_species.
    eapply sorted_weaken;
      [|apply (sort_by_sorted
                 (fun a b : string => (species_count data b <=? species_count data a)%nat))].
    + intros a b H. now apply Nat.leb_le in H.
    + intros a b. rewrite !Nat.leb_le. lia.
    + intros a b c. rewrite !Nat.leb_le. lia.
  - unfold _analyze_by_species. rewrite Forall_fmap, Forall_forall. intros s Hs.
    cbn [compose fst snd info_count info_data info_lat_range info_lon_range].
    apply valid_species_elem in Hs. unfold min_observations in Hs.
    split; [reflexivity|]. split; [exact Hs|].
    rewrite Forall_forall. intros r Hr.
    split; apply range_bounds, list_elem_of_fmap; now exists r.
Qed.

End AnalysisFacts.

Section DepthFacts.
Import MonthlyLayers.
Local Open Scope Z_scope.

Lemma index_is_Some {A} (a : list A) (i : Z) :
  is_Some (index a i) <-> - Z.of_nat (length a) <= i < Z.of_nat (length a).
Proof.
  unfold index. destruct (0 <=? i) eqn:E0.
  - apply Z.leb_le in E0. rewrite lookup_lt_is_Some. lia.
  - apply Z.leb_gt in E0. destruct (- Z.of_nat (length a) <=? i) eqn:E1.
    + apply Z.leb_le in E1. rewrite lookup_lt_is_Some. lia.
    + apply Z.leb_gt in E1. split; [intros [x Hx]; discriminate | lia].
Qed.

Lemma mapM_is_Some {A B} (f : A -> option B) (l : list A) :
  is_Some (mapM f l) <-> Forall (fun x => is_Some (f x)) l.
Proof.
  split.
  - intros [k Hk]. apply mapM_Some in Hk.
    induction Hk as [|x y l k Hx _ IH]; constructor; eauto.
  - induction 1 as [|x l [y Hy] _ [k Hk]]; [now exists []|].
    exists (y :: k). cbn. rewrite Hy. cbn. now rewrite Hk.
Qed.

Lemma range_spec (n i : Z) : i ∈ range n <-> 0 <= i < n.
Proof.
  unfold range. rewrite list_elem_of_fmap. split.
  - intros (k & -> & Hk). apply elem_of_seq in Hk. lia.
  - intros H. exists (Z.to_nat i). split; [lia|]. apply elem_of_seq. lia.
Qed.

(** X14. The depth indices chosen for a variable are accepted exactly when
    the first five of them are positions of the depth axis (counting from
    either end); otherwise the method stops with an IndexError.  Under 'all'
    they are the first min(levels, maximum) positions and are always
    accepted; from a list, an index is kept when it is below the number of
    levels, so a negative index is kept too. *)
Theorem depth_indices_spec (depth_layers : depth_setting) (depth_values : list Q)
    (max_depth_layers : Z) :
  let n := Z.of_nat (length depth_values) in
  let chosen := select_depth_indices depth_layers depth_values max_depth_layers in
  (Forall (fun i => - n <= i < n) (take 5 chosen) ->
   depth_indices depth_layers depth_values max_depth_layers = Some (map Some chosen))
  /\ (~ Forall (fun i => - n <= i < n) (take 5 chosen) ->
      depth_indices depth_layers depth_values max_depth_layers = None)
  /\ (depth_layers = all ->
      (forall i, i ∈ chosen <-> 0 <= i < Z.min n max_depth_layers)
      /\ NoDup chosen
      /\ depth_indices depth_layers depth_values max_depth_layers = Some (map Some chosen))
  /\ (forall l, depth_layers = layers l ->
        forall i, i ∈ chosen <-> i ∈ l /\ i < n).
Proof.
  intros n chosen.
  assert (Hok : is_Some (mapM (index depth_values) (take 5 chosen))
                <-> Forall (fun i => - n <= i < n) (take 5 chosen)).
  { rewrite mapM_is_Some. apply Forall_proper; [|reflexivity].
    intros i. apply index_is_Some. }
  assert (H1 : Forall (fun i => - n <= i < n) (take 5 chosen) ->
               depth_indices depth_layers depth_values max_depth_layers
               = Some (map Some chosen)).
  { intros H. apply Hok in H as [k Hk]. unfold depth_indices. fold chosen.
    now rewrite Hk. }
  split; [exact H1|]. split; [|split].
  - intros H. unfold depth_indices. fold chosen.
    destruct (mapM (index depth_values) (take 5 chosen)) as [k|] eqn:E; [|reflexivity].
    exfalso. apply H, Hok. eauto.
  - intros ->. cbn [select_depth_indices] in chosen.
    assert (Hi : forall i, i ∈ chosen <-> 0 <= i < Z.min n max_depth_layers)
      by (intros i; apply range_spec).
    split; [exact Hi|]. split.
    + unfold chosen, range. apply (NoDup_fmap_2 _), NoDup_seq.
    + apply H1. rewrite Forall_forall. intros i Hin.
      assert (Hc : i ∈ chosen).
      { apply list_elem_of_lookup in Hin as [k Hk].
        apply lookup_take_Some in Hk as [Hk _]. eapply list_elem_of_lookup_2, Hk. }
      apply Hi in Hc. lia.
  - intros l ->. intros i. unfold chosen. cbn [select_depth_indices].
    rewrite list_elem_of_filter. tauto.
Qed.

End DepthFacts.

Section ConversionFacts.
Import MonthlyLayers.
Variables time_step file : Type.
Variable time_info : list time_step.
Variable dimensions : string -> option (list string).
Variable depth_info : gmap string (list Q).
Variable save_layer : string -> time_step -> option Z -> option file.

Lemma operations_length (var_name : string) (depth_indices : list (option Z)) :
  length (operations time_step time_info var_name depth_indices)
  = (length time_info * length depth_indices)%nat.
Proof.
  unfold operations.
  assert (Hrow : forall t : time_step,
            length (depth_indices ≫= fun d => [(var_name, t, d)]) = length depth_indices).
  { intros t. induction depth_indices as [|d ds IHd]; [reflexivity|].
    rewrite bind_cons. cbn [app length]. now rewrite IHd. }
  induction time_info as [|t ts IH]; [reflexivity|].
  rewrite bind_cons, length_app, IH, Hrow. cbn [length]. lia.
Qed.

Lemma omap_length_le {A B} (f : A -> option B) (l : list A) :
  (length (omap f l) <= length l)%nat.
Proof.
  induction l as [|x l IH]; [reflexivity|].
  change (omap f (x :: l)) with (match f x with Some y => y :: omap f l | None => omap f l end).
  destruct (f x); cbn [length]; lia.
Qed.

Lemma convert_loop_counts (variables : list string) (depth_layers : depth_setting)
    (max_depth_layers : Z) :
  forall (files0 : list file) (total0 succ0 : nat) files total succ,
    foldl
      (fun st var_name =>
         '(converted_files, total_operations, successful_operations) ← st;
         var_dims ← dimensions var_name;
         depth_indices ← depth_indices_of depth_info var_dims depth_layers max_depth_layers;
         let ops := operations time_step time_info var_name depth_indices in
         let written :=
           omap (fun op => save_layer (fst (fst op)) (snd (fst op)) (snd op)) ops in
         Some (app converted_files written,
               (total_operations + length ops)%nat,
               (successful_operations + length written)%nat))
      (Some (files0, total0, succ0)) variables = Some (files, total, succ) ->
    (length files - length files0 = succ - succ0)%nat
    /\ (succ0 <= succ)%nat /\ (length files0 <= length files)%nat
    /\ (succ - succ0 <= total - total0)%nat /\ (total0 <= total)%nat
    /\ (exists k, (total - total0 = length time_info * k)%nat)
    /\ (variables = [] -> total = total0).
Proof.
  induction variables as [|v vs IH]; intros files0 total0 succ0 files total succ.
  - cbn [foldl]. intros [= <- <- <-]. repeat split; try lia. exists O. lia.
  - cbn [foldl mbind option_bind].
    destruct (dimensions v) as [var_dims|]; cbn [mbind option_bind].
    2:{ intros H. exfalso. clear IH. revert H. induction vs as [|v' vs' IHv]; [discriminate|].
        exact IHv. }
    destruct (depth_indices_of depth_info var_dims depth_layers max_depth_layers)
      as [idx|]; cbn [mbind option_bind].
    2:{ intros H. exfalso. clear IH. revert H. induction vs as [|v' vs' IHv]; [discriminate|].
        exact IHv. }
    intros H. apply IH in H as (H1 & H2 & H3 & H4 & H5 & (k & Hk) & _).
    rewrite length_app in H1, H3.
    pose proof (omap_length_le
                  (fun op : string * time_step * option Z =>
                     save_layer (fst (fst op)) (snd (fst op)) (snd op))
                  (operations time_step time_info v idx)) as Hle.
    rewrite operations_length in *.
    repeat split; try lia.
    + exists (length idx + k)%nat. nia.
    + discriminate.
Qed.

Lemma rate_bounds (total succ : nat) :
  (total <> 0)%nat -> (succ <= total)%nat ->
  (0 <= inject_Z (Z.of_nat succ) / inject_Z (Z.of_nat total) * 100 <= 100)%Q.
Proof.
  intros Ht Hs.
  assert (H0 : (0 < inject_Z (Z.of_nat total))%Q)
    by (change 0%Q with (inject_Z 0); rewrite <- Zlt_Qlt; lia).
  assert (H1 : (0 <= inject_Z (Z.of_nat succ))%Q)
    by (change 0%Q with (inject_Z 0); rewrite <- Zle_Qle; lia).
  assert (H2 : (inject_Z (Z.of_nat succ) <= inject_Z (Z.of_nat total))%Q)
    by (rewrite <- Zle_Qle; lia).
  assert (0 <= inject_Z (Z.of_nat succ) / inject_Z (Z.of_nat total))%Q
    by (apply Qle_shift_div_l; [exact H0 | lra]).
  assert (inject_Z (Z.of_nat succ) / inject_Z (Z.of_nat total) <= 1)%Q
    by (apply Qle_shift_div_r; [exact H0 | lra]).
  lra.
Qed.

(** X15. When the conversion returns, the number of files equals the
    number of successful operations, which is at most the number of
    operations, a multiple of the number of time steps, and the rate
    reported lies between 0 and 100.  With no time step, or with no
    variable, the method never returns: the report divides by zero. *)
Theorem conversion_accounting (variables : list string) (depth_layers : depth_setting)
    (max_depth_layers : Z) :
  (forall files total succ,
      convert_loop time_step file time_info dimensions depth_info save_layer
        variables depth_layers max_depth_layers = Some (files, total, succ) ->
      succ = length files /\ (succ <= total)%nat
      /\ exists k, total = (length time_info * k)%nat)
  /\ (forall files rate,
        convert_all_monthly_layers time_step file time_info dimensions depth_info save_layer
          variables depth_layers max_depth_layers = Some (files, rate) ->
        (0 <= rate <= 100)%Q /\ time_info <> [] /\ variables <> [])
  /\ (time_info = [] \/ variables = [] ->
      convert_all_monthly_layers time_step file time_info dimensions depth_info save_layer
        variables depth_layers max_depth_layers = None).
Proof.
  assert (Hloop : forall files total succ,
      convert_loop time_step file time_info dimensions depth_info save_layer
        variables depth_layers max_depth_layers = Some (files, total, succ) ->
      succ = length files /\ (succ <= total)%nat
      /\ (exists k, total = (length time_info * k)%nat)
      /\ (variables = [] -> total = O)).
  { intros files total succ H. unfold convert_loop in H.
    apply convert_loop_counts in H as (H1 & H2 & H3 & H4 & H5 & (k & Hk) & H6).
    cbn [length] in *. repeat split; try lia; [exists k; lia | intros E; specialize (H6 E); lia]. }
  assert (Hzero : time_info = [] \/ variables = [] ->
      convert_all_monthly_layers time_step file time_info dimensions depth_info save_layer
        variables depth_layers max_depth_layers = None).
  { intros Hempty. unfold convert_all_monthly_layers.
    destruct (convert_loop _ _ _ _ _ _ _ _ _) as [[[files total] succ]|] eqn:E; [|reflexivity].
    destruct (Hloop _ _ _ eq_refl) as (_ & _ & (k & Hk) & Hv). cbn [mbind option_bind].
    assert (total = O) as ->.
    { destruct Hempty as [Ht|Hvs]; [|now apply Hv]. rewrite Ht in Hk. cbn in Hk. lia. }
    reflexivity. }
  split; [|split; [|exact Hzero]].
  - intros files total succ H. apply Hloop in H as (H1 & H2 & H3 & _). auto.
  - intros files rate H.
    assert (Hne : time_info <> [] /\ variables <> []).
    { split; intros E; rewrite Hzero in H; try discriminate; [now left | now right]. }
    split; [|exact Hne].
    unfold convert_all_monthly_layers in H.
    destruct (convert_loop _ _ _ _ _ _ _ _ _) as [[[files' total] succ]|] eqn:E;
      [|discriminate].
    destruct (Hloop _ _ _ eq_refl) as (_ & Hle & _ & _). cbn [mbind option_bind] in H.
    unfold success_rate in H. destruct (total =? 0)%nat eqn:Et; [discriminate|].
    apply Nat.eqb_neq in Et. cbn [mbind option_bind] in H. injection H as _ <-.
    now apply rate_bounds.
Qed.

End ConversionFacts.

Section MapFacts.
Import Maxent MaxentMaps.
Local Open Scope R_scope.

Lemma filter_exclusive_length {A} (P Q : A -> Prop) `{forall x, Decision (P x)}
    `{forall x, Decision (Q x)} (l : list A) :
  (forall x, P x -> Q x -> False) ->
  (length (filter P l) + length (filter Q l) <= length l)%nat.
Proof.
  intros Hex. induction l as [|x l IH]; [reflexivity|].
  rewrite !filter_cons.
  destruct (decide (P x)) as [HP|HP], (decide (Q x)) as [HQ|HQ]; cbn [length]; try lia.
  destruct (Hex x HP HQ).
Qed.

Lemma rsum_bounds (l : list R) :
  Forall (fun x => 0 <= x <= 1) l -> 0 <= rsum l <= INR (length l).
Proof.
  unfold rsum. induction 1 as [|x l Hx _ IH]; [cbn; lra|].
  cbn [foldr length]. rewrite S_INR. lra.
Qed.

Lemma count_cells_finite (test : R -> bool) (a : grid) :
  count_cells test (finite a) = length (filter (fun x => test x = true) (ravel a)).
Proof.
  unfold count_cells. rewrite ravel_finite.
  induction (ravel a) as [|x l IH]; [reflexivity|].
  cbn [map]. rewrite !filter_cons. cbn [from_option].
  destruct (decide (test x = true)); cbn [length]; now rewrite IH.
Qed.

(** X16. For a suitability grid without NaN, with cells in [0, 1] and
    maximum 1 (a normalised map), the statistics are produced: the maximum
    shown is 1, the mean lies in [0, 1], the high-suitability share is above
    0, and the high and moderate shares together do not exceed 100 percent. *)
Theorem map_statistics_normalised (habitat_data : HabitatResult) (suitability : grid) :
  res_suitability habitat_data = finite suitability ->
  grid_all (fun x => 0 <= x <= 1) suitability ->
  grid_max suitability = Some 1 ->
  exists st mean,
    _get_map_statistics habitat_data = Some st
    /\ obs_count st = length (res_observations habitat_data)
    /\ max_suit st = Some 1
    /\ mean_suit st = Some mean
    /\ 0 <= mean <= 1
    /\ 0 < high_percent st <= 100
    /\ 0 <= mod_percent st
    /\ high_percent st + mod_percent st <= 100.
Proof.
  intros Hfin Hall Hmax. unfold _get_map_statistics.
  rewrite Hfin, xgrid_max_finite, Hmax. cbn [fmap option_fmap option_map mbind option_bind].
  rewrite ravel_finite, all_numbers_Some, !count_cells_finite, length_map.
  cbn [fmap option_fmap option_map].
  eexists. eexists. split; [reflexivity|].
  cbn [obs_count max_suit mean_suit high_percent mod_percent].
  set (cells := ravel suitability).
  assert (Hone : 1 ∈ cells).
  { unfold grid_max in Hmax. fold cells in Hmax.
    destruct (rmax_spec cells) as (m & E & Hin & _).
    - intros E. rewrite E in Hmax. discriminate.
    - rewrite E in Hmax. injection Hmax as ->. exact Hin. }
  assert (Hn : (1 <= length cells)%nat).
  { destruct cells; [now apply elem_of_nil in Hone | cbn; lia]. }
  assert (Hhigh : (1 <= length (filter (fun x => at_least (7 / 10) x = true) cells))%nat).
  { assert (Hin : 1 ∈ filter (fun x => at_least (7 / 10) x = true) cells).
    { apply list_elem_of_filter. split; [|exact Hone].
      unfold at_least. destruct (Rle_dec (7 / 10) 1); [reflexivity | lra]. }
    destruct (filter _ cells); [now apply elem_of_nil in Hin | cbn; lia]. }
  assert (Hsum : (length (filter (fun x => at_least (7 / 10) x = true) cells)
                  + length (filter (fun x => at_least (4 / 10) x && below (7 / 10) x = true)
                              cells) <= length cells)%nat).
  { apply filter_exclusive_length.
    intros x H1 H2. apply andb_true_iff in H2 as [_ H2].
    unfold at_least in H1. unfold below in H2.
    destruct (Rle_dec (7 / 10) x); [|discriminate].
    destruct (Rlt_dec x (7 / 10)); [lra | discriminate]. }
  set (high := length (filter (fun x => at_least (7 / 10) x = true) cells)) in *.
  set (mod_ := length (filter (fun x => at_least (4 / 10) x && below (7 / 10) x = true)
                         cells)) in *.
  assert (HN : 0 < INR (length cells)) by (apply lt_0_INR; lia).
  assert (Hh : 1 <= INR high) by (change 1 with (INR 1); apply le_INR; lia).
  assert (Hm : 0 <= INR mod_) by apply pos_INR.
  assert (Hs : INR high + INR mod_ <= INR (length cells))
    by (rewrite <- plus_INR; apply le_INR; lia).
  assert (Hdiv : forall a, a / INR (length cells) * 100 = a * (100 / INR (length cells)))
    by (intros a; field; lra).
  assert (Hk : 0 < 100 / INR (length cells)) by (apply Rdiv_lt_0_compat; lra).
  assert (Hk1 : INR (length cells) * (100 / INR (length cells)) = 100) by (field; lra).
  rewrite !Hdiv.
  apply grid_all_cells in Hall. fold cells in Hall.
  destruct (rsum_bounds _ Hall) as [H0 H1].
  repeat split; try reflexivity.
  - unfold np_mean. fold cells.
    apply Rmult_le_pos; [exact H0 | left; now apply Rinv_0_lt_compat].
  - unfold np_mean. fold cells.
    apply Rmult_le_reg_r with (INR (length cells)); [exact HN|].
    replace (rsum cells / INR (length cells) * INR (length cells)) with (rsum cells)
      by (field; lra).
    lra.
  - nra.
  - nra.
  - nra.
  - nra.
Qed.

Lemma map_statistics_normalised_witness :
  let habitat_data := mk_result [-70] [170; 171] (finite [[1; 1 / 2]]) [[-70; -70]]
                        [[170; 171]] [(-70, 170, Some 3)] in
  exists st mean,
    _get_map_statistics habitat_data = Some st
    /\ obs_count st = length (res_observations habitat_data)
    /\ max_suit st = Some 1
    /\ mean_suit st = Some mean
    /\ 0 <= mean <= 1
    /\ 0 < high_percent st <= 100
    /\ 0 <= mod_percent st
    /\ high_percent st + mod_percent st <= 100.
Proof.
  intros habitat_data. apply (map_statistics_normalised habitat_data [[1; 1 / 2]]).
  - reflexivity.
  - repeat constructor; cbn; lra.
  - unfold grid_max. apply rmax_unique; [left|].
    repeat constructor; lra.
Defined.

(** X17. When the comparison figure is drawn it shows between two and four
    species on one or two rows of two panels; every species has a panel of
    its own inside the figure, the species and the hidden panels together
    fill the figure in reading order, and at most one panel is hidden.  A
    map of its own is drawn only for a species that has a suitability
    entry. *)
Theorem comparison_layout (species_list : option (list string))
    (habitat_suitability singles cmp : list string) :
  create_oceanographic_maps species_list habitat_suitability = (singles, Some cmp) ->
  let nrows := fst (fst (comparison_panels cmp)) in
  let panels := snd (fst (comparison_panels cmp)) in
  let hidden := snd (comparison_panels cmp) in
  (2 <= length cmp <= 4)%nat
  /\ (1 <= nrows <= 2)%nat
  /\ map fst panels = cmp
  /\ app (map snd panels) hidden
     = map (fun i => ((i / 2)%nat, (i mod 2)%nat)) (seq 0 (nrows * 2))
  /\ NoDup (app (map snd panels) hidden)
  /\ Forall (fun p => (fst p < nrows)%nat /\ (snd p < 2)%nat) (app (map snd panels) hidden)
  /\ (length hidden <= 1)%nat
  /\ Forall (fun s => s ∈ habitat_suitability) singles.
Proof.
  unfold create_oceanographic_maps.
  set (l := match species_list with None => take 6 habitat_suitability | Some l => l end).
  destruct (Nat.ltb_spec 1 (length l)) as [Hlen|Hlen]; [|discriminate].
  intros [= <- <-]. cbn zeta.
  set (cmp := take 4 l).
  assert (Hc : (2 <= length cmp <= 4)%nat) by (unfold cmp; rewrite length_take; lia).
  unfold comparison_panels. cbn [fst snd].
  set (nrows := ((length cmp + 2 - 1) / 2)%nat).
  assert (Hn : (length cmp <= nrows * 2 <= length cmp + 1)%nat).
  { unfold nrows. pose proof (Nat.div_mod_eq (length cmp + 2 - 1) 2).
    pose proof (Nat.mod_upper_bound (length cmp + 2 - 1) 2). lia. }
  assert (Hpanels : map snd (imap (fun i species_name =>
                       (species_name, ((i / 2)%nat, (i mod 2)%nat))) cmp)
                    = map (fun i => ((i / 2)%nat, (i mod 2)%nat)) (seq 0 (length cmp))).
  { apply list_eq. intros i. rewrite !list_lookup_fmap, list_lookup_imap.
    destruct (cmp !! i) as [s|] eqn:E; cbn.
    - rewrite lookup_seq_lt by (eapply lookup_lt_Some; exact E). reflexivity.
    - rewrite lookup_seq_ge by (apply lookup_ge_None; exact E). reflexivity. }
  assert (Hall : app (map snd (imap (fun i species_name =>
                         (species_name, ((i / 2)%nat, (i mod 2)%nat))) cmp))
                     (map (fun i => ((i / 2)%nat, (i mod 2)%nat))
                        (seq (length cmp) (nrows * 2 - length cmp)))
                 = map (fun i => ((i / 2)%nat, (i mod 2)%nat)) (seq 0 (nrows * 2))).
  { rewrite Hpanels, <- map_app.
    replace (nrows * 2)%nat with (length cmp + (nrows * 2 - length cmp))%nat at 2 by lia.
    now rewrite seq_app. }
  split; [exact Hc|]. split; [lia|]. split; [|split; [exact Hall|]].
  - apply list_eq. intros i. rewrite list_lookup_fmap, list_lookup_imap.
    now destruct (cmp !! i).
  - rewrite Hall. split; [|split; [|split]].
    + apply NoDup_fmap_2_strong; [|apply NoDup_seq].
      intros i j _ _ E.
      assert (Hd : (i / 2 = j / 2)%nat) by exact (f_equal fst E).
      assert (Hm : (i mod 2 = j mod 2)%nat) by exact (f_equal snd E).
      pose proof (Nat.div_mod_eq i 2). pose proof (Nat.div_mod_eq j 2). lia.
    + rewrite Forall_fmap, Forall_forall. intros i Hi. apply elem_of_seq in Hi.
      cbn [fst snd compose]. split.
      * apply Nat.Div0.div_lt_upper_bound. lia.
      * apply Nat.mod_upper_bound. lia.
    + rewrite length_map, length_seq. lia.
    + rewrite Forall_forall. intros s Hs. now apply list_elem_of_filter in Hs as [Hs _].
Qed.

Lemma comparison_layout_witness :
  let cmp := ["Adelie"; "Skua"; "Minke"]%string in
  let nrows := fst (fst (comparison_panels cmp)) in
  let panels := snd (fst (comparison_panels cmp)) in
  let hidden := snd (comparison_panels cmp) in
  (2 <= length cmp <= 4)%nat
  /\ (1 <= nrows <= 2)%nat
  /\ map fst panels = cmp
  /\ app (map snd panels) hidden
     = map (fun i => ((i / 2)%nat, (i mod 2)%nat)) (seq 0 (nrows * 2))
  /\ NoDup (app (map snd panels) hidden)
  /\ Forall (fun p => (fst p < nrows)%nat /\ (snd p < 2)%nat) (app (map snd panels) hidden)
  /\ (length hidden <= 1)%nat
  /\ Forall (fun s => s ∈ ["Adelie"; "Skua"]%string) ["Adelie"; "Skua"]%string.
Proof.
  apply (comparison_layout (Some ["Adelie"; "Skua"; "Minke"]%string)
           ["Adelie"; "Skua"]%string ["Adelie"; "Skua"]%string
           ["Adelie"; "Skua"; "Minke"]%string).
  vm_compute. reflexivity.
Defined.

End MapFacts.

Section ExportFacts.
Import Maxent MaxentMaps.
Local Open Scope R_scope.

Lemma bind_concat {A B} (f : A -> list B) (l : list A) : l ≫= f = concat (map f l).
Proof. induction l as [|x l IH]; [reflexivity|]. rewrite bind_cons, IH. reflexivity. Qed.

Lemma Forall2_concat {A B} (P : A -> B -> Prop) (ls1 : list (list A)) (ls2 : list (list B)) :
  Forall2 (Forall2 P) ls1 ls2 -> Forall2 P (concat ls1) (concat ls2).
Proof. induction 1; cbn [concat]; [constructor | now apply Forall2_app]. Qed.

Lemma lookup_map {A B} (f : A -> B) (l : list A) (i : nat) :
  map f l !! i = f <$> (l !! i).
Proof. apply list_lookup_fmap. Qed.

Lemma export_of_grid (lat_grid lon_grid : list R) (suitability : xgrid)
    (observations : list (R * R * option R)) :
  has_shape (length lat_grid) (length lon_grid) suitability ->
  export_records
    (mk_result lat_grid lon_grid suitability
       (snd (meshgrid lon_grid lat_grid)) (fst (meshgrid lon_grid lat_grid)) observations)
  = Some (concat (zip_with
                    (fun lat srow => zip_with (fun lon s => (lat, lon, s)) lon_grid srow)
                    lat_grid suitability)).
Proof.
  intros [Hr Hc]. unfold export_records.
  cbn [res_lat_mesh res_lon_mesh res_suitability meshgrid fst snd].
  set (lat_mesh := map (fun lat => map (fun _ : R => lat) lon_grid) lat_grid).
  set (lon_mesh := map (fun _ : R => lon_grid) lat_grid).
  apply mapM_Some. rewrite bind_concat. apply Forall2_concat.
  apply Forall2_same_length_lookup_2.
  - rewrite length_map, length_seq, length_zip_with. unfold lat_mesh.
    rewrite length_map. lia.
  - intros i idx recs Hidx Hrecs.
    rewrite list_lookup_fmap in Hidx.
    destruct (seq 0 (length lat_mesh) !! i) as [i'|] eqn:Hi; [|discriminate].
    apply lookup_seq in Hi as [-> Hi]. cbn in Hidx. injection Hidx as <-.
    apply lookup_zip_with_Some in Hrecs as (lat & srow & -> & Hlat & Hsrow).
    assert (Hncols : ncols lat_mesh = length lon_grid).
    { unfold lat_mesh. destruct lat_grid; [discriminate|]. cbn. apply length_map. }
    rewrite Hncols, bind_concat.
    assert (Hlen : length srow = length lon_grid).
    { rewrite Forall_forall in Hc. apply Hc. eapply list_elem_of_lookup_2, Hsrow. }
    replace (concat (map (fun j => [(i, j)]) (seq 0 (length lon_grid))))
      with (map (fun j => (i, j)) (seq 0 (length lon_grid)))
      by (induction (seq 0 (length lon_grid)) as [|j js IH]; [reflexivity|];
          cbn; now rewrite IH).
    apply Forall2_fmap_l. apply Forall2_same_length_lookup_2.
    + rewrite length_seq, length_zip_with. lia.
    + intros j j' rec Hj Hrec. apply lookup_seq in Hj as [-> Hj]. cbn [Nat.add].
      apply lookup_zip_with_Some in Hrec as (lon & s & -> & Hlon & Hs).
      unfold cell, compose, xgrid. cbn [fst snd]. unfold lat_mesh, lon_mesh.
      rewrite !lookup_map, Hlat, Hsrow. cbn.
      rewrite lookup_map, Hlon, Hs. reflexivity.
Qed.

End ExportFacts.

Section StoredResults.
Import Maxent MaxentMaps.
Local Open Scope R_scope.
Variable SCIPY_AVAILABLE : bool.
Variable gaussian_filter : xgrid -> xgrid.
Hypothesis filter_shape :
  forall r c g, has_shape r c g -> has_shape r c (gaussian_filter g).

Lemma density_shape (r c : nat) (obs_lats obs_lons obs_counts : list R)
    (lat_mesh lon_mesh : grid) :
  has_shape (S r) c lat_mesh -> has_shape (S r) c lon_mesh ->
  has_shape (S r) c
    (_calculate_density_suitability SCIPY_AVAILABLE gaussian_filter
       obs_lats obs_lons obs_counts lat_mesh lon_mesh).
Proof.
  intros Hlat Hlon. unfold _calculate_density_suitability.
  destruct SCIPY_AVAILABLE.
  - apply filter_shape. unfold kernel_density, reshape_like.
    rewrite (ncols_shape r c lat_mesh Hlat), (proj1 Hlat).
    apply chunks_shape. unfold cdist. rewrite !length_map, length_zip.
    rewrite (ravel_length _ _ _ Hlat), (ravel_length _ _ _ Hlon). lia.
  - apply has_shape_finite. unfold inverse_distance_density.
    destruct Hlat as [Hr1 Hc1], Hlon as [Hr2 Hc2]. now apply zip_rows_shape.
Qed.

Lemma suitability_shape (r c : nat) (species_data : list observation)
    (env_stats : gmap string EnvStat) (lat_mesh lon_mesh : grid) (suitability : xgrid) :
  has_shape (S r) c lat_mesh -> has_shape (S r) c lon_mesh ->
  _calculate_habitat_suitability SCIPY_AVAILABLE gaussian_filter species_data env_stats
    lat_mesh lon_mesh = Some suitability ->
  has_shape (S r) c suitability.
Proof.
  intros Hlat Hlon. unfold _calculate_habitat_suitability.
  assert (Hc : has_shape (S r) c
                 (combined_suitability SCIPY_AVAILABLE gaussian_filter species_data
                    env_stats lat_mesh lon_mesh)).
  { unfold combined_suitability.
    destruct (environmental_suitability_shape (S r) c species_data env_stats
                lat_mesh lon_mesh Hlat) as [[He1 He2] _].
    destruct (density_shape r c (map LAT species_data) (map LONG species_data)
                (map (fun r => default 1 (Counts r)) species_data)
                lat_mesh lon_mesh Hlat Hlon) as [Hd1 Hd2].
    now apply zip_rows_shape. }
  destruct (xgrid_max _) as [m|]; [|discriminate]. cbn [mbind option_bind].
  intros [= <-]. destruct m as [m|]; [|exact Hc].
  destruct (Rlt_dec 0 m); [now apply has_shape_map | exact Hc].
Qed.

Lemma records_length (lat_grid lon_grid : list R) (suitability : xgrid) :
  has_shape (length lat_grid) (length lon_grid) suitability ->
  length (concat (zip_with
                    (fun lat srow => zip_with (fun lon s => (lat, lon, s)) lon_grid srow)
                    lat_grid suitability))
  = (length lat_grid * length lon_grid)%nat.
Proof.
  intros [Hr Hc]. revert suitability Hr Hc.
  induction lat_grid as [|lat lat_grid IH]; intros [|srow suitability] Hr Hc;
    try discriminate; [reflexivity|].
  apply Forall_cons in Hc as [Hrow Hc]. cbn [zip_with concat length].
  rewrite length_app, length_zip_with, Hrow, IH; [cbn; lia | |exact Hc].
  cbn [length] in Hr. lia.
Qed.

(** X18. For every result the map loop stores, the meshes are the mesh
    grid of its two coordinate vectors, both vectors are non-empty and the
    suitability grid has their shape; the export then writes one record per
    grid cell, latitude by latitude and within a latitude longitude by
    longitude, each holding the cell's coordinates and its suitability. *)
Theorem exported_records (resolution : R) (species_info : SpeciesInfo)
    (habitat_data : HabitatResult) :
  species_map SCIPY_AVAILABLE gaussian_filter resolution species_info = Some habitat_data ->
  let lat_grid := res_lat_grid habitat_data in
  let lon_grid := res_lon_grid habitat_data in
  let records :=
    concat (zip_with
              (fun lat srow => zip_with (fun lon s => (lat, lon, s)) lon_grid srow)
              lat_grid (res_suitability habitat_data)) in
  lat_grid <> [] /\ lon_grid <> []
  /\ res_lat_mesh habitat_data = snd (meshgrid lon_grid lat_grid)
  /\ res_lon_mesh habitat_data = fst (meshgrid lon_grid lat_grid)
  /\ has_shape (length lat_grid) (length lon_grid) (res_suitability habitat_data)
  /\ export_records habitat_data = Some records
  /\ length records = (length lat_grid * length lon_grid)%nat.
Proof.
  unfold species_map.
  destruct (info_lat_range species_info) as [lat_min lat_max].
  destruct (info_lon_range species_info) as [lon_min lon_max].
  set (lat_grid := arange (lat_min - (lat_max - lat_min) * (15 / 100))
                          (lat_max + (lat_max - lat_min) * (15 / 100)) resolution).
  set (lon_grid := arange (lon_min - (lon_max - lon_min) * (15 / 100))
                          (lon_max + (lon_max - lon_min) * (15 / 100)) resolution).
  unfold meshgrid.
  set (lon_mesh := map (fun _ : R => lon_grid) lat_grid).
  set (lat_mesh := map (fun lat => map (fun _ : R => lat) lon_grid) lat_grid).
  destruct (_calculate_habitat_suitability _ _ _ _ lat_mesh lon_mesh) as [suit|] eqn:E;
    [|discriminate].
  cbn [mbind option_bind]. intros [= <-].
  cbn [res_lat_grid res_lon_grid res_lat_mesh res_lon_mesh res_suitability].
  assert (Hne : lat_grid <> [] /\ lon_grid <> []).
  { split; intros Hempty.
    - rewrite (empty_grid_no_suitability SCIPY_AVAILABLE gaussian_filter (length lat_grid))
        in E; [discriminate|].
      unfold lat_mesh. rewrite Hempty. split; [reflexivity | constructor].
    - rewrite (empty_grid_no_suitability SCIPY_AVAILABLE gaussian_filter (length lat_grid))
        in E; [discriminate|].
      unfold lat_mesh. rewrite Hempty. split; [now rewrite length_map|].
      rewrite Forall_fmap. apply Forall_forall. intros x _. reflexivity. }
  destruct Hne as [Hlat Hlon].
  destruct (meshgrid_shape lon_grid lat_grid) as [Hs1 Hs2].
  unfold meshgrid in Hs1, Hs2. cbn [fst snd] in Hs1, Hs2.
  fold lon_mesh in Hs1. fold lat_mesh in Hs2.
  assert (Hshape : has_shape (length lat_grid) (length lon_grid) suit).
  { destruct lat_grid as [|lat0 lat_grid'] eqn:El; [congruence|]. cbn [length] in *.
    eapply suitability_shape; [exact Hs2 | exact Hs1 | exact E]. }
  repeat split; try assumption.
  - apply Hshape.
  - apply Hshape.
  - apply (export_of_grid lat_grid lon_grid suit). exact Hshape.
  - now apply records_length.
Qed.

End StoredResults.

Lemma up_opp_1 : up (Ropp 1) = 0%Z.
Proof. symmetry. apply tech_up; cbn; lra. Qed.

Lemma arange_one (a b step : R) :
  ((b - a) / step = 1)%R -> Maxent.arange a b step = [(a + INR 0 * step)%R].
Proof. intros E. unfold Maxent.arange, Maxent.np_ceil. rewrite E, up_opp_1. reflexivity. Qed.

Lemma exported_records_witness :
  exists habitat_data,
    Maxent.species_map false (fun g => g) (13 / 10)
      (Maxent.mk_info one_sighting 1 ∅ (-70, -69)%R (170, 171)%R) = Some habitat_data
    /\ let lat_grid := Maxent.res_lat_grid habitat_data in
       let lon_grid := Maxent.res_lon_grid habitat_data in
       let records :=
         concat (zip_with
                   (fun lat srow => zip_with (fun lon s => (lat, lon, s)) lon_grid srow)
                   lat_grid (Maxent.res_suitability habitat_data)) in
       lat_grid <> [] /\ lon_grid <> []
       /\ Maxent.res_lat_mesh habitat_data = snd (Maxent.meshgrid lon_grid lat_grid)
       /\ Maxent.res_lon_mesh habitat_data = fst (Maxent.meshgrid lon_grid lat_grid)
       /\ has_shape (length lat_grid) (length lon_grid) (Maxent.res_suitability habitat_data)
       /\ MaxentMaps.export_records habitat_data = Some records
       /\ length records = (length lat_grid * length lon_grid)%nat.
Proof.
  assert (E : exists habitat_data,
             Maxent.species_map false (fun g => g) (13 / 10)
               (Maxent.mk_info one_sighting 1 ∅ (-70, -69)%R (170, 171)%R)
             = Some habitat_data).
  { eexists. unfold Maxent.species_map.
    cbn [Maxent.info_lat_range Maxent.info_lon_range Maxent.info_data Maxent.info_env_stats].
    rewrite (arange_one (-70 - (-69 - -70) * (15 / 100))) by (field_simplify; lra).
    rewrite (arange_one (170 - (171 - 170) * (15 / 100))) by (field_simplify; lra).
    cbn [Maxent.meshgrid map].
    unfold Maxent._calculate_habitat_suitability, Maxent.grid_max, Maxent.ravel,
      Maxent.combined_suitability, Maxent._calculate_density_suitability,
      Maxent.inverse_distance_density, Maxent._calculate_environmental_suitability.
    rewrite map_size_empty.
    cbn [Nat.ltb Nat.leb Maxent.ones_like Maxent.grid_map Maxent.grid_mul map zip_with
         concat app Maxent.rmax foldr mbind option_bind].
    reflexivity. }
  destruct E as [habitat_data E]. exists habitat_data. split; [exact E|].
  apply (exported_records false (fun g => g) (fun r c g H => H) (13 / 10)
           (Maxent.mk_info one_sighting 1 ∅ (-70, -69)%R (170, 171)%R) habitat_data E).
Defined.

Section VariableFacts.
Import MonthlyLayers.

(** X19. When no variable list is given, the variables converted are taken
    from the file's own data variables, at most eight of them and none
    twice; the choice is empty only when the file has no data variable. *)
Theorem automatic_variables (available_vars : list string) :
  let variables := choose_variables None available_vars in
  Forall (fun v => v ∈ available_vars) variables
  /\ (length variables <= 8)%nat
  /\ (variables = [] <-> available_vars = [])
  /\ (NoDup available_vars -> NoDup variables)
  /\ (forall v, v ∈ recommended -> v ∈ available_vars ->
        variables = filter (fun v => v ∈ available_vars) recommended).
Proof.
  intros variables. subst variables. unfold choose_variables.
  assert (Hrec : NoDup recommended)
    by (apply (bool_decide_unpack _); vm_compute; reflexivity).
  destruct (filter (fun v => v ∈ available_vars) recommended) as [|v vs] eqn:E.
  - split; [|split; [|split; [|split]]].
    + rewrite Forall_forall. intros v Hv.
      apply list_elem_of_lookup in Hv as [i Hi].
      apply lookup_take_Some in Hi as [Hi _]. eapply list_elem_of_lookup_2, Hi.
    + rewrite length_take. lia.
    + split; [|now intros ->]. destruct available_vars; [reflexivity | discriminate].
    + intros Hnd. apply (sublist_NoDup _ _ Hnd (sublist_take _ _)).
    + intros v Hr Ha. exfalso.
      assert (Hin : v ∈ filter (fun v => v ∈ available_vars) recommended)
        by (apply list_elem_of_filter; now split).
      rewrite E in Hin. now apply elem_of_nil in Hin.
  - rewrite <- E. split; [|split; [|split; [|split]]].
    + rewrite Forall_forall. intros x Hx. now apply list_elem_of_filter in Hx as [Hx _].
    + etransitivity; [apply length_filter|]. reflexivity.
    + assert (Hv : v ∈ filter (fun v => v ∈ available_vars) recommended)
        by (rewrite E; left).
      apply list_elem_of_filter in Hv as [Hv _]. rewrite E. split; [discriminate|].
      intros ->. now apply elem_of_nil in Hv.
    + intros _. now apply NoDup_filter.
    + reflexivity.
Qed.

End VariableFacts.

Section LayerFacts.
Import MonthlyLayers.

Lemma ensure_2d_spec (shape : list nat) :
  (length (ensure_2d shape) <= 2)%nat \/ hd O (ensure_2d shape) <> 1%nat.
Proof.
  induction shape as [|n rest IH]; [left; cbn; lia|].
  cbn [ensure_2d]. destruct (Nat.ltb_spec 2 (length (n :: rest))) as [Hlen|Hlen]; cbn [andb].
  - destruct (Nat.eqb_spec n 1) as [->|Hn]; [exact IH|]. right. exact Hn.
  - left. exact Hlen.
Qed.

Lemma ensure_2d_subseteq (shape : list nat) : ensure_2d shape ⊆ shape.
Proof.
  induction shape as [|n rest IH]; [reflexivity|]. cbn [ensure_2d].
  destruct ((2 <? length (n :: rest))%nat && (n =? 1)%nat); [|reflexivity].
  intros k Hk. right. now apply IH.
Qed.

Lemma sliced_shape_subseteq (shape : list nat) :
  forall slices data_shape, sliced_shape shape slices = Some data_shape -> data_shape ⊆ shape.
Proof.
  induction shape as [|n shape IH]; intros [|sl slices] data_shape; cbn [sliced_shape];
    try discriminate.
  - now intros [= <-].
  - destruct sl as [i|].
    + destruct (i <? n)%nat; [|discriminate]. intros H k Hk. right. eapply IH; eauto.
    + destruct (sliced_shape shape slices) as [k|] eqn:E; [|discriminate].
      cbn. intros [= <-]. intros x Hx. apply elem_of_cons in Hx as [->|Hx]; [left|].
      right. eapply IH; eauto.
Qed.

(** X20. The layer [get_monthly_data] returns has at most two axes unless
    its first axis has a length other than 1 (longer than 1 when the variable
    has no empty axis).  For a variable over (time, depth, y, x) and a time
    index that has a time-step entry: a time index and a depth index inside
    their axes give the y-by-x layer; without a depth index the layer is
    y-by-x only when the depth axis has one level, and keeps the depth axis
    otherwise; an index outside its axis makes the method return no data.  A
    time index without a time-step entry raises before anything is read. *)
Theorem monthly_layer_shape (time_var_name depth_name y x : string)
    (n_time_info nt nd ny nx time_idx d : nat) :
  depth_name ∈ depth_names -> depth_name <> time_var_name ->
  y ∉ depth_names -> y <> time_var_name ->
  x ∉ depth_names -> x <> time_var_name ->
  let dims := [time_var_name; depth_name; y; x] in
  let shape := [nt; nd; ny; nx] in
  (forall n dims' shape' t' d' s,
      get_monthly_data time_var_name n dims' shape' t' d' = layer s ->
      ((length s <= 2)%nat \/ hd O s <> 1%nat)
      /\ (Forall (fun k => (1 <= k)%nat) shape' -> (length s <= 2)%nat \/ (1 < hd O s)%nat))
  /\ ((time_idx < n_time_info)%nat -> (time_idx < nt)%nat -> (d < nd)%nat ->
      get_monthly_data time_var_name n_time_info dims shape time_idx (Some d)
      = layer [ny; nx])
  /\ ((time_idx < n_time_info)%nat -> (time_idx < nt)%nat ->
      get_monthly_data time_var_name n_time_info dims shape time_idx None
      = layer (if (nd =? 1)%nat then [ny; nx] else [nd; ny; nx]))
  /\ ((time_idx < n_time_info)%nat -> (nt <= time_idx)%nat \/ (nd <= d)%nat ->
      get_monthly_data time_var_name n_time_info dims shape time_idx (Some d) = no_data)
  /\ ((n_time_info <= time_idx)%nat ->
      forall depth_idx,
        get_monthly_data time_var_name n_time_info dims shape time_idx depth_idx = raised).
Proof.
  intros Hd Hdt Hy Hyt Hx Hxt dims shape.
  assert (Et : String.eqb time_var_name time_var_name = true) by apply String.eqb_refl.
  assert (Ed : String.eqb depth_name time_var_name = false) by now apply String.eqb_neq.
  assert (Ey : String.eqb y time_var_name = false) by now apply String.eqb_neq.
  assert (Ex : String.eqb x time_var_name = false) by now apply String.eqb_neq.
  assert (Hslices : forall depth_idx,
            build_slices time_var_name dims time_idx depth_idx
            = [at_index time_idx;
               match depth_idx with Some d => at_index d | None => whole end;
               whole; whole]).
  { intros depth_idx. unfold build_slices, dims. cbn [map].
    rewrite Et, Ed, Ey, Ex.
    rewrite (bool_decide_eq_true_2 _ Hd), (bool_decide_eq_false_2 _ Hy),
      (bool_decide_eq_false_2 _ Hx). reflexivity. }
  split; [|split; [|split; [|split]]].
  - intros n dims' shape' t' d' s. unfold get_monthly_data.
    destruct (t' <? n)%nat; [|discriminate].
    destruct (sliced_shape _ _) as [k|] eqn:Ek; [|discriminate]. intros [= <-].
    split; [apply ensure_2d_spec|]. intros Hpos.
    destruct (ensure_2d_spec k) as [Hl|Hh]; [now left|].
    destruct (ensure_2d k) as [|a rest] eqn:Es; [left; cbn; lia|]. right. cbn [hd] in *.
    assert (Ha : a ∈ shape').
    { eapply sliced_shape_subseteq; [exact Ek|]. apply ensure_2d_subseteq.
      rewrite Es. left. }
    rewrite Forall_forall in Hpos. specialize (Hpos a Ha). lia.
  - intros Hn Ht Hdd. unfold get_monthly_data. rewrite Hslices. unfold shape.
    destruct (Nat.ltb_spec time_idx n_time_info); [|lia]. cbn [sliced_shape].
    destruct (Nat.ltb_spec time_idx nt); [|lia]. destruct (Nat.ltb_spec d nd); [|lia].
    reflexivity.
  - intros Hn Ht. unfold get_monthly_data. rewrite Hslices. unfold shape.
    destruct (Nat.ltb_spec time_idx n_time_info); [|lia]. cbn [sliced_shape].
    destruct (Nat.ltb_spec time_idx nt); [|lia].
    cbn [fmap option_fmap option_map ensure_2d length Nat.ltb Nat.leb andb].
    destruct (nd =? 1)%nat; reflexivity.
  - intros Hn Hout. unfold get_monthly_data. rewrite Hslices. unfold shape.
    destruct (Nat.ltb_spec time_idx n_time_info); [|lia]. cbn [sliced_shape].
    destruct (Nat.ltb_spec time_idx nt); [|reflexivity].
    destruct (Nat.ltb_spec d nd); [lia | reflexivity].
  - intros Hn depth_idx. unfold get_monthly_data.
    destruct (Nat.ltb_spec time_idx n_time_info); [lia | reflexivity].
Qed.

Lemma monthly_layer_shape_witness :
  let dims := ["time"; "depth"; "latitude"; "longitude"] in
  let shape := [12; 5; 40; 80]%nat in
  (forall n dims' shape' t' d' s,
      get_monthly_data "time" n dims' shape' t' d' = layer s ->
      ((length s <= 2)%nat \/ hd O s <> 1%nat)
      /\ (Forall (fun k => (1 <= k)%nat) shape' -> (length s <= 2)%nat \/ (1 < hd O s)%nat))
  /\ ((3 < 12)%nat -> (3 < 12)%nat -> (2 < 5)%nat ->
      get_monthly_data "time" 12 dims shape 3 (Some 2%nat) = layer [40; 80]%nat)
  /\ ((3 < 12)%nat -> (3 < 12)%nat ->
      get_monthly_data "time" 12 dims shape 3 None
      = layer (if (5 =? 1)%nat then [40; 80]%nat else [5; 40; 80]%nat))
  /\ ((3 < 12)%nat -> (12 <= 3)%nat \/ (5 <= 2)%nat ->
      get_monthly_data "time" 12 dims shape 3 (Some 2%nat) = no_data)
  /\ ((12 <= 3)%nat ->
      forall depth_idx, get_monthly_data "time" 12 dims shape 3 depth_idx = raised).
Proof.
  apply (monthly_layer_shape "time" "depth" "latitude" "longitude" 12 12 5 40 80 3 2).
  - unfold depth_names. set_solver.
  - discriminate.
  - unfold depth_names. intros H. repeat (apply elem_of_cons in H as [H|H]; [discriminate|]).
    now apply elem_of_nil in H.
  - discriminate.
  - unfold depth_names. intros H. repeat (apply elem_of_cons in H as [H|H]; [discriminate|]).
    now apply elem_of_nil in H.
  - discriminate.
Defined.

(** The three outcomes on a file of twelve months and five depths. *)
Lemma get_monthly_data_outcomes :
  let dims := ["time"; "depth"; "latitude"; "longitude"] in
  let shape := [12; 5; 40; 80]%nat in
  get_monthly_data "time" 12 dims shape 11 (Some 4%nat) = layer [40; 80]%nat
  /\ get_monthly_data "time" 12 dims shape 11 (Some 5%nat) = no_data
  /\ get_monthly_data "time" 12 dims shape 12 (Some 0%nat) = raised
  /\ get_monthly_data "time" 12 ["time"; "depth"; "latitude"; "longitude"]
        [12; 1; 40; 80]%nat 0 None = layer [40; 80]%nat
  /\ get_monthly_data "time" 12 ["depth"; "latitude"; "longitude"]
        [1; 1; 80]%nat 0 None = layer [1; 80]%nat.
Proof. vm_compute. repeat split; reflexivity. Qed.

Lemma append_cancel_l (s a b : string) : s ++ a = s ++ b -> a = b.
Proof.
  induction s as [|c s IH]; [auto|].
  change (String c s ++ a) with (String c (s ++ a)).
  change (String c s ++ b) with (String c (s ++ b)). intros [= E]. auto.
Qed.

(** Two texts that start with a run of digits followed by a character that
    is not a digit have the same run when they are equal. *)
Lemma digit_run_unique (d1 d2 t1 t2 : string) (c1 c2 : ascii) :
  all_chars Text.is_digit d1 = true -> all_chars Text.is_digit d2 = true ->
  Text.is_digit c1 = false -> Text.is_digit c2 = false ->
  d1 ++ String c1 t1 = d2 ++ String c2 t2 -> d1 = d2 /\ String c1 t1 = String c2 t2.
Proof.
  revert d2. induction d1 as [|a d1 IH]; intros [|b d2] H1 H2 Hc1 Hc2 E.
  - now split.
  - change ("" ++ String c1 t1) with (String c1 t1) in E.
    change (String b d2 ++ String c2 t2) with (String b (d2 ++ String c2 t2)) in E.
    injection E as -> _. unfold all_chars in H2. cbn in H2.
    apply andb_prop in H2 as [H2 _]. congruence.
  - change ("" ++ String c2 t2) with (String c2 t2) in E.
    change (String a d1 ++ String c1 t1) with (String a (d1 ++ String c1 t1)) in E.
    injection E as -> _. unfold all_chars in H1. cbn in H1.
    apply andb_prop in H1 as [H1 _]. congruence.
  - change (String a d1 ++ String c1 t1) with (String a (d1 ++ String c1 t1)) in E.
    change (String b d2 ++ String c2 t2) with (String b (d2 ++ String c2 t2)) in E.
    injection E as -> E. unfold all_chars in H1, H2. cbn in H1, H2.
    apply andb_prop in H1 as [_ H1]. apply andb_prop in H2 as [_ H2].
    destruct (IH d2 H1 H2 Hc1 Hc2 E) as [-> Et]. now split.
Qed.

Lemma decimal_inj (a b : Z) : (0 <= a)%Z -> (0 <= b)%Z ->
  Text.decimal a = Text.decimal b -> a = b.
Proof.
  intros Ha Hb E. apply (f_equal Text.digits_value) in E.
  rewrite !digits_value_decimal in E by assumption. now injection E.
Qed.

Lemma decimal_first_digit (n : Z) :
  exists c r, Text.decimal n = String c r /\ Text.is_digit c = true.
Proof.
  pose proof (all_digits_decimal n) as H. pose proof (decimal_nonempty n) as Hne.
  destruct (Text.decimal n) as [|c r]; [congruence|]. exists c, r. split; [reflexivity|].
  unfold all_chars in H. cbn in H. now apply andb_prop in H as [H _].
Qed.

Lemma int_text_run_unique (i j : Z) (t1 t2 : string) (c1 c2 : ascii) :
  Text.is_digit c1 = false -> Text.is_digit c2 = false ->
  int_text i ++ String c1 t1 = int_text j ++ String c2 t2 ->
  i = j /\ String c1 t1 = String c2 t2.
Proof.
  intros Hc1 Hc2. unfold int_text.
  destruct (Z.ltb_spec i 0) as [Hi|Hi], (Z.ltb_spec j 0) as [Hj|Hj]; intros E.
  - rewrite !append_assoc in E. apply append_cancel_l in E.
    apply digit_run_unique in E as [E Et]; try apply all_digits_decimal; try assumption.
    apply decimal_inj in E; [|lia..]. split; [lia | exact Et].
  - exfalso. destruct (decimal_first_digit j) as (c & r & Ed & Hc). rewrite Ed in E.
    rewrite append_assoc in E.
    change ("-" ++ ?s) with (String "-" s) in E.
    change (String c r ++ ?s) with (String c (r ++ s)) in E.
    injection E as <- _. discriminate.
  - exfalso. destruct (decimal_first_digit i) as (c & r & Ed & Hc). rewrite Ed in E.
    rewrite append_assoc in E.
    change ("-" ++ ?s) with (String "-" s) in E.
    change (String c r ++ ?s) with (String c (r ++ s)) in E.
    injection E as -> _. discriminate.
  - apply digit_run_unique in E as [E Et]; try apply all_digits_decimal; try assumption.
    apply decimal_inj in E; [|lia..]. now split.
Qed.

(** X21. For one variable and one month, the file name of a layer
    determines its depth index: layers of different depth indices, and a
    layer without depth index, never share a file name. *)
Theorem layer_filename_depth (var_name date_str : string) (i j : option Z)
    (v w : option Q) :
  layer_filename var_name date_str i v = layer_filename var_name date_str j w -> i = j.
Proof.
  unfold layer_filename. intros E.
  destruct i as [i|], j as [j|].
  - assert (Et : exists c1 t1 c2 t2,
               Text.is_digit c1 = false /\ Text.is_digit c2 = false
               /\ int_text i ++ String c1 t1 = int_text j ++ String c2 t2).
    { destruct v as [v|], w as [w|];
        apply append_cancel_l, append_cancel_l, append_cancel_l, append_cancel_l in E.
      - exists "_"%char, (Text.format_fixed 1 v ++ "m.asc"),
               "_"%char, (Text.format_fixed 1 w ++ "m.asc"). repeat split. exact E.
      - exists "_"%char, (Text.format_fixed 1 v ++ "m.asc"), "."%char, "asc".
        repeat split. exact E.
      - exists "."%char, "asc", "_"%char, (Text.format_fixed 1 w ++ "m.asc").
        repeat split. exact E.
      - exists "."%char, "asc", "."%char, "asc". repeat split. exact E. }
    destruct Et as (c1 & t1 & c2 & t2 & H1 & H2 & Et).
    apply int_text_run_unique in Et as [-> _]; [reflexivity | assumption..].
  - exfalso. destruct v; apply append_cancel_l, append_cancel_l, append_cancel_l in E;
      discriminate.
  - exfalso. destruct w; apply append_cancel_l, append_cancel_l, append_cancel_l in E;
      discriminate.
  - reflexivity.
Qed.

Lemma layer_filename_depth_witness : Some 3%Z = Some 3%Z.
Proof.
  apply (layer_filename_depth "thetao" "202301" (Some 3%Z) (Some 3%Z)
           (Some (5 # 1)%Q) (Some (501 # 100)%Q)).
  vm_compute. reflexivity.
Defined.

End LayerFacts.
